(** * The Emscripten backend of FLTK: graphics-driver state and browser-event translation

    A shallow embedding of the parts of
    [src/drivers/Emscripten/Fl_Emscripten_Graphics_Driver.cxx] and
    [src/drivers/Emscripten/Fl_Emscripten_Window_Driver.cxx] that carry
    state or compute values: the clip stack, the path state machine, the
    line style, the pixel conversions and the keyboard and mouse handlers.

    Conventions.
    - A C++ [int] is a [Z]; every arithmetic operation goes through
      [Int.wrap], the two's-complement reduction WebAssembly's [i32]
      instructions perform.  Signed overflow is undefined in C++, so the
      theorems that do arithmetic assume operands small enough for no
      reduction to happen.
    - A C++ [double] (and a JavaScript number) is a binary64 [float].
    - The [EM_ASM] blocks call methods of a Canvas 2D context.  The model
      records those calls, in order, in the field [ctxt] of the driver. *)

From Stdlib Require Import ZArith Lia Bool String Ascii.
From Stdlib Require Import Floats.PrimFloat Floats.SpecFloat Floats.FloatOps.
From Stdlib Require Import Numbers.Cyclic.Int63.Uint63.
From stdpp Require Import base list.

Local Open Scope Z_scope.

(** ** C++ integers *)

Module Int.

Definition min_signed : Z := - 2 ^ 31.
Definition max_signed : Z := 2 ^ 31 - 1.

(** Reduction of an integer to the 32-bit signed range. *)
Definition wrap (z : Z) : Z := (z + 2 ^ 31) mod 2 ^ 32 - 2 ^ 31.

Definition add (a b : Z) : Z := wrap (a + b).
Definition sub (a b : Z) : Z := wrap (a - b).
Definition mul (a b : Z) : Z := wrap (a * b).

(** [abs] of <stdlib.h>. *)
Definition abs (a : Z) : Z := if a <? 0 then wrap (- a) else a.

(** The operator [%] of C++: the remainder has the sign of the dividend. *)
Definition rem (a b : Z) : Z := Z.rem a b.

(** The operator [/] of C++ on [int]: the quotient is truncated. *)
Definition div (a b : Z) : Z := wrap (Z.quot a b).

Definition in_range (z : Z) : Prop := min_signed <= z <= max_signed.

(** Coordinates whose sums and differences stay in range. *)
Definition small (z : Z) : Prop := - 2 ^ 29 <= z <= 2 ^ 29.

End Int.

(** ** C++ doubles *)

Definition double : Set := float.

(** Conversion of an [int] to [double]; exact, an [int] has 32 bits. *)
Definition double_of_int (z : Z) : double :=
  if z <? 0 then PrimFloat.opp (PrimFloat.of_uint63 (Uint63.of_Z (- z)))
  else PrimFloat.of_uint63 (Uint63.of_Z z).

(** Conversion of a [double] to [int]: the fractional part is discarded.
    The conversion is undefined for infinities, NaN and values outside
    the range of [int]; the model gives [None] there. *)
Definition int_of_double (f : double) : option Z :=
  match Prim2SF f with
  | S754_zero _ => Some 0
  | S754_finite s m e =>
      let mag := if 0 <=? e then Z.shiftl (Z.pos m) e
                 else Z.shiftr (Z.pos m) (- e) in
      let v := if s then - mag else mag in
      if (Int.min_signed <=? v) && (v <=? Int.max_signed) then Some v else None
  | S754_infinity _ => None
  | S754_nan => None
  end.

(** ** The Canvas 2D context, as the sequence of calls it receives *)

Inductive canvas_call : Set :=
| Save
| Restore
| Rect (x y w h : double)
| Clip
| BeginPath
| ClosePath
| Stroke
| Fill
| Transform (a b c d x y : double)
| ResetTransform
| Arc (x y r a0 a1 : double) (counterclockwise : bool)
| MoveTo (x y : double)
| LineTo (x y : double)
| BezierCurveTo (x1 y1 x2 y2 x3 y3 : double)
| SetLineWidth (w : Z)
| SetLineCap (s : string)
| SetLineJoin (s : string)
| SetLineDash (segments : list double)
| PutImageData (data : list Z) (sw sh dx dy dirtyX dirtyY dirtyW dirtyH : Z).

(** ** State of the graphics driver *)

(** [class EmClip]: one entry of the clip stack.  The list [emclip_] of
    the driver is the chain through [prev], its head the newest entry. *)
Record EmClip : Set := mkEmClip { cx : Z; cy : Z; cw : Z; ch : Z }.

(** [Fl_Graphics_Driver::matrix]. *)
Record matrix : Set := mkMatrix {
  ma : double; mb : double; mc : double; md : double; mx : double; my : double
}.

Inductive SHAPE : Set := NONE | LINE | LOOP | POLYGON | POINTS.

Record Driver : Set := mkDriver {
  emclip_ : list EmClip;
  what : SHAPE;
  gap_ : Z;
  m : matrix;
  line_style_ : Z;
  width_ : Z;
  linecap_ : string;
  linejoin_ : string;
  linedash_ : list Z;
  ctxt : list canvas_call
}.

Definition set_emclip (st : Driver) (v : list EmClip) : Driver :=
  mkDriver v (what st) (gap_ st) (m st) (line_style_ st) (width_ st)
           (linecap_ st) (linejoin_ st) (linedash_ st) (ctxt st).

Definition set_what (st : Driver) (v : SHAPE) : Driver :=
  mkDriver (emclip_ st) v (gap_ st) (m st) (line_style_ st) (width_ st)
           (linecap_ st) (linejoin_ st) (linedash_ st) (ctxt st).

Definition set_gap (st : Driver) (v : Z) : Driver :=
  mkDriver (emclip_ st) (what st) v (m st) (line_style_ st) (width_ st)
           (linecap_ st) (linejoin_ st) (linedash_ st) (ctxt st).

(** One [EM_ASM] block: the calls it makes are appended to the record. *)
Definition em_asm (st : Driver) (calls : list canvas_call) : Driver :=
  mkDriver (emclip_ st) (what st) (gap_ st) (m st) (line_style_ st) (width_ st)
           (linecap_ st) (linejoin_ st) (linedash_ st) (ctxt st ++ calls).

(** ** Clipping *)

Module Clip.

(** The four reference parameters [X], [Y], [W], [H] of [clip_box]. *)
Record box : Set := mkBox { bX : Z; bY : Z; bW : Z; bH : Z }.

(** [clip_box].  [out] holds what the reference parameters refer to on
    entry; the result is the return value and what they hold on exit. *)
Definition clip_box (emclip : list EmClip) (x y w h : Z) (out : box) : Z * box :=
  match emclip with
  | [] => (0, mkBox x y w h)
  | top :: _ =>
      if cw top <? 0 then (1, mkBox x y w h)
      else
        let ret := 0 in
        let X := cx top in
        let '(X, ret) := if x >? X then (x, 1) else (X, ret) in
        let Y := cy top in
        let '(Y, ret) := if y >? Y then (y, 1) else (Y, ret) in
        let '(W, ret) :=
          if Int.add x w <? Int.add (cx top) (cw top)
          then (Int.sub (Int.add x w) X, 1)
          else (Int.sub (Int.add (cx top) (cw top)) X, ret) in
        if W <? 0 then (1, mkBox X Y 0 (bH out))
        else
          let '(H, ret) :=
            if Int.add y h <? Int.add (cy top) (ch top)
            then (Int.sub (Int.add y h) Y, 1)
            else (Int.sub (Int.add (cy top) (ch top)) Y, ret) in
          if H <? 0 then (1, mkBox X Y 0 0)
          else (ret, mkBox X Y W H)
  end.

(** [push_clip].  [new EmClip()] value-initialises the entry: its four
    fields are 0 when [clip_box] receives them. *)
Definition push_clip (st : Driver) (x y w h : Z) : Driver :=
  let c := mkEmClip 0 0 0 0 in
  let '(_, b) := clip_box (emclip_ st) x y w h (mkBox (cx c) (cy c) (cw c) (ch c)) in
  let c := mkEmClip (bX b) (bY b) (bW b) (bH b) in
  let st := set_emclip st (c :: emclip_ st) in
  em_asm st [Save;
             Rect (PrimFloat.sub (double_of_int (cx c)) 0.5)
                  (PrimFloat.sub (double_of_int (cy c)) 0.5)
                  (double_of_int (cw c)) (double_of_int (ch c));
             Clip].

(** [push_no_clip]. *)
Definition push_no_clip (st : Driver) : Driver :=
  let c := mkEmClip (-1) (-1) (-1) (-1) in
  let st := set_emclip st (c :: emclip_ st) in
  em_asm st [Save; Restore].

(** [pop_clip]. *)
Definition pop_clip (st : Driver) : Driver :=
  match emclip_ st with
  | [] => st
  | _ :: prev =>
      let st := set_emclip st prev in
      em_asm st [Restore]
  end.

(** [not_clipped]. *)
Definition not_clipped (emclip : list EmClip) (x y w h : Z) : Z :=
  match emclip with
  | [] => 1
  | top :: _ =>
      if cw top <? 0 then 1
      else
        let '(_, b) := clip_box emclip x y w h (mkBox 0 0 0 0) in
        if bW b =? 0 then 0 else 1
  end.

(** The extent, along one axis, of the overlap of the interval that
    starts at [a] and has length [la] with the one that starts at [b]
    and has length [lb].  It is negative when the two are apart. *)
Definition overlap (a la b lb : Z) : Z := Z.min (a + la) (b + lb) - Z.max a b.

Definition overlap_w (top : EmClip) (x w : Z) : Z := overlap x w (cx top) (cw top).
Definition overlap_h (top : EmClip) (y h : Z) : Z := overlap y h (cy top) (ch top).

(** The intersection of a rectangle with a clip entry, extents at least 0. *)
Definition intersection (top : EmClip) (x y w h : Z) : box :=
  mkBox (Z.max x (cx top)) (Z.max y (cy top))
        (Z.max 0 (overlap_w top x w)) (Z.max 0 (overlap_h top y h)).

(** A rectangle meets a clip entry when both overlaps are positive. *)
Definition meets (top : EmClip) (x y w h : Z) : Prop :=
  0 < overlap_w top x w /\ 0 < overlap_h top y h.

Definition small_rect (x y w h : Z) : Prop :=
  Int.small x /\ Int.small y /\ Int.small w /\ Int.small h.

Definition small_clip (c : EmClip) : Prop :=
  small_rect (cx c) (cy c) (cw c) (ch c).


End Clip.

(** ** Constants of the toolkit and of the browser interface

    The handlers and [line_style] compare against named constants of
    [FL/Enumerations.H] and [emscripten/html5.h].  Those headers are not
    part of this backend, so the development is parametric in the values. *)

Class Enumerations : Set := {
  (* events *)
  FL_PUSH : Z; FL_RELEASE : Z; FL_ENTER : Z; FL_LEAVE : Z; FL_MOVE : Z;
  (* bits of Fl::e_state *)
  FL_SHIFT : Z; FL_CTRL : Z; FL_ALT : Z; FL_META : Z;
  FL_BUTTON1 : Z; FL_BUTTON2 : Z; FL_BUTTON3 : Z;
  (* key codes *)
  FL_Button : Z;
  FL_BackSpace : Z; FL_Tab : Z; FL_Iso_Key : Z; FL_Enter : Z; FL_Pause : Z;
  FL_Scroll_Lock : Z; FL_Escape : Z; FL_Kana : Z; FL_Eisu : Z; FL_Yen : Z;
  FL_JIS_Underscore : Z; FL_Home : Z; FL_Left : Z; FL_Up : Z; FL_Right : Z;
  FL_Down : Z; FL_Page_Up : Z; FL_Page_Down : Z; FL_End : Z; FL_Print : Z;
  FL_Insert : Z; FL_Menu : Z; FL_Help : Z; FL_Num_Lock : Z; FL_KP : Z;
  FL_KP_Enter : Z; FL_KP_Last : Z; FL_F : Z; FL_F_Last : Z; FL_Shift_L : Z;
  FL_Shift_R : Z; FL_Control_L : Z; FL_Control_R : Z; FL_Caps_Lock : Z;
  FL_Meta_L : Z; FL_Meta_R : Z; FL_Alt_L : Z; FL_Alt_R : Z; FL_Delete : Z;
  FL_Alt_Gr : Z;
  (* line styles *)
  FL_CAP_ROUND : Z; FL_CAP_SQUARE : Z;
  FL_JOIN_MITER : Z; FL_JOIN_ROUND : Z; FL_JOIN_BEVEL : Z
}.

Class Html5 : Set := {
  EMSCRIPTEN_EVENT_CLICK : Z;
  EMSCRIPTEN_EVENT_MOUSEDOWN : Z;
  EMSCRIPTEN_EVENT_MOUSEUP : Z;
  EMSCRIPTEN_EVENT_DBLCLICK : Z;
  EMSCRIPTEN_EVENT_MOUSEMOVE : Z;
  EMSCRIPTEN_EVENT_MOUSEENTER : Z;
  EMSCRIPTEN_EVENT_MOUSELEAVE : Z
}.

(** The values the two headers give the names (FLTK 1.4, Emscripten 3). *)
Definition fltk_enumerations : Enumerations := {|
  FL_PUSH := 1; FL_RELEASE := 2; FL_ENTER := 3; FL_LEAVE := 4; FL_MOVE := 11;
  FL_SHIFT := 0x00010000; FL_CTRL := 0x00040000; FL_ALT := 0x00080000;
  FL_META := 0x00400000;
  FL_BUTTON1 := 0x01000000; FL_BUTTON2 := 0x02000000; FL_BUTTON3 := 0x04000000;
  FL_Button := 0xfee8;
  FL_BackSpace := 0xff08; FL_Tab := 0xff09; FL_Iso_Key := 0xff0c;
  FL_Enter := 0xff0d; FL_Pause := 0xff13; FL_Scroll_Lock := 0xff14;
  FL_Escape := 0xff1b; FL_Kana := 0xff2e; FL_Eisu := 0xff2f; FL_Yen := 0xff30;
  FL_JIS_Underscore := 0xff31; FL_Home := 0xff50; FL_Left := 0xff51;
  FL_Up := 0xff52; FL_Right := 0xff53; FL_Down := 0xff54; FL_Page_Up := 0xff55;
  FL_Page_Down := 0xff56; FL_End := 0xff57; FL_Print := 0xff61;
  FL_Insert := 0xff63; FL_Menu := 0xff67; FL_Help := 0xff68;
  FL_Num_Lock := 0xff7f; FL_KP := 0xff80; FL_KP_Enter := 0xff8d;
  FL_KP_Last := 0xffbd; FL_F := 0xffbd; FL_F_Last := 0xffe0;
  FL_Shift_L := 0xffe1; FL_Shift_R := 0xffe2; FL_Control_L := 0xffe3;
  FL_Control_R := 0xffe4; FL_Caps_Lock := 0xffe5; FL_Meta_L := 0xffe7;
  FL_Meta_R := 0xffe8; FL_Alt_L := 0xffe9; FL_Alt_R := 0xffea;
  FL_Delete := 0xffff; FL_Alt_Gr := 0xfe03;
  FL_CAP_ROUND := 0x200; FL_CAP_SQUARE := 0x300;
  FL_JOIN_MITER := 0x1000; FL_JOIN_ROUND := 0x2000; FL_JOIN_BEVEL := 0x3000
|}.

Definition emscripten_html5 : Html5 := {|
  EMSCRIPTEN_EVENT_CLICK := 4;
  EMSCRIPTEN_EVENT_MOUSEDOWN := 5;
  EMSCRIPTEN_EVENT_MOUSEUP := 6;
  EMSCRIPTEN_EVENT_DBLCLICK := 7;
  EMSCRIPTEN_EVENT_MOUSEMOVE := 8;
  EMSCRIPTEN_EVENT_MOUSEENTER := 33;
  EMSCRIPTEN_EVENT_MOUSELEAVE := 34
|}.

(** ** The path state machine *)

Module Path.

(** [Math.PI]. *)
Definition Math_PI : double := 0x1.921fb54442d18p+1%float.

(** [concat]. *)
Definition concat (st : Driver) : Driver :=
  em_asm st [Transform (ma (m st)) (mb (m st)) (mc (m st)) (md (m st))
                       (mx (m st)) (my (m st))].

(** [reconcat]. *)
Definition reconcat (st : Driver) : Driver := em_asm st [ResetTransform].

(** [begin_points]. *)
Definition begin_points (st : Driver) : Driver :=
  let st := em_asm st [Save] in
  let st := concat st in
  let st := em_asm st [BeginPath] in
  let st := set_gap st 1 in
  set_what st POINTS.

(** [begin_line]. *)
Definition begin_line (st : Driver) : Driver :=
  let st := em_asm st [Save] in
  let st := concat st in
  let st := em_asm st [BeginPath] in
  let st := set_gap st 1 in
  set_what st LINE.

(** [begin_loop]. *)
Definition begin_loop (st : Driver) : Driver :=
  let st := em_asm st [Save] in
  let st := concat st in
  let st := em_asm st [BeginPath] in
  let st := set_gap st 1 in
  set_what st LOOP.

(** [begin_polygon]. *)
Definition begin_polygon (st : Driver) : Driver :=
  let st := em_asm st [Save] in
  let st := concat st in
  let st := em_asm st [BeginPath] in
  let st := set_gap st 1 in
  set_what st POLYGON.

(** [end_line]. *)
Definition end_line (st : Driver) : Driver :=
  let st := set_gap st 1 in
  let st := reconcat st in
  let st := em_asm st [Stroke; Restore] in
  set_what st NONE.

(** [end_points]. *)
Definition end_points (st : Driver) : Driver := end_line st.

(** [end_loop]. *)
Definition end_loop (st : Driver) : Driver :=
  let st := set_gap st 1 in
  let st := reconcat st in
  let st := em_asm st [ClosePath; Stroke; Restore] in
  set_what st NONE.

(** [end_polygon]. *)
Definition end_polygon (st : Driver) : Driver :=
  let st := set_gap st 1 in
  let st := reconcat st in
  let st := em_asm st [ClosePath; Fill; Restore] in
  set_what st NONE.

(** The angle arguments [-a * Math.PI / 180] of the script in [arc]. *)
Definition radians (a : double) : double :=
  PrimFloat.div (PrimFloat.mul (PrimFloat.opp a) Math_PI) 180%float.

(** [arc(double x, double y, double r, double start, double end)]. *)
Definition arc (st : Driver) (x y r start end_ : double) : Driver :=
  match what st with
  | NONE => st
  | _ =>
      let st := if gap_ st =? 1 then em_asm st [BeginPath] else st in
      let st := set_gap st 0 in
      if PrimFloat.ltb end_ start
      then em_asm st [Arc x y r (radians start) (radians end_) false]
      else em_asm st [Arc x y r (radians start) (radians end_) true]
  end.

Section Curve.

(** [Fl_Graphics_Driver::curve], the implementation of the base class,
    which is not part of this backend. *)
Variable Fl_Graphics_Driver_curve :
  Driver -> double -> double -> double -> double ->
  double -> double -> double -> double -> Driver.

(** [curve]. *)
Definition curve (st : Driver) (x y x1 y1 x2 y2 x3 y3 : double) : Driver :=
  match what st with
  | NONE => st
  | POINTS => Fl_Graphics_Driver_curve st x y x1 y1 x2 y2 x3 y3
  | _ =>
      let st :=
        em_asm st [if gap_ st =? 0 then LineTo x y else MoveTo x y;
                   BezierCurveTo x1 y1 x2 y2 x3 y3] in
      set_gap st 0
  end.

End Curve.

End Path.

(** ** Line styles *)

Module LineStyle.

Set Warnings "-inexact-float".

(** [dashes_flat]. *)
Definition dashes_flat : list (list Z) :=
  [ [-1; 0; 0; 0; 0; 0; 0];
    [3; 1; -1; 0; 0; 0; 0];
    [1; 1; -1; 0; 0; 0; 0];
    [3; 1; 1; 1; -1; 0; 0];
    [3; 1; 1; 1; 1; 1; -1] ].

(** [dashes_cap]. *)
Definition dashes_cap : list (list double) :=
  [ [-1; 0; 0; 0; 0; 0; 0];
    [2; 2; -1; 0; 0; 0; 0];
    [0.01; 1.99; -1; 0; 0; 0; 0];
    [2; 2; 0.01; 1.99; -1; 0; 0];
    [2; 2; 0.01; 1.99; 0.01; 1.99; -1] ]%float.

Set Warnings "inexact-float".

(** The loop [while ( *dt >= 0) { ddashes[l++] = width * ( *dt); dt++; }]
    over one row of [dashes_cap].  [None]: the pointer left the row. *)
Fixpoint scale_cap (width : Z) (dt : list double) : option (list double) :=
  match dt with
  | [] => None
  | v :: dt' =>
      if PrimFloat.leb 0%float v
      then match scale_cap width dt' with
           | Some rest => Some (PrimFloat.mul (double_of_int width) v :: rest)
           | None => None
           end
      else Some []
  end.

(** The loop [while ( *ds >= 0) { ddashes[l++] = width * ( *ds); ds++; }]
    over one row of [dashes_flat]; the product is an [int]. *)
Fixpoint scale_flat (width : Z) (ds : list Z) : option (list double) :=
  match ds with
  | [] => None
  | v :: ds' =>
      if 0 <=? v
      then match scale_flat width ds' with
           | Some rest => Some (double_of_int (Int.mul width v) :: rest)
           | None => None
           end
      else Some []
  end.

(** The entry of a row of [dashes_flat]: its elements before the
    negative one that ends it. *)
Fixpoint entry_flat (row : list Z) : list Z :=
  match row with
  | [] => []
  | v :: row' => if 0 <=? v then v :: entry_flat row' else []
  end.

(** The entry of a row of [dashes_cap]. *)
Fixpoint entry_cap (row : list double) : list double :=
  match row with
  | [] => []
  | v :: row' => if PrimFloat.leb 0%float v then v :: entry_cap row' else []
  end.

(** A null pointer or an empty string. *)
Definition no_dashes (dashes : option (list Z)) : Prop :=
  dashes = None \/ dashes = Some [].

(** The call reads no table, or reads one of its five rows. *)
Definition in_tables (style : Z) (dashes : option (list Z)) : Prop :=
  no_dashes dashes -> Z.land style 0xff <= 4.

Section WithEnumerations.

Context {E : Enumerations}.

(** The string [linecap_] receives. *)
Definition cap_of (style : Z) : string :=
  let cap_part := Z.land style 0xF00 in
  if cap_part =? FL_CAP_SQUARE then "square"%string
  else if cap_part =? FL_CAP_ROUND then "round"%string
  else "butt"%string.

(** The string [linejoin_] receives. *)
Definition join_of (style : Z) : string :=
  let join_part := Z.land style 0xF000 in
  if join_part =? FL_JOIN_BEVEL then "bevel"%string
  else if join_part =? FL_JOIN_MITER then "miter"%string
  else if join_part =? FL_JOIN_ROUND then "round"%string
  else "miter"%string.

(** The array [ddashes] and its length [l], as the list of its first [l]
    elements.  [dashes] is [None] for a null pointer and otherwise the
    characters of the string before its terminator.  [None] as result:
    the index [style & 0xff] is outside the table, or a loop left its row. *)
Definition ddashes_of (style width : Z) (dashes : option (list Z))
  : option (list double) :=
  match dashes with
  | Some (c :: cs) => Some (map double_of_int (c :: cs))
  | _ =>
      if negb (Z.land style 0xff =? 0) then
        if negb (Z.land style 0x200 =? 0) then
          match dashes_cap !! Z.to_nat (Z.land style 0xff) with
          | Some dt => scale_cap width dt
          | None => None
          end
        else
          match dashes_flat !! Z.to_nat (Z.land style 0xff) with
          | Some ds => scale_flat width ds
          | None => None
          end
      else Some []
  end.

(** [line_style]. *)
Definition line_style (st : Driver) (style width : Z) (dashes : option (list Z))
  : option Driver :=
  let linedash := match dashes with Some s => s | None => [] end in
  let width := if width =? 0 then 1 else width in
  let linecap := cap_of style in
  let linejoin := join_of style in
  match ddashes_of style width dashes with
  | None => None
  | Some ddashes =>
      Some (mkDriver (emclip_ st) (what st) (gap_ st) (m st)
                     style width linecap linejoin linedash
                     (ctxt st ++ [SetLineWidth width; SetLineCap linecap;
                                  SetLineJoin linejoin; SetLineDash ddashes]))
  end.

End WithEnumerations.

End LineStyle.

(** ** Images *)

(** A [for] loop [for (int i = i0; i < stop; i += step) body].  The
    body may fail; [fuel] bounds the number of iterations. *)
Fixpoint for_loop {S : Type} (fuel : nat) (i stop step : Z)
         (body : Z -> S -> option S) (s : S) : option S :=
  if i <? stop then
    match fuel with
    | O => None
    | Datatypes.S fuel' =>
        match body i s with
        | Some s' => for_loop fuel' (Int.add i step) stop step body s'
        | None => None
        end
    end
  else Some s.

Module Image.

(** What the driver reads of an [Fl_RGB_Image]: [d()], [data_w()],
    [data_h()] and [array], the latter [None] for a null pointer. *)
Record Fl_RGB_Image : Set := mkImage {
  d : Z; data_w : Z; data_h : Z; array : option (list Z)
}.

(** [array[i]]; reading outside the array has no defined result. *)
Definition read (a : list Z) (i : Z) : option Z :=
  if i <? 0 then None else a !! Z.to_nat i.

(** [array[i] = v]; so has writing outside of it. *)
Definition write (a : list Z) (i : Z) (v : Z) : option (list Z) :=
  if (0 <=? i) && (i <? Z.of_nat (length a)) then Some (<[Z.to_nat i := v]> a)
  else None.

(** The four loops of [draw_fixed] that fill [image_data]. *)
Definition push4 (a : list Z) (i : Z) (image_data : list Z) : option (list Z) :=
  match read a i with
  | Some v => Some (image_data ++ [v])
  | None => None
  end.

Definition push3 (a : list Z) (i : Z) (image_data : list Z) : option (list Z) :=
  match read a i, read a (Int.add i 1), read a (Int.add i 2) with
  | Some r, Some g, Some b => Some (image_data ++ [r; g; b; 255])
  | _, _, _ => None
  end.

Definition push2 (a : list Z) (i : Z) (image_data : list Z) : option (list Z) :=
  match read a i, read a (Int.add i 1) with
  | Some v, Some alpha => Some (image_data ++ [v; v; v; alpha])
  | _, _ => None
  end.

Definition push1 (a : list Z) (i : Z) (image_data : list Z) : option (list Z) :=
  match read a i with
  | Some v => Some (image_data ++ [v; v; v; 255])
  | None => None
  end.

(** The size [sz] and the [switch] of [draw_fixed]: the contents of
    [image_data] when the [EM_ASM] block is reached. *)
Definition image_data_of (rgb : Fl_RGB_Image) (a : list Z) : option (list Z) :=
  let sz := Int.mul (Int.mul (data_w rgb) (data_h rgb)) (d rgb) in
  let fuel := Z.to_nat sz in
  if d rgb =? 4 then for_loop fuel 0 sz 1 (push4 a) []
  else if d rgb =? 3 then for_loop fuel 0 sz 3 (push3 a) []
  else if d rgb =? 2 then for_loop fuel 0 sz 2 (push2 a) []
  else if d rgb =? 1 then for_loop fuel 0 sz 1 (push1 a) []
  else Some [].

Section WithBaseClass.

(** [Fl_Graphics_Driver::draw_empty], [Fl_Graphics_Driver::start_image]
    and [Fl_Graphics_Driver::draw_rgb] belong to the base class, which is
    not part of this backend. *)
Variable draw_empty : Driver -> Fl_RGB_Image -> Z -> Z -> Driver.
Variable start_image :
  Driver -> Fl_RGB_Image -> Z -> Z -> Z -> Z -> Z -> Z -> Z * Driver.
Variable draw_rgb :
  Driver -> Fl_RGB_Image -> Z -> Z -> Z -> Z -> Z -> Z -> Driver.

(** [draw_fixed(Fl_RGB_Image *rgb, ...)]. *)
Definition draw_fixed (st : Driver) (rgb : Fl_RGB_Image) (XP YP WP HP cx cy : Z)
  : option Driver :=
  match array rgb with
  | None => Some (draw_empty st rgb XP YP)
  | Some a =>
      if d rgb =? 0 then Some (draw_empty st rgb XP YP)
      else
        let '(r, st) := start_image st rgb XP YP WP HP cx cy in
        if negb (r =? 0) then Some st
        else
          match image_data_of rgb a with
          | None => None
          | Some image_data =>
              Some (em_asm st [Save;
                               Rect (double_of_int XP) (double_of_int YP)
                                    (double_of_int WP) (double_of_int HP);
                               Clip;
                               PutImageData image_data (data_w rgb) (data_h rgb)
                                            XP YP cx cy WP HP;
                               Restore])
          end
  end.

(** An [Fl_Draw_Image_Cb] bound to its [data] argument.  The call
    [call(data, x, y, w, buf)] is [call x y w] applied to the bytes from
    [buf] to the end of the array; its result is what those bytes hold
    when the call returns. *)
Definition Fl_Draw_Image_Cb : Type := Z -> Z -> Z -> list Z -> list Z.

(** The inner loop of [draw_image]: the byte [D - 1] of each pixel of
    line [l] becomes [0xff]. *)
Definition set_alpha (l iw D : Z) (i : Z) (a : list Z) : option (list Z) :=
  write a (Int.sub (Int.add (Int.add (Int.mul (Int.mul l D) iw) (Int.mul i D)) D) 1)
        0xff.

(** The body of the outer loop of [draw_image]. *)
Definition draw_line (call : Fl_Draw_Image_Cb) (iw D : Z) (l : Z) (a : list Z)
  : option (list Z) :=
  let off := Int.mul (Int.mul l D) iw in
  if (0 <=? off) && (off <=? Z.of_nat (length a)) then
    let a := take (Z.to_nat off) a ++ call 0 l iw (drop (Z.to_nat off) a) in
    if Int.rem D 2 =? 0 then for_loop (Z.to_nat iw) 0 iw 1 (set_alpha l iw D) a
    else Some a
  else None.

(** The array [draw_image] hands to the [Fl_RGB_Image] it draws.
    [fresh] is what [new uchar[iw * D * ih]] holds on allocation. *)
Definition draw_image_array (call : Fl_Draw_Image_Cb) (iw ih D : Z) (fresh : list Z)
  : option (list Z) :=
  for_loop (Z.to_nat ih) 0 ih 1 (draw_line call iw D) fresh.

(** [draw_image(Fl_Draw_Image_Cb call, void *data, ...)]. *)
Definition draw_image (st : Driver) (call : Fl_Draw_Image_Cb)
           (ix iy iw ih D : Z) (fresh : list Z) : option Driver :=
  match draw_image_array call iw ih D fresh with
  | None => None
  | Some a =>
      let rgb := mkImage D iw ih (Some a) in
      Some (draw_rgb st rgb ix iy iw ih 0 0)
  end.

End WithBaseClass.

(** The [len] elements of [a] from index [off] on. *)
Definition slice (a : list Z) (off len : Z) : list Z :=
  take (Z.to_nat len) (drop (Z.to_nat off) a).

(** One pixel as RGBA8888, from the [depth] bytes that hold it. *)
Definition rgba_of (depth : Z) (src : list Z) : option (list Z) :=
  match src with
  | [r; g; b; alpha] => if depth =? 4 then Some [r; g; b; alpha] else None
  | [r; g; b] => if depth =? 3 then Some [r; g; b; 255] else None
  | [v; alpha] => if depth =? 2 then Some [v; v; v; alpha] else None
  | [v] => if depth =? 1 then Some [v; v; v; 255] else None
  | _ => None
  end.

(** The index, in an array of lines of [iw] pixels of [D] bytes, of
    the last byte of pixel [i] of line [l]. *)
Definition alpha_index (iw D l i : Z) : Z := (l * iw + i) * D + (D - 1).

(** Sizes for which no index computation of [draw_image] overflows. *)
Definition fits (iw ih D : Z) : Prop :=
  0 <= iw /\ 0 <= ih /\ 0 < D /\ (iw + 1) * D * (ih + 1) < 2 ^ 30.



End Image.

(** ** Matrices *)

Module Matrix.

(** [invert_matrix].  The second argument is what [newmatrix] refers to
    on entry; the result is the return value and what it holds on exit.
    [None]: the conversion of the determinant to [int] is undefined. *)
Definition invert_matrix (m newmatrix : matrix) : option (Z * matrix) :=
  match int_of_double (PrimFloat.sub (PrimFloat.mul (ma m) (md m))
                                     (PrimFloat.mul (mb m) (mc m))) with
  | None => None
  | Some det =>
      if det =? 0 then Some (-1, newmatrix)
      else
        let invDet := double_of_int (Int.div 1 det) in
        Some (0,
              mkMatrix
                (PrimFloat.mul (md m) invDet)
                (PrimFloat.mul (PrimFloat.opp (mb m)) invDet)
                (PrimFloat.mul (PrimFloat.opp (mc m)) invDet)
                (PrimFloat.mul (ma m) invDet)
                (PrimFloat.mul
                   (PrimFloat.sub (PrimFloat.mul (mc m) (my m))
                                  (PrimFloat.mul (md m) (mx m))) invDet)
                (PrimFloat.mul
                   (PrimFloat.sub (PrimFloat.mul (mb m) (mx m))
                                  (PrimFloat.mul (ma m) (my m))) invDet))
  end.

(** The image of the point [(x, y)] under the transform [m]:
    [(x * a + y * c + x0, x * b + y * d + y0)]. *)
Definition apply (m : matrix) (p : double * double) : double * double :=
  let '(x, y) := p in
  (PrimFloat.add (PrimFloat.add (PrimFloat.mul x (ma m)) (PrimFloat.mul y (mc m))) (mx m),
   PrimFloat.add (PrimFloat.add (PrimFloat.mul x (mb m)) (PrimFloat.mul y (md m))) (my m)).

End Matrix.

(** ** Browser events *)

Module Window.

(** The static members of [Fl] the handlers write, and the statics [px]
    and [py] of the window driver. *)
Record Fl : Set := mkFl {
  e_x : Z; e_y : Z; e_x_root : Z; e_y_root : Z;
  e_state : Z; e_keysym : Z; e_length : Z; e_text : string;
  e_clicks : Z; e_is_click : Z;
  px : Z; py : Z
}.

(** The fields of an [EmscriptenKeyboardEvent] the handler reads. *)
Record EmscriptenKeyboardEvent : Set := mkKeyboardEvent {
  key : string; ctrlKey : bool; altKey : bool; shiftKey : bool; metaKey : bool
}.

(** The fields of an [EmscriptenMouseEvent] the handler reads. *)
Record EmscriptenMouseEvent : Set := mkMouseEvent {
  targetX : Z; targetY : Z; clientX : Z; clientY : Z; button : Z
}.

(** Conversion to [unsigned long], 32 bits wide on this target. *)
Definition to_ulong (z : Z) : Z := z mod 2 ^ 32.

(** The value of a [char], a signed type on this target, as an [int]. *)
Definition int_of_char (c : ascii) : Z :=
  let v := Z.of_N (N_of_ascii c) in
  if v <? 128 then v else v - 256.

(** [k[0]]: the first character, or the terminator of an empty string. *)
Definition first_char (k : string) : Z :=
  match k with
  | EmptyString => 0
  | String c _ => int_of_char c
  end.

(** [strlen]. *)
Definition strlen (k : string) : Z := Z.of_nat (String.length k).

(** [special_keys]. *)
Definition special_keys : list string :=
  [ "Backspace"; "Tab"; "IsoKey"; "Enter"; "Pause";
    "ScrollLock"; "Escape"; "Kana"; "Eisu"; "Yen";
    "JISUnderscore"; "Home"; "ArrowLeft"; "ArrowUp"; "ArrowRight";
    "ArrowDown"; "PageUp"; "PageDown"; "End"; "Print";
    "Insert"; "Menu"; "Help"; "NumLock"; "KP";
    "KPEnter"; "KPLast"; "F"; "FLast"; "Shift";
    "Shift"; "Control"; "Control"; "CapsLock"; "Meta";
    "Meta"; "Alt"; "Alt"; "Delete"; "AltGr" ]%string.

(** The loop of [special_key], from index [i] on; [keys] are the
    entries of [special_keys] from that index. *)
Fixpoint special_key_from (i : Z) (keys : list string) (k : string) : Z :=
  match keys with
  | [] => -1
  | s :: keys' =>
      if String.eqb s k then i else special_key_from (Int.add i 1) keys' k
  end.

(** [special_key]. *)
Definition special_key (k : string) : Z := special_key_from 0 special_keys k.

Section WithEnumerations.

Context {E : Enumerations} {H5 : Html5}.

(** [special_keys_equiv]. *)
Definition special_keys_equiv : list Z :=
  [ FL_BackSpace; FL_Tab; FL_Iso_Key; FL_Enter; FL_Pause;
    FL_Scroll_Lock; FL_Escape; FL_Kana; FL_Eisu; FL_Yen;
    FL_JIS_Underscore; FL_Home; FL_Left; FL_Up; FL_Right;
    FL_Down; FL_Page_Up; FL_Page_Down; FL_End; FL_Print;
    FL_Insert; FL_Menu; FL_Help; FL_Num_Lock; FL_KP;
    FL_KP_Enter; FL_KP_Last; FL_F; FL_F_Last; FL_Shift_L;
    FL_Shift_R; FL_Control_L; FL_Control_R; FL_Caps_Lock; FL_Meta_L;
    FL_Meta_R; FL_Alt_L; FL_Alt_R; FL_Delete; FL_Alt_Gr ].

(** [special_keys_equiv[i]] for an index inside the table. *)
Definition equiv_at (i : Z) : Z := default 0 (special_keys_equiv !! Z.to_nat i).

(** [set_keysym_and_state]. *)
Definition set_keysym_and_state (keyEvent : EmscriptenKeyboardEvent) (F : Fl) : Fl :=
  let state := to_ulong (Z.land (e_state F) 0xff0000) in
  let '(keysym, len, text) :=
    if special_key (key keyEvent) >=? 0
    then (equiv_at (special_key (key keyEvent)), 0, EmptyString)
    else (first_char (key keyEvent), strlen (key keyEvent), key keyEvent) in
  let state := if ctrlKey keyEvent then Z.lor state (to_ulong FL_CTRL) else state in
  let state := if altKey keyEvent then Z.lor state (to_ulong FL_ALT) else state in
  let state := if shiftKey keyEvent then Z.lor state (to_ulong FL_SHIFT) else state in
  let state := if metaKey keyEvent then Z.lor state (to_ulong FL_META) else state in
  mkFl (e_x F) (e_y F) (e_x_root F) (e_y_root F)
       (Int.wrap state) keysym len text
       (e_clicks F) (e_is_click F) (px F) (py F).

(** [match_mouse_event]. *)
Definition match_mouse_event (eventType : Z) : Z :=
  if eventType =? EMSCRIPTEN_EVENT_MOUSEDOWN then FL_PUSH
  else if eventType =? EMSCRIPTEN_EVENT_MOUSEUP then FL_RELEASE
  else if eventType =? EMSCRIPTEN_EVENT_MOUSEMOVE then FL_MOVE
  else if eventType =? EMSCRIPTEN_EVENT_MOUSEENTER then FL_ENTER
  else if eventType =? EMSCRIPTEN_EVENT_MOUSELEAVE then FL_LEAVE
  else if eventType =? EMSCRIPTEN_EVENT_DBLCLICK then FL_PUSH
  else if eventType =? EMSCRIPTEN_EVENT_CLICK then FL_PUSH
  else 0.

(** [state |= bit] when [event->button == n]. *)
Definition set_button (btn n bit state : Z) : Z :=
  if btn =? n then Z.lor state (to_ulong bit) else state.

(** [state &= ~bit] when [event->button == n]. *)
Definition clear_button (btn n bit state : Z) : Z :=
  if btn =? n then Z.land state (to_ulong (Z.lnot bit)) else state.

(** [handle_mouse_ev] up to its call of [Fl::handle]: the members of
    [Fl] at that call and the event [flev] the call receives. *)
Definition mouse_ev (eventType : Z) (event : EmscriptenMouseEvent) (F : Fl) : Fl * Z :=
  let state := to_ulong (Z.land (e_state F) 0xff0000) in
  let x := targetX event in
  let y := targetY event in
  let x_root := clientX event in
  let y_root := clientY event in
  let flev := match_mouse_event eventType in
  if flev =? FL_PUSH then
    let clicks := if eventType =? EMSCRIPTEN_EVENT_DBLCLICK then 1 else 0 in
    let is_click := 1 in
    let px' := x_root in
    let py' := y_root in
    let state := set_button (button event) 0 FL_BUTTON1 state in
    let state := set_button (button event) 1 FL_BUTTON2 state in
    let state := set_button (button event) 2 FL_BUTTON3 state in
    let keysym := Int.add (Int.add FL_Button (button event)) 1 in
    (mkFl x y x_root y_root (Int.wrap state) keysym (e_length F) (e_text F)
          clicks is_click px' py', flev)
  else if flev =? FL_RELEASE then
    let is_click :=
      if (Int.abs (Int.sub x_root (px F)) >? 5) || (Int.abs (Int.sub y_root (py F)) >? 5)
      then 0 else e_is_click F in
    let state := clear_button (button event) 0 FL_BUTTON1 state in
    let state := clear_button (button event) 1 FL_BUTTON2 state in
    let state := clear_button (button event) 2 FL_BUTTON3 state in
    let keysym := Int.add (Int.add FL_Button (button event)) 1 in
    (mkFl x y x_root y_root (Int.wrap state) keysym (e_length F) (e_text F)
          (e_clicks F) is_click (px F) (py F), flev)
  else
    (mkFl x y x_root y_root (Int.wrap state) (e_keysym F) (e_length F) (e_text F)
          (e_clicks F) (e_is_click F) (px F) (py F), flev).

(** [Fl::handle], a function of the toolkit core. *)
Variable Fl_handle : Z -> Fl -> Z * Fl.

(** [handle_mouse_ev]; the result is converted to [bool]. *)
Definition handle_mouse_ev (eventType : Z) (event : EmscriptenMouseEvent) (F : Fl)
  : bool * Fl :=
  let '(F, flev) := mouse_ev eventType event F in
  let '(ret, F) := Fl_handle flev F in
  (negb (ret =? 0), F).

End WithEnumerations.

(** [flag] is set in [state]: the test [state & flag] of C++. *)
Definition is_set (state flag : Z) : Prop := Z.land state flag <> 0.

(** A flag that is one bit, at a position from [lo] up to and not including [hi]. *)
Definition one_bit (lo hi flag : Z) : Prop :=
  exists n, lo <= n < hi /\ flag = 2 ^ n.


Section Vocabulary.

Context {E : Enumerations} {H5 : Html5}.

(** The four modifier flags are bits inside the mask [0xff0000], no two
    of them the same. *)
Definition modifier_flags : Prop :=
  one_bit 16 24 FL_SHIFT /\ one_bit 16 24 FL_CTRL /\
  one_bit 16 24 FL_ALT /\ one_bit 16 24 FL_META /\
  FL_SHIFT <> FL_CTRL /\ FL_SHIFT <> FL_ALT /\ FL_SHIFT <> FL_META /\
  FL_CTRL <> FL_ALT /\ FL_CTRL <> FL_META /\ FL_ALT <> FL_META.

(** The event types [match_mouse_event] tells apart, in the order of
    its [case] labels. *)
Definition mouse_event_types : list Z :=
  [ EMSCRIPTEN_EVENT_MOUSEDOWN; EMSCRIPTEN_EVENT_MOUSEUP; EMSCRIPTEN_EVENT_MOUSEMOVE;
    EMSCRIPTEN_EVENT_MOUSEENTER; EMSCRIPTEN_EVENT_MOUSELEAVE;
    EMSCRIPTEN_EVENT_DBLCLICK; EMSCRIPTEN_EVENT_CLICK ].

(** What the theorem on mouse events assumes of the constants: the
    [case] labels differ, as do [FL_PUSH] and [FL_RELEASE]; the button
    flags are bits of an [int]; and [FL_Button] leaves room for a
    button number. *)
Definition mouse_constants : Prop :=
  NoDup mouse_event_types /\ FL_PUSH <> FL_RELEASE /\
  one_bit 0 31 FL_BUTTON1 /\ one_bit 0 31 FL_BUTTON2 /\ one_bit 0 31 FL_BUTTON3 /\
  0 <= FL_Button < 2 ^ 30.

(** The pointer is more than 5 pixels from where the button went down. *)
Definition moved (event : EmscriptenMouseEvent) (F : Fl) : Prop :=
  5 < Z.abs (clientX event - px F) \/ 5 < Z.abs (clientY event - py F).

End Vocabulary.

End Window.

(** ** Clip regions as sets of pixels *)

Module Region.

Import Clip.

(** The pixel [(px, py)] lies in the rectangle [(x, y, w, h)]; a
    rectangle of negative or zero width or height holds no pixel. *)
Definition in_rect (x y w h px py : Z) : Prop :=
  x <= px < x + w /\ y <= py < y + h.

Definition in_entry (c : EmClip) (px py : Z) : Prop :=
  in_rect (cx c) (cy c) (cw c) (ch c) px py.

Definition in_box (b : box) (px py : Z) : Prop :=
  in_rect (bX b) (bY b) (bW b) (bH b) px py.

End Region.

(** ** Vertices of a path *)

Module Vertices.

Import Path.

(** [vertex]. *)
Definition vertex (st : Driver) (x y : double) : Driver :=
  match what st with
  | POINTS =>
      let st := em_asm st [MoveTo x y;
                           Rect (PrimFloat.sub x 0.5) (PrimFloat.sub y 0.5) 1%float 1%float;
                           Fill] in
      set_gap st 1
  | _ =>
      if negb (gap_ st =? 0) then
        let st := em_asm st [MoveTo x y] in
        set_gap st 0
      else em_asm st [LineTo x y]
  end.

(** [circle]. *)
Definition circle (st : Driver) (x y r : double) : Driver :=
  match what st with
  | NONE =>
      let st := em_asm st [Save] in
      let st := concat st in
      let st := em_asm st [Arc x y r 0%float (PrimFloat.mul 2%float Math_PI) false; Stroke] in
      let st := reconcat st in
      em_asm st [Restore]
  | _ => em_asm st [Arc x y r 0%float (PrimFloat.mul 2%float Math_PI) false]
  end.

(** [begin_complex_polygon]. *)
Definition begin_complex_polygon (st : Driver) : Driver :=
  let st := begin_polygon st in
  set_gap st 0.

(** [end_complex_polygon]. *)
Definition end_complex_polygon (st : Driver) : Driver := end_polygon st.

(** One call a program makes between a [begin_...] and its [end_...]. *)
Inductive path_call : Set :=
| Vertex (x y : double)
| ArcTo (x y r start end_ : double)
| CurveTo (x y x1 y1 x2 y2 x3 y3 : double)
| Circle (x y r : double).

Section Calls.

Variable Fl_Graphics_Driver_curve :
  Driver -> double -> double -> double -> double ->
  double -> double -> double -> double -> Driver.

Definition run_call (st : Driver) (c : path_call) : Driver :=
  match c with
  | Vertex x y => vertex st x y
  | ArcTo x y r start end_ => arc st x y r start end_
  | CurveTo x y x1 y1 x2 y2 x3 y3 =>
      curve Fl_Graphics_Driver_curve st x y x1 y1 x2 y2 x3 y3
  | Circle x y r => circle st x y r
  end.

(** The calls of a list, in order. *)
Definition run_calls (st : Driver) (cs : list path_call) : Driver :=
  fold_left run_call cs st.

End Calls.

(** The calls of [vertex] on a list of points, in order. *)
Definition vertices (st : Driver) (vs : list (double * double)) : Driver :=
  fold_left (fun s v => vertex s (fst v) (snd v)) vs st.

(** A canvas call that adds a segment to the current path. *)
Definition segment (c : canvas_call) : Prop :=
  match c with
  | MoveTo _ _ | LineTo _ _ | Arc _ _ _ _ _ _ | BezierCurveTo _ _ _ _ _ _ => True
  | _ => False
  end.

(** The canvas calls every [begin_...] function makes. *)
Definition opening (st : Driver) : list canvas_call :=
  [Save;
   Transform (ma (m st)) (mb (m st)) (mc (m st)) (md (m st)) (mx (m st)) (my (m st));
   BeginPath].

(** The canvas calls of a polyline: a move to the first point, a line
    to each of the others. *)
Definition polyline (vs : list (double * double)) : list canvas_call :=
  match vs with
  | [] => []
  | v :: vs' => MoveTo (fst v) (snd v) :: map (fun p => LineTo (fst p) (snd p)) vs'
  end.

(** The canvas calls of [vertex] on one point while the shape is [POINTS]. *)
Definition dot (v : double * double) : list canvas_call :=
  [MoveTo (fst v) (snd v);
   Rect (PrimFloat.sub (fst v) 0.5) (PrimFloat.sub (snd v) 0.5) 1%float 1%float;
   Fill].


(** A canvas call that only touches the current path. *)
Definition path_only (c : canvas_call) : Prop := segment c \/ c = BeginPath.

(** The shape is one whose vertices are joined by lines. *)
Definition joined (s : SHAPE) : Prop := s = LINE \/ s = LOOP \/ s = POLYGON.

(** The canvas call of [circle] inside a shape. *)
Definition circle_arc (c : double * double * double) : canvas_call :=
  Arc (fst (fst c)) (snd (fst c)) (snd c) 0%float (PrimFloat.mul 2%float Math_PI) false.

(** The calls of [circle] on a list of circles, in order. *)
Definition circles (st : Driver) (cs : list (double * double * double)) : Driver :=
  fold_left (fun s c => circle s (fst (fst c)) (snd (fst c)) (snd c)) cs st.

End Vertices.

(** ** Keyboard events and sequences of events *)

(** More constants of [FL/Enumerations.H] and [emscripten/html5.h]. *)
Class KeyEvents : Set := {
  FL_KEYDOWN : Z; FL_KEYUP : Z;
  EMSCRIPTEN_EVENT_KEYPRESS : Z;
  EMSCRIPTEN_EVENT_KEYDOWN : Z;
  EMSCRIPTEN_EVENT_KEYUP : Z
}.

(** The values the two headers give the names (FLTK 1.4, Emscripten 3). *)
Definition fltk_key_events : KeyEvents := {|
  FL_KEYDOWN := 8; FL_KEYUP := 9;
  EMSCRIPTEN_EVENT_KEYPRESS := 1;
  EMSCRIPTEN_EVENT_KEYDOWN := 2;
  EMSCRIPTEN_EVENT_KEYUP := 3
|}.

Module Events.

Import Window.

Section WithEnumerations.

Context {E : Enumerations} {H5 : Html5} {K : KeyEvents}.

(** [match_key_event]. *)
Definition match_key_event (eventType : Z) : Z :=
  if eventType =? EMSCRIPTEN_EVENT_KEYPRESS then FL_KEYDOWN
  else if eventType =? EMSCRIPTEN_EVENT_KEYDOWN then FL_KEYDOWN
  else if eventType =? EMSCRIPTEN_EVENT_KEYUP then FL_KEYUP
  else 0.

(** [Fl::handle], a function of the toolkit core. *)
Variable Fl_handle : Z -> Fl -> Z * Fl.

(** [handle_key_ev]; the result is converted to [bool]. *)
Definition handle_key_ev (eventType : Z) (event : EmscriptenKeyboardEvent) (F : Fl)
  : bool * Fl :=
  let F := set_keysym_and_state event F in
  let flev := match_key_event eventType in
  let '(ret, F) := Fl_handle flev F in
  (negb (ret =? 0), F).

(** An event the browser delivers to a canvas: [makeWindow] registers
    [handle_key_ev] for the keyboard events and [handle_mouse_ev] for
    the mouse events. *)
Inductive browser_event : Set :=
| KeyboardEvent (eventType : Z) (event : EmscriptenKeyboardEvent)
| MouseEvent (eventType : Z) (event : EmscriptenMouseEvent).

(** The members of [Fl] after the handler of one event has returned. *)
Definition deliver (F : Fl) (e : browser_event) : Fl :=
  match e with
  | KeyboardEvent eventType event => snd (handle_key_ev eventType event F)
  | MouseEvent eventType event => snd (handle_mouse_ev Fl_handle eventType event F)
  end.

(** The members of [Fl] after the handlers of a list of events, in order. *)
Definition deliver_all (F : Fl) (es : list browser_event) : Fl :=
  fold_left deliver es F.

(** [Fl::handle] does not write [Fl::e_state]. *)
Definition keeps_state : Prop :=
  forall flev F, e_state (snd (Fl_handle flev F)) = e_state F.

End WithEnumerations.

Section Vocabulary.

Context {E : Enumerations}.

(** The three button flags are bits of an [int] above the mask
    [0xff0000], no two of them the same. *)
Definition button_flags : Prop :=
  one_bit 24 31 FL_BUTTON1 /\ one_bit 24 31 FL_BUTTON2 /\ one_bit 24 31 FL_BUTTON3 /\
  FL_BUTTON1 <> FL_BUTTON2 /\ FL_BUTTON1 <> FL_BUTTON3 /\ FL_BUTTON2 <> FL_BUTTON3.

End Vocabulary.


(** The event is a keyboard event that carries the modifier. *)
Definition pressed (modifier : EmscriptenKeyboardEvent -> bool) (e : browser_event)
  : Prop :=
  match e with
  | KeyboardEvent _ event => modifier event = true
  | MouseEvent _ _ => False
  end.

End Events.

(** ** Arrays with bounds *)

(** How code that reads and writes arrays through pointers ends: with a
    value, at a read past the end of an array, or at a write past the
    end of one. *)
Inductive outcome (A : Type) : Type :=
| Done (a : A)
| ReadPastEnd
| WritePastEnd.

Arguments Done {A} a.
Arguments ReadPastEnd {A}.
Arguments WritePastEnd {A}.

(** * The screen driver: [Fl_Emscripten_Screen_Driver.cxx] *)

Module Screen.

Import Window.

(** [(unsigned char)Fl::e_text[0]]: the first byte, or the terminator of
    an empty string. *)
Definition first_uchar (text : string) : Z :=
  match text with
  | EmptyString => 0
  | String c _ => Z.of_N (N_of_ascii c)
  end.

Section WithEnumerations.

Context {E : Enumerations}.

(** [compose], with [Fl::compose_state] passed in: the value returned,
    what the call leaves in [del], and [Fl::compose_state] after it. *)
Definition compose (F : Fl) (compose_state : Z) : Z * Z * Z :=
  let ascii := first_uchar (e_text F) in
  let condition :=
    negb (Z.land (e_state F) (Z.lor (Z.lor FL_ALT FL_META) FL_CTRL) =? 0)
    && (Z.land ascii 128 =? 0) in
  if condition then (0, 0, compose_state)
  else
    let del := compose_state in
    let compose_state := 0 in
    if (compose_state =? 0)
       && negb (negb (Z.land ascii (Z.lnot 31) =? 0) && negb (ascii =? 127))
    then (0, del, compose_state)
    else (1, del, compose_state).

(** One of Alt, Meta and Control is set in the state. *)
Definition command_key (state : Z) : Prop :=
  is_set state FL_ALT \/ is_set state FL_META \/ is_set state FL_CTRL.

End WithEnumerations.

(** The byte is neither a control character nor DEL. *)
Definition printable (ascii : Z) : Prop := 32 <= ascii /\ ascii <> 127.

(** The event is a keyboard event that carries Alt, Meta or Control. *)
Definition command_event (e : Events.browser_event) : Prop :=
  Events.pressed altKey e \/ Events.pressed metaKey e \/ Events.pressed ctrlKey e.

End Screen.

(** * The file chooser: [Fl_Emscripten_Native_File_Chooser.cxx] *)

Module FileChooser.

(** The characters [parse_filter] tells apart. *)
Definition NUL : ascii := "000"%char.
Definition TAB : ascii := "009"%char.
Definition NEWLINE : ascii := "010"%char.
Definition STAR : ascii := "*"%char.
Definition SPACE : ascii := " "%char.

(** [strlen] on the bytes from a pointer to the end of its array: the
    number of bytes before the first terminator. *)
Fixpoint c_strlen (mem : list ascii) : outcome Z :=
  match mem with
  | [] => ReadPastEnd
  | c :: mem' =>
      if Ascii.eqb c NUL then Done 0
      else match c_strlen mem' with
           | Done n => Done (n + 1)
           | ReadPastEnd => ReadPastEnd
           | WritePastEnd => WritePastEnd
           end
  end.

(** The array [parsed]: its characters before the terminator, and the
    size it was allocated with. *)
Record buffer : Set := mkBuffer { content : list ascii; capacity : Z }.

(** [strncat(parsed, p, 1)] where [*p] is the character [c], not a
    terminator, and [strcat(parsed, " ")] with [c] a space: the
    character goes over the terminator and a new terminator after it. *)
Definition strcat1 (parsed : buffer) (c : ascii) : outcome buffer :=
  if Z.of_nat (length (content parsed)) + 2 <=? capacity parsed
  then Done (mkBuffer (content parsed ++ [c]) (capacity parsed))
  else WritePastEnd.

(** The loop [while ( *p)] of [parse_filter], with [p] the bytes from the
    pointer to the end of its array; the loop inside it copies the
    characters after a star. *)
Fixpoint parse_loop (p : list ascii) (parsed : buffer) {struct p} : outcome buffer :=
  match p with
  | [] => ReadPastEnd
  | c :: p' =>
      if Ascii.eqb c NUL then Done parsed
      else if Ascii.eqb c STAR then
        (fix copy (q : list ascii) (parsed : buffer) {struct q} : outcome buffer :=
           match q with
           | [] => ReadPastEnd
           | d :: q' =>
               if negb (Ascii.eqb d TAB) && negb (Ascii.eqb d NEWLINE)
                  && negb (Ascii.eqb d NUL)
               then match strcat1 parsed d with
                    | Done parsed => copy q' parsed
                    | ReadPastEnd => ReadPastEnd
                    | WritePastEnd => WritePastEnd
                    end
               else match strcat1 parsed SPACE with
                    | Done parsed => parse_loop q' parsed
                    | ReadPastEnd => ReadPastEnd
                    | WritePastEnd => WritePastEnd
                    end
           end) p' parsed
      else parse_loop p' parsed
  end.

(** The inner loop of [parse_filter] on its own, followed by the rest of
    the outer loop. *)
Fixpoint copy (q : list ascii) (parsed : buffer) {struct q} : outcome buffer :=
  match q with
  | [] => ReadPastEnd
  | d :: q' =>
      if negb (Ascii.eqb d TAB) && negb (Ascii.eqb d NEWLINE)
         && negb (Ascii.eqb d NUL)
      then match strcat1 parsed d with
           | Done parsed => copy q' parsed
           | ReadPastEnd => ReadPastEnd
           | WritePastEnd => WritePastEnd
           end
      else match strcat1 parsed SPACE with
           | Done parsed => parse_loop q' parsed
           | ReadPastEnd => ReadPastEnd
           | WritePastEnd => WritePastEnd
           end
  end.

(** The end of [parse_filter]: a trailing space is cut off. *)
Definition remove_trailing_space (parsed : list ascii) : list ascii :=
  if (0 <? Z.of_nat (length parsed)) && Ascii.eqb (List.last parsed NUL) SPACE
  then removelast parsed
  else parsed.

(** Conversion to [size_t], 32 bits wide on this target. *)
Definition to_size_t (z : Z) : Z := z mod 2 ^ 32.

(** [parse_filter], on the bytes from [f] to the end of its array. *)
Definition parse_filter (f : list ascii) : outcome (list ascii) :=
  match c_strlen f with
  | Done n =>
      let size := to_size_t (n * 2) in
      if size <? 1 then WritePastEnd
      else match parse_loop f (mkBuffer [] size) with
           | Done parsed => Done (remove_trailing_space (content parsed))
           | ReadPastEnd => ReadPastEnd
           | WritePastEnd => WritePastEnd
           end
  | ReadPastEnd => ReadPastEnd
  | WritePastEnd => WritePastEnd
  end.

(** [filename(int i)] on the vector [files]; [None] is [NULL].  The
    comparison converts [i] to [size_t], as does the subscript. *)
Definition filename (files : list string) (i : Z) : option string :=
  if Z.of_nat (length files) >? to_size_t i
  then files !! Z.to_nat (to_size_t i)
  else None.

(** [count]. *)
Definition count (files : list string) : Z := Int.wrap (Z.of_nat (length files)).





(** A label holds no star, a pattern no tab and no newline, and neither
    holds a terminator. *)
Definition plain (c : ascii) : Prop := c <> STAR /\ c <> NUL.
Definition in_pattern (c : ascii) : Prop := c <> TAB /\ c <> NEWLINE /\ c <> NUL.




End FileChooser.

(** ** The selection buffers of the screen driver *)

Module Clipboard.

(** Sequencing of steps that may run past the end of an array. *)
Definition bind {A B : Type} (m : outcome A) (k : A -> outcome B) : outcome B :=
  match m with
  | Done a => k a
  | ReadPastEnd => ReadPastEnd
  | WritePastEnd => WritePastEnd
  end.

Notation "'let*' x ':=' m 'in' k" := (bind m (fun x => k))
  (at level 10, x name, m at level 100, k at level 200).

(** [a[i]], read. *)
Definition index {A : Type} (a : list A) (i : Z) : outcome A :=
  if i <? 0 then ReadPastEnd
  else match a !! Z.to_nat i with
       | Some v => Done v
       | None => ReadPastEnd
       end.

(** [a[i] = v]. *)
Definition assign {A : Type} (a : list A) (i : Z) (v : A) : outcome (list A) :=
  if (0 <=? i) && (i <? Z.of_nat (length a)) then Done (<[Z.to_nat i := v]> a)
  else WritePastEnd.

(** [p[i] = v] through a pointer [p] that may be null; a null pointer
    has no byte to write. *)
Definition store (p : option (list Z)) (i : Z) (v : Z) : outcome (list Z) :=
  match p with
  | None => WritePastEnd
  | Some a => assign a i v
  end.

(** [memcpy(dest, src, n)]. *)
Definition memcpy (dest : option (list Z)) (src : list Z) (n : Z) : outcome (list Z) :=
  match dest with
  | None => WritePastEnd
  | Some a =>
      if n >? Z.of_nat (length src) then ReadPastEnd
      else if n >? Z.of_nat (length a) then WritePastEnd
      else Done (take (Z.to_nat n) src ++ drop (Z.to_nat n) a)
  end.

(** The static arrays of [Fl_Emscripten_Screen_Driver.cxx], of two
    elements each, and the strings handed to
    [navigator.clipboard.writeText], the latest last.  A buffer is
    [None] while its pointer is null, and else the bytes of the array
    the pointer was allocated with; a type is [None] while null. *)
Record Selection : Type := mkSelection {
  fl_selection_buffer : list (option (list Z));
  fl_selection_length : list Z;
  fl_selection_type : list (option string);
  fl_selection_buffer_length : list Z;
  fl_i_own_selection : list Z;
  writeText : list (list Z)
}.

(** The arrays as the program starts. *)
Definition initial : Selection :=
  mkSelection [None; None] [0; 0] [None; None] [0; 0] [0; 0] [].

(** The bytes before the first terminator: what [UTF8ToString] reads. *)
Fixpoint c_str (a : list Z) : list Z :=
  match a with
  | [] => []
  | c :: a' => if c =? 0 then [] else c :: c_str a'
  end.

Section WithConstants.

(** [Fl::clipboard_plain_text] and [Fl::clipboard_image], of the
    toolkit core. *)
Variable clipboard_plain_text clipboard_image : string.

(** [copy], with [stuff] the bytes from the pointer to the end of its
    array, [None] for a null pointer, and [fresh] what
    [new char[len + 100]] holds on allocation. *)
Definition copy (s : Selection) (stuff : option (list Z)) (len clipboard : Z)
           (fresh : list Z) : outcome Selection :=
  match stuff with
  | None => Done s
  | Some stuff =>
      if len <? 0 then Done s
      else
        let clipboard := if clipboard >=? 2 then 1 else clipboard in
        let* buffer_length := index (fl_selection_buffer_length s) clipboard in
        let* s :=
          (if Int.add len 1 >? buffer_length then
             let* buffers := assign (fl_selection_buffer s) clipboard (Some fresh) in
             let* lengths := assign (fl_selection_buffer_length s) clipboard
                                    (Int.add len 100) in
             Done (mkSelection buffers (fl_selection_length s) (fl_selection_type s)
                               lengths (fl_i_own_selection s) (writeText s))
           else Done s) in
        let* pointer := index (fl_selection_buffer s) clipboard in
        let* buffer := memcpy pointer stuff len in
        let* buffer := assign buffer len 0 in
        let* buffers := assign (fl_selection_buffer s) clipboard (Some buffer) in
        let* lengths := assign (fl_selection_length s) clipboard len in
        let* owned := assign (fl_i_own_selection s) clipboard 1 in
        let* types := assign (fl_selection_type s) clipboard (Some clipboard_plain_text) in
        if clipboard =? 1 then
          let* pointer := index buffers 1 in
          Done (mkSelection buffers lengths types (fl_selection_buffer_length s) owned
                            (writeText s ++ [c_str (default [] pointer)]))
        else
          Done (mkSelection buffers lengths types (fl_selection_buffer_length s) owned
                            (writeText s))
  end.

(** What the receiver finds in [Fl] when [paste] calls its [handle]
    with [FL_PASTE]: the text and its length under
    [Fl::clipboard_plain_text], or the image under [Fl::clipboard_image]. *)
Inductive pasted : Type :=
| PastedText (e_text : list Z) (e_length : Z)
| PastedImage (e_clipboard_data : Image.Fl_RGB_Image).

(** [paste], with [clipText] the text [readText] gives and [width],
    [height] and [vec] what the image of the clipboard gives; the
    second component is [None] when the receiver is not called. *)
Definition paste (s : Selection) (clipboard : Z) (type : string) (clipText : list Z)
           (width height : Z) (vec : list Z) : outcome (Selection * option pasted) :=
  let type := if Window.first_char type =? 0 then clipboard_plain_text else type in
  if negb (clipboard =? 0) then
    if String.eqb type clipboard_plain_text then
      let len := Z.of_nat (length clipText) in
      let* pointer := index (fl_selection_buffer s) clipboard in
      let* buffer := store pointer (FileChooser.to_size_t (len - 1)) 0 in
      let* buffers := assign (fl_selection_buffer s) clipboard (Some buffer) in
      let* lengths := assign (fl_selection_length s) 1 (Int.wrap len) in
      Done (mkSelection buffers lengths (fl_selection_type s)
                        (fl_selection_buffer_length s) (fl_i_own_selection s)
                        (writeText s),
            Some (PastedText clipText (Int.wrap len)))
    else if String.eqb type clipboard_image then
      Done (s, Some (PastedImage (Image.mkImage 4 width height (Some vec))))
    else
      let* lengths := assign (fl_selection_length s) 1 0 in
      Done (mkSelection (fl_selection_buffer s) lengths (fl_selection_type s)
                        (fl_selection_buffer_length s) (fl_i_own_selection s)
                        (writeText s),
            None)
  else Done (s, None).

End WithConstants.

(** The size a buffer was allocated with, 0 for a null pointer. *)
Definition allocated (p : option (list Z)) : Z :=
  match p with
  | None => 0
  | Some a => Z.of_nat (length a)
  end.

(** Each array has its two elements, and each buffer the size recorded
    for it, an [int]. *)
Definition consistent (s : Selection) : Prop :=
  length (fl_selection_buffer s) = 2%nat /\
  length (fl_selection_length s) = 2%nat /\
  length (fl_selection_type s) = 2%nat /\
  length (fl_selection_buffer_length s) = 2%nat /\
  length (fl_i_own_selection s) = 2%nat /\
  map allocated (fl_selection_buffer s) = fl_selection_buffer_length s /\
  Forall Int.in_range (fl_selection_buffer_length s).

End Clipboard.

(** ** Images given by their bytes *)

Module Pixels.

Import Image.

(** [struct callback_data].  The pointer [data] is the index [cb_data]
    into the array [cb_array] it points into. *)
Record callback_data : Set := mkCallbackData {
  cb_array : list Z; cb_data : Z; cb_D : Z; cb_LD : Z
}.

(** The body of the loop of [draw_image_cb]: [memcpy(buf, curdata, aD)],
    then both pointers move on.  The state is the index of [buf] in the
    buffer the callback was given, the index [curdata] and that buffer. *)
Definition copy_pixel (cb : callback_data) (aD : Z) (x : Z) (s : Z * Z * list Z)
  : option (Z * Z * list Z) :=
  let '(buf, curdata, buffer) := s in
  if (0 <=? curdata) && (curdata + aD <=? Z.of_nat (length (cb_array cb)))
     && (buf + aD <=? Z.of_nat (length buffer))
  then Some (buf + aD, curdata + cb_D cb,
             take (Z.to_nat buf) buffer ++ slice (cb_array cb) curdata aD
               ++ drop (Z.to_nat (buf + aD)) buffer)
  else None.

(** [draw_image_cb]: what the bytes from [buf] on hold when it returns,
    or [None] when a [memcpy] leaves one of the two arrays. *)
Definition draw_image_cb (cb : callback_data) (x y w : Z) (buffer : list Z)
  : option (list Z) :=
  let last := Int.add x w in
  let aD := FileChooser.to_size_t (Int.abs (cb_D cb)) in
  let curdata := cb_data cb + Int.add (Int.mul x (cb_D cb)) (Int.mul y (cb_LD cb)) in
  match for_loop (Z.to_nat w) x last 1 (copy_pixel cb aD) (0, curdata, buffer) with
  | Some (_, _, buffer) => Some buffer
  | None => None
  end.

(** [draw_image_cb] with its [data] argument, as the [Fl_Draw_Image_Cb]
    handed to [draw_image]; a call that leaves an array has no defined
    result, and the buffer stands for it. *)
Definition callback (cb : callback_data) : Fl_Draw_Image_Cb :=
  fun x y w buffer => default buffer (draw_image_cb cb x y w buffer).

Section WithBaseClass.

Variable draw_rgb :
  Driver -> Fl_RGB_Image -> Z -> Z -> Z -> Z -> Z -> Z -> Driver.

(** [draw_image_mono(const uchar *data, ...)], with [data] the index
    [data] into [array]. *)
Definition draw_image_mono (st : Driver) (array : list Z) (data : Z)
           (ix iy iw ih D LD : Z) (fresh : list Z) : option Driver :=
  let aD := FileChooser.to_size_t (Int.abs D) in
  let LD := if LD =? 0 then Int.wrap (FileChooser.to_size_t (FileChooser.to_size_t iw * aD))
            else LD in
  let data := if D <? 0 then data + FileChooser.to_size_t (FileChooser.to_size_t iw * aD)
              else data in
  let cb := mkCallbackData array data D LD in
  draw_image draw_rgb st (callback cb) ix iy iw ih (Int.abs D) fresh.

(** [draw_image(const uchar *data, ...)]. *)
Definition draw_image_data (st : Driver) (array : list Z) (data : Z)
           (ix iy iw ih D LD : Z) (fresh : list Z) : option Driver :=
  if Int.abs D <? 3 then draw_image_mono st array data ix iy iw ih D LD fresh
  else
    let LD := if LD =? 0 then Int.mul iw (Int.abs D) else LD in
    let data := if D <? 0 then data + Int.mul iw (Int.abs D) else data in
    let cb := mkCallbackData array data D LD in
    draw_image draw_rgb st (callback cb) ix iy iw ih (Int.abs D) fresh.

End WithBaseClass.

(** The index in [array] of the first byte read for pixel [i] of line
    [l]: the line step when [LD] is 0 is one line of pixels, and a
    negative [D] moves the start by one line. *)
Definition source (data iw D LD l i : Z) : Z :=
  let aD := Z.abs D in
  let LD := if LD =? 0 then iw * aD else LD in
  let data := if D <? 0 then data + iw * aD else data in
  data + l * LD + i * D.

(** Sizes and steps for which no index computation overflows, and an
    array that holds every byte read. *)
Definition readable (array : list Z) (data iw ih D LD : Z) : Prop :=
  D <> 0 /\ fits iw ih (Z.abs D) /\ Z.abs LD * (ih + 1) < 2 ^ 30 /\
  forall l i, 0 <= l < ih -> 0 <= i < iw ->
    0 <= source data iw D LD l i /\
    source data iw D LD l i + Z.abs D <= Z.of_nat (length array).

(** The byte [k] of pixel [i] of line [l] in an array of lines of [iw]
    pixels of [aD] bytes. *)
Definition pixel_byte (a : list Z) (iw aD l i k : Z) : option Z :=
  read a ((l * iw + i) * aD + k).

(** What a line of the array holds once [draw_image] has dealt with it:
    the bytes of the pixels read from [cb], the last byte of each set
    to [0xff] for an even step. *)
Definition line_done (cb : callback_data) (iw l : Z) (a : list Z) : Prop :=
  let aD := Z.abs (cb_D cb) in
  forall i k, 0 <= i < iw -> 0 <= k < aD ->
    a !! Z.to_nat ((l * iw + i) * aD + k) =
      if Z.even aD && (k =? aD - 1) then Some 255
      else cb_array cb !! Z.to_nat (cb_data cb + l * cb_LD cb + i * cb_D cb + k).

(** The callback can read the line. *)
Definition line_readable (cb : callback_data) (iw l : Z) : Prop :=
  Int.in_range (l * cb_LD cb) /\
  forall i, 0 <= i < iw ->
    0 <= cb_data cb + l * cb_LD cb + i * cb_D cb /\
    cb_data cb + l * cb_LD cb + i * cb_D cb + Z.abs (cb_D cb)
      <= Z.of_nat (length (cb_array cb)).

(** The [callback_data] that [draw_image] and [draw_image_mono] build
    when no computation overflows. *)
Definition callback_data_of (array : list Z) (data iw D LD : Z) : callback_data :=
  mkCallbackData array
                 (if D <? 0 then data + iw * Z.abs D else data)
                 D
                 (if LD =? 0 then iw * Z.abs D else LD).

End Pixels.

(** ** Bitmaps *)

Module Bitmap.

(** What the driver reads of an [Fl_Bitmap]: [data_w()], [data_h()] and
    [array]. *)
Record Fl_Bitmap : Set := mkBitmap {
  data_w : Z; data_h : Z; array : list Z
}.

(** The four stores through [r]. *)
Definition store_pixel (R G B : Z) (r : Z) (data : list Z) : option (list Z) :=
  match Image.write data r R with
  | Some data =>
      match Image.write data (r + 1) G with
      | Some data =>
          match Image.write data (r + 2) B with
          | Some data => Image.write data (r + 3) 255
          | None => None
          end
      | None => None
      end
  | None => None
  end.

(** The body of the loop on [k] of [draw_fixed]; the state is [q] and
    the array of the image. *)
Definition set_pixel (R G B : Z) (bm : Fl_Bitmap) (j i : Z) (k : Z) (s : Z * list Z)
  : option (Z * list Z) :=
  let '(q, data) := s in
  let stored :=
    if negb (Z.land q 1 =? 0) then
      store_pixel R G B
        (Int.mul (Int.mul j (data_w bm)) 4 + Int.mul (Int.mul i 8) 4 + Int.mul k 4)
        data
    else Some data in
  match stored with
  | Some data => Some (Z.shiftr q 1 mod 256, data)
  | None => None
  end.

(** The body of the loop on [i]; the state is the index [p] into the
    array of the bitmap and the array of the image. *)
Definition convert_byte (R G B : Z) (bm : Fl_Bitmap) (j : Z) (i : Z) (s : Z * list Z)
  : option (Z * list Z) :=
  let '(p, data) := s in
  match Image.read (array bm) p with
  | None => None
  | Some q =>
      let last := Int.sub (data_w bm) (Int.mul 8 i) in
      let last := if last >? 8 then 8 else last in
      match for_loop (Z.to_nat last) 0 last 1 (set_pixel R G B bm j i) (q, data) with
      | Some (_, data) => Some (p + 1, data)
      | None => None
      end
  end.

(** The body of the loop on [j]. *)
Definition convert_row (R G B : Z) (bm : Fl_Bitmap) (rowBytes : Z) (j : Z) (data : list Z)
  : option (list Z) :=
  let p := Int.mul j rowBytes in
  match for_loop (Z.to_nat rowBytes) 0 rowBytes 1 (convert_byte R G B bm j) (p, data) with
  | Some (_, data) => Some data
  | None => None
  end.

(** The array of the image [draw_fixed] builds from a bitmap, with [R],
    [G] and [B] what [Fl::get_color] gives for the current colour. *)
Definition bitmap_data (R G B : Z) (bm : Fl_Bitmap) : option (list Z) :=
  let size := Int.mul (Int.mul (data_w bm) (data_h bm)) 4 in
  let data := repeat 0 (Z.to_nat size) in
  let rowBytes := Z.shiftr (Int.add (data_w bm) 7) 3 in
  for_loop (Z.to_nat (data_h bm)) 0 (data_h bm) 1 (convert_row R G B bm rowBytes) data.

Section WithBaseClass.

Variable draw_rgb :
  Driver -> Image.Fl_RGB_Image -> Z -> Z -> Z -> Z -> Z -> Z -> Driver.

(** [draw_fixed(Fl_Bitmap *bm, ...)]. *)
Definition draw_fixed (st : Driver) (bm : Fl_Bitmap) (R G B : Z)
           (XP YP WP HP cx cy : Z) : option Driver :=
  match bitmap_data R G B bm with
  | Some data =>
      Some (draw_rgb st (Image.mkImage 4 (data_w bm) (data_h bm) (Some data))
                     XP YP WP HP cx cy)
  | None => None
  end.

End WithBaseClass.

(** The bit of the bitmap for the pixel in column [col] of line [row]. *)
Definition bit (bm : Fl_Bitmap) (row col : Z) : bool :=
  match array bm !! Z.to_nat (row * ((data_w bm + 7) / 8) + col / 8) with
  | Some q => Z.testbit q (col mod 8)
  | None => false
  end.

(** The four bytes of a pixel: the colour, opaque, or nothing at all. *)
Definition rgba (R G B : Z) (set : bool) : list Z :=
  if set then [R; G; B; 255] else [0; 0; 0; 0].

(** A bitmap whose array holds its lines of bytes, of a size for which
    no index computation overflows. *)
Definition well_sized (bm : Fl_Bitmap) : Prop :=
  0 <= data_w bm /\ 0 <= data_h bm /\
  (data_w bm + 8) * (data_h bm + 1) * 4 < 2 ^ 30 /\
  data_h bm * ((data_w bm + 7) / 8) <= Z.of_nat (length (array bm)) /\
  Forall (fun q => 0 <= q < 256) (array bm).

(** The state of the image while line [j] is converted up to column
    [c0]: the pixels dealt with hold their colour, the others nothing. *)
Definition converted (R G B : Z) (bm : Fl_Bitmap) (j c0 : Z) (data : list Z) : Prop :=
  Z.of_nat (length data) = data_w bm * data_h bm * 4 /\
  forall row col c, 0 <= row < data_h bm -> 0 <= col < data_w bm -> 0 <= c < 4 ->
    data !! Z.to_nat ((row * data_w bm + col) * 4 + c) =
      if (row <? j) || ((row =? j) && (col <? c0))
      then rgba R G B (bit bm row col) !! Z.to_nat c
      else Some 0.

End Bitmap.

(** * Properties *)

(** ** Arithmetic that stays in range *)

Lemma wrap_in_range z : Int.in_range z -> Int.wrap z = z.
Proof.
  unfold Int.in_range, Int.min_signed, Int.max_signed, Int.wrap. intros Hz.
  rewrite Z.mod_small; lia.
Qed.

Lemma add_small a b : Int.small a -> Int.small b -> Int.add a b = a + b.
Proof.
  unfold Int.small, Int.add. intros Ha Hb. apply wrap_in_range.
  unfold Int.in_range, Int.min_signed, Int.max_signed. lia.
Qed.

Lemma sub_in_range a b : Int.in_range (a - b) -> Int.sub a b = a - b.
Proof. apply wrap_in_range. Qed.

Lemma add_in_range a b : Int.in_range (a + b) -> Int.add a b = a + b.
Proof. apply wrap_in_range. Qed.

Lemma mul_in_range a b : Int.in_range (a * b) -> Int.mul a b = a * b.
Proof. apply wrap_in_range. Qed.

(** Closes a range side condition by linear arithmetic. *)
Ltac in_range :=
  unfold Int.in_range, Int.min_signed, Int.max_signed, Int.small in *; lia.

(** ** Clipping *)

Module ClipFacts.

Import Clip.

(** On coordinates that are small, [clip_box] computes on plain
    integers: the result in terms of the two overlaps. *)
Lemma clip_box_small top prev x y w h out :
  0 <= cw top -> small_rect x y w h -> small_clip top ->
  clip_box (top :: prev) x y w h out =
    let X := Z.max x (cx top) in
    let Y := Z.max y (cy top) in
    let W := overlap_w top x w in
    let H := overlap_h top y h in
    let ret :=
      if (x >? cx top) || (y >? cy top) || (x + w <? cx top + cw top)
         || (y + h <? cy top + ch top) then 1 else 0 in
    if W <? 0 then (1, mkBox X Y 0 (bH out))
    else if H <? 0 then (1, mkBox X Y 0 0)
    else (ret, mkBox X Y W H).
Proof.
  intros Hcw (Hx & Hy & Hw & Hh) (Hcx & Hcy & Hcw' & Hch).
  unfold clip_box, overlap_w, overlap_h, overlap.
  destruct (Z.ltb_spec (cw top) 0) as [?|_]; [lia|].
  rewrite !(add_small x w), !(add_small y h),
          !(add_small (cx top) (cw top)), !(add_small (cy top) (ch top)) by assumption.
  cbv zeta.
  destruct (Z.gtb_spec x (cx top)), (Z.gtb_spec y (cy top)),
           (Z.ltb_spec (x + w) (cx top + cw top)),
           (Z.ltb_spec (y + h) (cy top + ch top));
    cbn [orb];
    rewrite ?sub_in_range by in_range;
    rewrite ?Z.max_l, ?Z.max_r, ?Z.min_l, ?Z.min_r by lia;
    repeat match goal with
           | |- context [?a <? 0] => destruct (Z.ltb_spec a 0)
           end;
    rewrite ?sub_in_range by in_range;
    rewrite ?Z.max_l, ?Z.max_r, ?Z.min_l, ?Z.min_r by lia;
    try reflexivity; try lia.
Qed.

(** C1 (amended).  With no clip entry [clip_box] returns 0 and copies
    the rectangle to its outputs; on an entry of negative width it
    returns 1 and copies the rectangle.  Otherwise [X] and [Y] are the
    larger left and top edges; when the horizontal overlap is negative,
    [W] is 0 and the result is 1; when only the vertical overlap is
    negative, [W] and [H] are 0 and the result is 1; and when neither is,
    [W] and [H] are the two overlaps and the result is nonzero exactly
    when the outputs differ from the clip entry. *)
Theorem clip_box_spec (emclip : list EmClip) (x y w h : Z) (out : box) :
  (emclip = [] -> clip_box emclip x y w h out = (0, mkBox x y w h)) /\
  (forall top prev, emclip = top :: prev -> cw top < 0 ->
     clip_box emclip x y w h out = (1, mkBox x y w h)) /\
  (forall top prev, emclip = top :: prev -> 0 <= cw top ->
     small_rect x y w h -> small_clip top ->
     let (ret, b) := clip_box emclip x y w h out in
     bX b = Z.max x (cx top) /\ bY b = Z.max y (cy top) /\
     (overlap_w top x w < 0 -> ret = 1 /\ bW b = 0) /\
     (0 <= overlap_w top x w -> overlap_h top y h < 0 ->
        ret = 1 /\ bW b = 0 /\ bH b = 0) /\
     (0 <= overlap_w top x w -> 0 <= overlap_h top y h ->
        bW b = overlap_w top x w /\ bH b = overlap_h top y h /\
        (ret <> 0 <-> b <> mkBox (cx top) (cy top) (cw top) (ch top)))).
Proof.
  split; [|split].
  - intros ->. reflexivity.
  - intros top prev -> Hneg. unfold clip_box.
    destruct (Z.ltb_spec (cw top) 0); [reflexivity | lia].
  - intros top prev -> Hcw Hr Hc.
    rewrite clip_box_small by assumption. cbv zeta.
    destruct (Z.ltb_spec (overlap_w top x w) 0) as [Hw|Hw];
      [| destruct (Z.ltb_spec (overlap_h top y h) 0) as [Hh|Hh]]; cbn [bX bY bW bH].
    + repeat split; intros; lia.
    + repeat split; intros; lia.
    + split; [reflexivity|]. split; [reflexivity|].
      split; [intros; lia|]. split; [intros; lia|].
      intros _ _. split; [reflexivity|]. split; [reflexivity|].
      unfold overlap_w, overlap_h, overlap in *.
      destruct (Z.gtb_spec x (cx top)), (Z.gtb_spec y (cy top)),
               (Z.ltb_spec (x + w) (cx top + cw top)),
               (Z.ltb_spec (y + h) (cy top + ch top)); cbn [orb];
        (split;
         [ intros Hret Heq; try lia; injection Heq; lia
         | intros Hne; try lia; exfalso; apply Hne; f_equal; lia ]).
Qed.

(** The amended claim C1 at a rectangle inside a clip entry. *)
Lemma clip_box_spec_witness :
  small_rect 10 10 20 20 /\ small_clip (mkEmClip 0 0 100 100) /\
  let (ret, b) := clip_box [mkEmClip 0 0 100 100] 10 10 20 20 (mkBox 0 0 0 0) in
  bX b = 10 /\ bY b = 10 /\ bW b = 20 /\ bH b = 20 /\ ret <> 0.
Proof.
  assert (Hr : small_rect 10 10 20 20) by (unfold small_rect, Int.small; lia).
  assert (Hc : small_clip (mkEmClip 0 0 100 100))
    by (unfold small_clip, small_rect, Int.small; cbn; lia).
  split; [exact Hr|]. split; [exact Hc|].
  pose proof (clip_box_spec [mkEmClip 0 0 100 100] 10 10 20 20 (mkBox 0 0 0 0))
    as (_ & _ & H3).
  specialize (H3 (mkEmClip 0 0 100 100) [] eq_refl ltac:(cbn; lia) Hr Hc).
  destruct (clip_box [mkEmClip 0 0 100 100] 10 10 20 20 (mkBox 0 0 0 0)) as [ret b].
  destruct H3 as (HX & HY & _ & _ & H5).
  destruct H5 as (HW & HH & Hret); [vm_compute; discriminate ..|].
  repeat split; try assumption.
  apply Hret. destruct b as [bx ? ? ?]. cbn in HX. intros Heq.
  injection Heq as Hbx _ _ _. rewrite Hbx in HX. vm_compute in HX. discriminate.
Defined.

(** C1 as stated fails: a rectangle that lies inside the clip entry is
    returned unchanged, and the result is nonzero all the same; and a
    rectangle that covers the clip entry is cut down to it, and the
    result is 0. *)
Lemma clip_box_return_counterexample :
  (fst (clip_box [mkEmClip 0 0 100 100] 10 10 20 20 (mkBox 0 0 0 0)) <> 0 /\
   snd (clip_box [mkEmClip 0 0 100 100] 10 10 20 20 (mkBox 0 0 0 0))
     = mkBox 10 10 20 20 /\
   intersection (mkEmClip 0 0 100 100) 10 10 20 20 = mkBox 10 10 20 20) /\
  (fst (clip_box [mkEmClip 10 10 20 20] 0 0 100 100 (mkBox 0 0 0 0)) = 0 /\
   snd (clip_box [mkEmClip 10 10 20 20] 0 0 100 100 (mkBox 0 0 0 0))
     = mkBox 10 10 20 20 /\
   intersection (mkEmClip 10 10 20 20) 0 0 100 100 = mkBox 10 10 20 20 /\
   mkBox 10 10 20 20 <> mkBox 0 0 100 100).
Proof. vm_compute. repeat split; discriminate. Qed.

Lemma pop_push_clip st x y w h :
  exists c, pop_clip (push_clip st x y w h) =
            em_asm st [Save;
                       Rect (PrimFloat.sub (double_of_int (cx c)) 0.5)
                            (PrimFloat.sub (double_of_int (cy c)) 0.5)
                            (double_of_int (cw c)) (double_of_int (ch c));
                       Clip; Restore] /\
            emclip_ (push_clip st x y w h) = c :: emclip_ st.
Proof.
  unfold push_clip.
  destruct (clip_box (emclip_ st) x y w h _) as [ret b].
  exists (mkEmClip (bX b) (bY b) (bW b) (bH b)).
  destruct st. unfold pop_clip, em_asm, set_emclip. cbn.
  now rewrite <- app_assoc.
Qed.

Lemma pop_push_no_clip st :
  pop_clip (push_no_clip st) = em_asm st [Save; Restore; Restore] /\
  emclip_ (push_no_clip st) = mkEmClip (-1) (-1) (-1) (-1) :: emclip_ st.
Proof.
  destruct st. unfold push_no_clip, pop_clip, em_asm, set_emclip. cbn.
  now rewrite <- app_assoc.
Qed.



(** X1.  The canvas calls of a push followed at once by [pop_clip]:
    after [push_clip] a save, the rectangle of the new entry, a clip
    and a restore; after [push_no_clip] a save and two restores.  The
    rest of the driver is as before the push. *)
Theorem pop_after_push_canvas_calls (st : Driver) (x y w h : Z) :
  (exists c,
     emclip_ (push_clip st x y w h) = c :: emclip_ st /\
     pop_clip (push_clip st x y w h) =
       em_asm st [Save;
                  Rect (PrimFloat.sub (double_of_int (cx c)) 0.5)
                       (PrimFloat.sub (double_of_int (cy c)) 0.5)
                       (double_of_int (cw c)) (double_of_int (ch c));
                  Clip; Restore]) /\
  pop_clip (push_no_clip st) = em_asm st [Save; Restore; Restore].
Proof.
  split.
  - destruct (pop_push_clip st x y w h) as (c & Hpop & Hpush).
    exists c. split; assumption.
  - apply pop_push_no_clip.
Qed.

(** [not_clipped] on small coordinates, in terms of the two overlaps. *)
Lemma not_clipped_small top prev x y w h :
  0 <= cw top -> small_rect x y w h -> small_clip top ->
  not_clipped (top :: prev) x y w h =
    if (0 <? overlap_w top x w) && (0 <=? overlap_h top y h) then 1 else 0.
Proof.
  intros Hcw Hr Hc. unfold not_clipped.
  destruct (Z.ltb_spec (cw top) 0) as [?|_]; [lia|].
  rewrite clip_box_small by assumption. cbv zeta.
  destruct (Z.ltb_spec (overlap_w top x w) 0),
           (Z.ltb_spec (overlap_h top y h) 0),
           (Z.ltb_spec 0 (overlap_w top x w)),
           (Z.leb_spec 0 (overlap_h top y h)); cbn; try lia; try reflexivity.
  - destruct (Z.eqb_spec (overlap_w top x w) 0); [lia | reflexivity].
  - destruct (Z.eqb_spec (overlap_w top x w) 0); [reflexivity | lia].
Qed.

(** C3 (amended).  [not_clipped] returns 1 when the clip stack is empty
    or its top entry has negative width.  Otherwise it returns 1 exactly
    when the horizontal overlap of the rectangle with the top entry is
    positive and the vertical overlap is not negative, and 0 in every
    other case. *)
Theorem not_clipped_spec (emclip : list EmClip) (x y w h : Z) :
  (emclip = [] -> not_clipped emclip x y w h = 1) /\
  (forall top prev, emclip = top :: prev -> cw top < 0 ->
     not_clipped emclip x y w h = 1) /\
  (forall top prev, emclip = top :: prev -> 0 <= cw top ->
     small_rect x y w h -> small_clip top ->
     (not_clipped emclip x y w h = 1 <->
        0 < overlap_w top x w /\ 0 <= overlap_h top y h) /\
     (not_clipped emclip x y w h = 0 <->
        overlap_w top x w <= 0 \/ overlap_h top y h < 0)).
Proof.
  split; [|split].
  - intros ->. reflexivity.
  - intros top prev -> Hneg. unfold not_clipped.
    destruct (Z.ltb_spec (cw top) 0); [reflexivity | lia].
  - intros top prev -> Hcw Hr Hc.
    rewrite not_clipped_small by assumption.
    destruct (Z.ltb_spec 0 (overlap_w top x w)),
             (Z.leb_spec 0 (overlap_h top y h)); cbn; lia.
Qed.

(** The amended claim C3 at a rectangle that touches the lower edge of
    the clip entry, and at one that lies below it. *)
Lemma not_clipped_spec_witness :
  small_rect 0 10 5 5 /\ small_rect 0 11 5 5 /\
  small_clip (mkEmClip 0 0 10 10) /\
  not_clipped [mkEmClip 0 0 10 10] 0 10 5 5 = 1 /\
  not_clipped [mkEmClip 0 0 10 10] 0 11 5 5 = 0.
Proof.
  assert (Hr : small_rect 0 10 5 5) by (unfold small_rect, Int.small; lia).
  assert (Hr' : small_rect 0 11 5 5) by (unfold small_rect, Int.small; lia).
  assert (Hc : small_clip (mkEmClip 0 0 10 10))
    by (unfold small_clip, small_rect, Int.small; cbn; lia).
  split; [exact Hr|]. split; [exact Hr'|]. split; [exact Hc|]. split.
  - pose proof (not_clipped_spec [mkEmClip 0 0 10 10] 0 10 5 5) as (_ & _ & H3).
    apply (H3 (mkEmClip 0 0 10 10) [] eq_refl ltac:(cbn; lia) Hr Hc).
    vm_compute. split; [reflexivity | discriminate].
  - pose proof (not_clipped_spec [mkEmClip 0 0 10 10] 0 11 5 5) as (_ & _ & H3).
    apply (H3 (mkEmClip 0 0 10 10) [] eq_refl ltac:(cbn; lia) Hr' Hc).
    right. vm_compute. reflexivity.
Defined.

(** C3 as stated fails: a rectangle that only touches the lower edge of
    the clip entry has an empty intersection with it, and [not_clipped]
    returns 1. *)
Lemma not_clipped_counterexample :
  not_clipped [mkEmClip 0 0 10 10] 0 10 5 5 = 1 /\
  overlap_h (mkEmClip 0 0 10 10) 10 5 = 0 /\
  ~ meets (mkEmClip 0 0 10 10) 0 10 5 5.
Proof.
  split; [reflexivity|]. split; [reflexivity|].
  unfold meets. vm_compute. intros [_ Hh]. discriminate Hh.
Qed.

End ClipFacts.

(** ** The path state machine *)

Module PathFacts.

Import Path.

(** C4.  Each [begin_...] function selects its shape and sets the gap
    flag; each [end_...] function returns the shape to [NONE] with the
    gap flag set; and while the shape is [NONE], [arc] and [curve]
    return the driver as they found it, no canvas call made. *)
Theorem path_state_machine
  (base_curve : Driver -> double -> double -> double -> double ->
                double -> double -> double -> double -> Driver)
  (st : Driver) :
  (what (begin_points st) = POINTS /\ gap_ (begin_points st) = 1) /\
  (what (begin_line st) = LINE /\ gap_ (begin_line st) = 1) /\
  (what (begin_loop st) = LOOP /\ gap_ (begin_loop st) = 1) /\
  (what (begin_polygon st) = POLYGON /\ gap_ (begin_polygon st) = 1) /\
  (what (end_points st) = NONE /\ gap_ (end_points st) = 1) /\
  (what (end_line st) = NONE /\ gap_ (end_line st) = 1) /\
  (what (end_loop st) = NONE /\ gap_ (end_loop st) = 1) /\
  (what (end_polygon st) = NONE /\ gap_ (end_polygon st) = 1) /\
  (what st = NONE ->
     (forall x y r start end_, arc st x y r start end_ = st) /\
     (forall x y x1 y1 x2 y2 x3 y3,
        curve base_curve st x y x1 y1 x2 y2 x3 y3 = st)).
Proof.
  repeat (split; [split; reflexivity|]).
  intros Hnone. split; intros; unfold arc, curve; rewrite Hnone; reflexivity.
Qed.

(** C4 on a driver at rest: every [begin_...] followed by its [end_...]
    is back at [NONE], and [arc] and [curve] leave the rest state alone. *)
Lemma path_state_machine_witness :
  let st := mkDriver [] NONE 0 (mkMatrix 1 0 0 1 0 0)%float 0 0
                     "butt"%string "miter"%string [] [] in
  what st = NONE /\
  (arc st 0 0 1 0 90 = st)%float /\
  (curve (fun s _ _ _ _ _ _ _ _ => s) st 0 0 1 1 2 2 3 3 = st)%float /\
  what (end_polygon (begin_polygon st)) = NONE.
Proof.
  intros st.
  pose proof (path_state_machine (fun s _ _ _ _ _ _ _ _ => s) st)
    as (_ & _ & _ & _ & _ & _ & _ & _ & Hrest).
  pose proof (path_state_machine (fun s _ _ _ _ _ _ _ _ => s) (begin_polygon st))
    as (_ & _ & _ & _ & _ & _ & _ & (Hend & _) & _).
  destruct (Hrest eq_refl) as (Harc & Hcurve).
  split; [reflexivity|]. split; [apply Harc|]. split; [apply Hcurve|]. exact Hend.
Defined.

End PathFacts.

(** ** Line styles *)

Module LineStyleFacts.

Import LineStyle.

Lemma low_byte_cases style :
  Z.land style 0xff <= 4 ->
  Z.land style 0xff = 0 \/ Z.land style 0xff = 1 \/ Z.land style 0xff = 2 \/
  Z.land style 0xff = 3 \/ Z.land style 0xff = 4.
Proof.
  intros Hle.
  assert (0 <= Z.land style 0xff) by (apply Z.land_nonneg; right; lia).
  lia.
Qed.

Section WithEnumerations.

Context {E : Enumerations}.

(** The dash pattern [line_style] computes. *)
Lemma ddashes_of_spec style width dashes :
  in_tables style dashes ->
  exists pattern,
    ddashes_of style width dashes = Some pattern /\
    (forall c cs, dashes = Some (c :: cs) -> pattern = map double_of_int (c :: cs)) /\
    (no_dashes dashes -> Z.land style 0xff <> 0 ->
       (Z.land style 0x200 <> 0 ->
          exists row, dashes_cap !! Z.to_nat (Z.land style 0xff) = Some row /\
                      pattern = map (PrimFloat.mul (double_of_int width)) (entry_cap row)) /\
       (Z.land style 0x200 = 0 ->
          exists row, dashes_flat !! Z.to_nat (Z.land style 0xff) = Some row /\
                      pattern = map (fun v => double_of_int (Int.mul width v))
                                    (entry_flat row))) /\
    (no_dashes dashes -> Z.land style 0xff = 0 -> pattern = []).
Proof.
  intros Hdef. unfold ddashes_of.
  destruct dashes as [[|c cs]|].
  2: { eexists. split; [reflexivity|]. split; [intros ? ? [= <- <-]; reflexivity|].
       split; intros [?|?]; discriminate. }
  all: assert (Hle : Z.land style 0xff <= 4)
         by (apply Hdef; unfold no_dashes; tauto).
  all: destruct (Z.eqb_spec (Z.land style 0xff) 0) as [H0|H0]; cbn [negb].
  all: try (exists []; split; [reflexivity|]; split; [intros ? ? ?; discriminate|];
            split; [intros; contradiction | reflexivity]).
  all: destruct (Z.eqb_spec (Z.land style 0x200) 0) as [H2|H2]; cbn [negb].
  all: destruct (low_byte_cases style Hle) as [Hb|[Hb|[Hb|[Hb|Hb]]]];
         try contradiction; rewrite Hb.
  all: eexists; split; [reflexivity|]; split; [intros ? ? ?; discriminate|].
  all: split; [| intros _ Hz; discriminate Hz].
  all: intros _ _; split; intros Hbit; try contradiction.
  all: eexists; split; reflexivity.
Qed.

(** C7.  [line_style] applies a width of 1 in place of 0; the cap bits
    select 'square' for [FL_CAP_SQUARE], 'round' for [FL_CAP_ROUND] and
    'butt' otherwise; the join bits select 'bevel', 'miter' and 'round'
    for [FL_JOIN_BEVEL], [FL_JOIN_MITER] and [FL_JOIN_ROUND] and 'miter'
    otherwise; and the dash pattern the canvas receives is the caller's
    string when that is not empty, and otherwise, for a nonzero low byte
    of [style], the entry of the built-in table for that byte, each
    element multiplied by the width applied: the table is [dashes_cap]
    when bit 0x200 of [style] is set and [dashes_flat] when it is not. *)
Theorem line_style_spec (st : Driver) (style width : Z) (dashes : option (list Z)) :
  FL_CAP_ROUND <> FL_CAP_SQUARE ->
  FL_JOIN_MITER <> FL_JOIN_BEVEL ->
  FL_JOIN_ROUND <> FL_JOIN_BEVEL ->
  FL_JOIN_ROUND <> FL_JOIN_MITER ->
  in_tables style dashes ->
  let width' := if width =? 0 then 1 else width in
  exists st' pattern,
    line_style st style width dashes = Some st' /\
    width_ st' = width' /\
    (Z.land style 0xF00 = FL_CAP_SQUARE -> linecap_ st' = "square"%string) /\
    (Z.land style 0xF00 = FL_CAP_ROUND -> linecap_ st' = "round"%string) /\
    (Z.land style 0xF00 <> FL_CAP_SQUARE -> Z.land style 0xF00 <> FL_CAP_ROUND ->
       linecap_ st' = "butt"%string) /\
    (Z.land style 0xF000 = FL_JOIN_BEVEL -> linejoin_ st' = "bevel"%string) /\
    (Z.land style 0xF000 = FL_JOIN_MITER -> linejoin_ st' = "miter"%string) /\
    (Z.land style 0xF000 = FL_JOIN_ROUND -> linejoin_ st' = "round"%string) /\
    (Z.land style 0xF000 <> FL_JOIN_BEVEL -> Z.land style 0xF000 <> FL_JOIN_MITER ->
       Z.land style 0xF000 <> FL_JOIN_ROUND -> linejoin_ st' = "miter"%string) /\
    ctxt st' = ctxt st ++ [SetLineWidth width'; SetLineCap (linecap_ st');
                           SetLineJoin (linejoin_ st'); SetLineDash pattern] /\
    (forall c cs, dashes = Some (c :: cs) -> pattern = map double_of_int (c :: cs)) /\
    (no_dashes dashes -> Z.land style 0xff <> 0 ->
       (Z.land style 0x200 <> 0 ->
          exists row, dashes_cap !! Z.to_nat (Z.land style 0xff) = Some row /\
                      pattern = map (PrimFloat.mul (double_of_int width')) (entry_cap row)) /\
       (Z.land style 0x200 = 0 ->
          exists row, dashes_flat !! Z.to_nat (Z.land style 0xff) = Some row /\
                      pattern = map (fun v => double_of_int (Int.mul width' v))
                                    (entry_flat row))) /\
    (no_dashes dashes -> Z.land style 0xff = 0 -> pattern = []).
Proof.
  intros Hcap Hj1 Hj2 Hj3 Hle width'.
  destruct (ddashes_of_spec style width' dashes Hle) as (pattern & Hdd & Hp1 & Hp2 & Hp3).
  unfold line_style. fold width'. rewrite Hdd.
  eexists. exists pattern. split; [reflexivity|]. cbn [width_ linecap_ linejoin_ ctxt].
  split; [reflexivity|].
  unfold cap_of, join_of.
  split; [intros ->; rewrite Z.eqb_refl; reflexivity|].
  split; [intros ->; destruct (Z.eqb_spec FL_CAP_ROUND FL_CAP_SQUARE);
          [contradiction | rewrite Z.eqb_refl; reflexivity]|].
  split; [intros H1 H2;
          destruct (Z.eqb_spec (Z.land style 0xF00) FL_CAP_SQUARE); [contradiction|];
          destruct (Z.eqb_spec (Z.land style 0xF00) FL_CAP_ROUND); [contradiction|];
          reflexivity|].
  split; [intros ->; rewrite Z.eqb_refl; reflexivity|].
  split; [intros ->; destruct (Z.eqb_spec FL_JOIN_MITER FL_JOIN_BEVEL);
          [contradiction | rewrite Z.eqb_refl; reflexivity]|].
  split; [intros ->; destruct (Z.eqb_spec FL_JOIN_ROUND FL_JOIN_BEVEL); [contradiction|];
          destruct (Z.eqb_spec FL_JOIN_ROUND FL_JOIN_MITER); [contradiction|];
          rewrite Z.eqb_refl; reflexivity|].
  split; [intros H1 H2 H3;
          destruct (Z.eqb_spec (Z.land style 0xF000) FL_JOIN_BEVEL); [contradiction|];
          destruct (Z.eqb_spec (Z.land style 0xF000) FL_JOIN_MITER); [contradiction|];
          destruct (Z.eqb_spec (Z.land style 0xF000) FL_JOIN_ROUND); [contradiction|];
          reflexivity|].
  split; [reflexivity|].
  split; [exact Hp1|]. split; [exact Hp2 | exact Hp3].
Qed.

End WithEnumerations.

(** C7 at the toolkit's constants: a dashed line with round caps and
    bevel joins, width 0 and no dash string. *)
Lemma line_style_spec_witness :
  let st := mkDriver [] NONE 0 (mkMatrix 1 0 0 1 0 0)%float 0 0
                     "butt"%string "miter"%string [] [] in
  exists st',
    line_style (E := fltk_enumerations) st 0x3201 0 None = Some st' /\
    width_ st' = 1 /\ linecap_ st' = "round"%string /\
    linejoin_ st' = "bevel"%string /\
    ctxt st' = [SetLineWidth 1; SetLineCap "round"; SetLineJoin "bevel";
                SetLineDash [2; 2]%float].
Proof.
  intros st.
  destruct (line_style_spec (E := fltk_enumerations) st 0x3201 0 None)
    as (st' & pattern & Hrun & Hw & _ & Hround & _ & Hbevel & _ & _ & _ & Hctxt
        & _ & Htable & _);
    try (vm_compute; discriminate).
  exists st'. split; [exact Hrun|]. split; [exact Hw|].
  split; [apply Hround; reflexivity|]. split; [apply Hbevel; reflexivity|].
  rewrite Hctxt, (Hround eq_refl), (Hbevel eq_refl).
  destruct Htable as [Hcap _]; [left; reflexivity | vm_compute; discriminate |].
  destruct Hcap as (row & Hrow & Hpat); [vm_compute; discriminate|].
  vm_compute in Hrow. injection Hrow as <-. rewrite Hpat. reflexivity.
Defined.

End LineStyleFacts.

(** ** Loops *)

(** An invariant that holds on entry and that every iteration below
    [stop] preserves holds on exit, and the loop does exit when its fuel
    covers the distance still to go. *)
Lemma for_loop_inv {S : Type} (P : Z -> S -> Prop) (body : Z -> S -> option S)
      (stop step : Z) :
  0 < step -> stop + step <= Int.max_signed ->
  (forall i s, 0 <= i < stop -> P i s ->
               exists s', body i s = Some s' /\ P (i + step) s') ->
  forall (fuel : nat) (i : Z) (s : S),
    0 <= i -> stop - i <= Z.of_nat fuel * step -> P i s ->
    exists j s', for_loop fuel i stop step body s = Some s' /\
                 stop <= j /\ (j = i \/ j < stop + step) /\ P j s'.
Proof.
  intros Hstep Hmax Hbody fuel.
  induction fuel as [|fuel IH]; intros i s Hi Hfuel HP.
  - exists i, s. cbn. destruct (Z.ltb_spec i stop); [lia|].
    repeat split; [lia | now left | exact HP].
  - cbn [for_loop]. destruct (Z.ltb_spec i stop) as [Hlt|Hge].
    + destruct (Hbody i s (conj Hi Hlt) HP) as (s' & Hb & HP'). rewrite Hb.
      rewrite add_in_range by in_range.
      destruct (IH (i + step) s') as (j & s'' & Hrun & Hj & Hj' & HP''); [lia|lia|exact HP'|].
      exists j, s''. repeat split; [exact Hrun | lia | right; lia | exact HP''].
    + exists i, s. repeat split; [lia | now left | exact HP].
Qed.

(** ** Images *)

Module ImageFacts.

Import Image.

Lemma read_lookup (a : list Z) (i : Z) :
  0 <= i < Z.of_nat (length a) -> exists v, read a i = Some v /\ a !! Z.to_nat i = Some v.
Proof.
  intros Hi. unfold read. destruct (Z.ltb_spec i 0); [lia|].
  destruct (lookup_lt_is_Some_2 a (Z.to_nat i)) as [v Hv]; [lia|].
  exists v. split; exact Hv.
Qed.

Lemma slice_cons (a : list Z) (i len : Z) (v : Z) :
  0 <= i -> 0 <= len -> a !! Z.to_nat i = Some v ->
  slice a i (len + 1) = v :: slice a (i + 1) len.
Proof.
  intros Hi Hlen Hv. unfold slice.
  rewrite (drop_S a v (Z.to_nat i) Hv).
  replace (Z.to_nat (len + 1)) with (Datatypes.S (Z.to_nat len)) by lia.
  replace (Z.to_nat (i + 1)) with (Datatypes.S (Z.to_nat i)) by lia.
  reflexivity.
Qed.

Lemma slice_app_l (a b : list Z) (off len : Z) :
  0 <= off -> 0 <= len -> off + len <= Z.of_nat (length a) ->
  slice (a ++ b) off len = slice a off len.
Proof.
  intros Hoff Hlen Hle. unfold slice.
  rewrite drop_app_le by lia. rewrite take_app_le; [reflexivity|].
  rewrite length_drop. lia.
Qed.

Lemma slice_app_r (a b : list Z) (off : Z) :
  off = Z.of_nat (length a) -> slice (a ++ b) off (Z.of_nat (length b)) = b.
Proof.
  intros ->. unfold slice. rewrite !Nat2Z.id.
  rewrite drop_app_length. apply take_ge. lia.
Qed.

Lemma rgba_of_length depth src quad :
  rgba_of depth src = Some quad -> length quad = 4%nat.
Proof.
  unfold rgba_of. intros Hq.
  destruct src as [|? [|? [|? [|? [|? ?]]]]]; try discriminate;
    destruct (depth =? _); try discriminate; injection Hq as <-; reflexivity.
Qed.

(** A loop that turns every group of [depth] bytes into one RGBA pixel
    converts the whole array, pixel by pixel. *)
Lemma convert_loop (depth n : Z) (a : list Z) (body : Z -> list Z -> option (list Z)) :
  0 < depth <= 4 -> 0 <= n -> 4 * n < 2 ^ 30 ->
  Z.of_nat (length a) = depth * n ->
  (forall i out, 0 <= i -> i + depth <= Z.of_nat (length a) ->
     exists quad, rgba_of depth (slice a i depth) = Some quad /\
                  body i out = Some (out ++ quad)) ->
  exists image_data,
    for_loop (Z.to_nat (depth * n)) 0 (depth * n) depth body [] = Some image_data /\
    Z.of_nat (length image_data) = 4 * n /\
    forall p, 0 <= p < n ->
      rgba_of depth (slice a (depth * p) depth) = Some (slice image_data (4 * p) 4).
Proof.
  intros Hd Hn Hsmall Hlen Hbody.
  set (P := fun (i : Z) (out : list Z) =>
              exists k, 0 <= k /\ i = depth * k /\ Z.of_nat (length out) = 4 * k /\
                forall p, 0 <= p < k ->
                  rgba_of depth (slice a (depth * p) depth) = Some (slice out (4 * p) 4)).
  destruct (for_loop_inv P body (depth * n) depth) with
    (fuel := Z.to_nat (depth * n)) (i := 0) (s := @nil Z)
    as (j & out & Hrun & Hj & Hj' & (k & Hk & -> & Hout & Hpix)).
  - lia.
  - unfold Int.max_signed. nia.
  - intros i out [Hi Hlt] (k & Hk & -> & Hout & Hpix).
    assert (Hkn : k < n) by nia.
    destruct (Hbody (depth * k) out) as (quad & Hq & Hb); [lia | nia |].
    pose proof (rgba_of_length _ _ _ Hq) as Hql.
    exists (out ++ quad). split; [exact Hb|].
    exists (k + 1). split; [lia|]. split; [lia|].
    split; [rewrite length_app; lia|].
    intros p Hp. destruct (Z.eq_dec p k) as [->|Hne].
    + rewrite Hq. f_equal. symmetry.
      replace 4 with (Z.of_nat (length quad)) at 2 by lia.
      apply slice_app_r. lia.
    + rewrite slice_app_l by lia. apply Hpix. lia.
  - lia.
  - nia.
  - exists 0. split; [lia|]. split; [lia|]. split; [reflexivity|]. intros p Hp. lia.
  - assert (k = n) by nia. subst k.
    exists out. split; [exact Hrun|]. split; [exact Hout | exact Hpix].
Qed.

Lemma slice_1 a i :
  0 <= i -> i + 1 <= Z.of_nat (length a) ->
  exists v, read a i = Some v /\ slice a i 1 = [v].
Proof.
  intros Hi Hle. destruct (read_lookup a i) as (v & Hr & Hv); [lia|].
  exists v. split; [exact Hr|].
  change 1 with (0 + 1). rewrite (slice_cons a i 0 v) by (lia || assumption).
  reflexivity.
Qed.

Lemma slice_2 a i :
  0 <= i -> i + 2 <= Z.of_nat (length a) ->
  exists v1 v2, read a i = Some v1 /\ read a (i + 1) = Some v2 /\ slice a i 2 = [v1; v2].
Proof.
  intros Hi Hle. destruct (read_lookup a i) as (v1 & Hr & Hv); [lia|].
  destruct (slice_1 a (i + 1)) as (v2 & Hr2 & Hs2); [lia | lia |].
  exists v1, v2. split; [exact Hr|]. split; [exact Hr2|].
  change 2 with (1 + 1). rewrite (slice_cons a i 1 v1) by (lia || assumption).
  now rewrite Hs2.
Qed.

Lemma slice_3 a i :
  0 <= i -> i + 3 <= Z.of_nat (length a) ->
  exists v1 v2 v3, read a i = Some v1 /\ read a (i + 1) = Some v2 /\
                   read a (i + 2) = Some v3 /\ slice a i 3 = [v1; v2; v3].
Proof.
  intros Hi Hle. destruct (read_lookup a i) as (v1 & Hr & Hv); [lia|].
  destruct (slice_2 a (i + 1)) as (v2 & v3 & Hr2 & Hr3 & Hs2); [lia | lia |].
  exists v1, v2, v3. split; [exact Hr|]. split; [exact Hr2|].
  split; [replace (i + 2) with (i + 1 + 1) by lia; exact Hr3|].
  change 3 with (2 + 1). rewrite (slice_cons a i 2 v1) by (lia || assumption).
  now rewrite Hs2.
Qed.

Lemma slice_4 a i :
  0 <= i -> i + 4 <= Z.of_nat (length a) ->
  exists v1 v2 v3 v4, slice a i 4 = [v1; v2; v3; v4].
Proof.
  intros Hi Hle. destruct (read_lookup a i) as (v1 & Hr & Hv); [lia|].
  destruct (slice_3 a (i + 1)) as (v2 & v3 & v4 & _ & _ & _ & Hs); [lia | lia |].
  exists v1, v2, v3, v4.
  change 4 with (3 + 1). rewrite (slice_cons a i 3 v1) by (lia || assumption).
  now rewrite Hs.
Qed.

(** The loop for depth 4 copies the array. *)
Lemma copy_loop (a : list Z) :
  Z.of_nat (length a) < 2 ^ 30 ->
  for_loop (length a) 0 (Z.of_nat (length a)) 1 (push4 a) [] = Some a.
Proof.
  intros Hsmall.
  set (P := fun (i : Z) (out : list Z) => 0 <= i /\ out = take (Z.to_nat i) a).
  destruct (for_loop_inv P (push4 a) (Z.of_nat (length a)) 1) with
    (fuel := length a) (i := 0) (s := @nil Z)
    as (j & out & Hrun & Hj & Hj' & (Hj0 & ->)).
  - lia.
  - unfold Int.max_signed. lia.
  - intros i out [Hi Hlt] [_ ->].
    destruct (read_lookup a i) as (v & Hr & Hv); [lia|].
    exists (take (Z.to_nat i) a ++ [v]). unfold push4. rewrite Hr.
    split; [reflexivity|]. split; [lia|].
    replace (Z.to_nat (i + 1)) with (Datatypes.S (Z.to_nat i)) by lia.
    symmetry. apply take_S_r. exact Hv.
  - lia.
  - lia.
  - split; [lia | reflexivity].
  - rewrite Hrun. f_equal. apply take_ge. lia.
Qed.

Lemma push3_spec a i out :
  Z.of_nat (length a) < 2 ^ 30 -> 0 <= i -> i + 3 <= Z.of_nat (length a) ->
  exists quad, rgba_of 3 (slice a i 3) = Some quad /\ push3 a i out = Some (out ++ quad).
Proof.
  intros Hsmall Hi Hle.
  destruct (slice_3 a i Hi Hle) as (r & g & b & Hr & Hg & Hb & Hs).
  exists [r; g; b; 255]. rewrite Hs. split; [reflexivity|].
  unfold push3. rewrite !add_in_range by in_range. now rewrite Hr, Hg, Hb.
Qed.

Lemma push2_spec a i out :
  Z.of_nat (length a) < 2 ^ 30 -> 0 <= i -> i + 2 <= Z.of_nat (length a) ->
  exists quad, rgba_of 2 (slice a i 2) = Some quad /\ push2 a i out = Some (out ++ quad).
Proof.
  intros Hsmall Hi Hle.
  destruct (slice_2 a i Hi Hle) as (v & alpha & Hv & Halpha & Hs).
  exists [v; v; v; alpha]. rewrite Hs. split; [reflexivity|].
  unfold push2. rewrite !add_in_range by in_range. now rewrite Hv, Halpha.
Qed.

Lemma push1_spec a i out :
  0 <= i -> i + 1 <= Z.of_nat (length a) ->
  exists quad, rgba_of 1 (slice a i 1) = Some quad /\ push1 a i out = Some (out ++ quad).
Proof.
  intros Hi Hle.
  destruct (slice_1 a i Hi Hle) as (v & Hv & Hs).
  exists [v; v; v; 255]. rewrite Hs. split; [reflexivity|].
  unfold push1. now rewrite Hv.
Qed.

(** The contents of [image_data]: four bytes for every pixel of the
    source, each the conversion of that pixel. *)
Lemma image_data_of_spec (rgb : Fl_RGB_Image) (a : list Z) :
  1 <= d rgb <= 4 -> 0 <= data_w rgb -> 0 <= data_h rgb ->
  4 * (data_w rgb * data_h rgb) < 2 ^ 30 ->
  Z.of_nat (length a) = d rgb * (data_w rgb * data_h rgb) ->
  exists image_data,
    image_data_of rgb a = Some image_data /\
    Z.of_nat (length image_data) = 4 * (data_w rgb * data_h rgb) /\
    forall p, 0 <= p < data_w rgb * data_h rgb ->
      rgba_of (d rgb) (slice a (d rgb * p) (d rgb)) = Some (slice image_data (4 * p) 4).
Proof.
  intros Hd Hw Hh Hsmall Hlen.
  set (n := data_w rgb * data_h rgb) in *.
  assert (Hn : 0 <= n) by (subst n; nia).
  unfold image_data_of. fold n.
  rewrite (mul_in_range (data_w rgb) (data_h rgb)) by (fold n; in_range).
  fold n.
  rewrite (mul_in_range n (d rgb))
    by (unfold Int.in_range, Int.min_signed, Int.max_signed; nia).
  replace (n * d rgb) with (d rgb * n) by lia.
  assert (Hcase : d rgb = 1 \/ d rgb = 2 \/ d rgb = 3 \/ d rgb = 4) by lia.
  destruct Hcase as [Hc|[Hc|[Hc|Hc]]]; rewrite Hc in *; cbn [Z.eqb Pos.eqb].
  - apply convert_loop; try lia. intros i out Hi Hle. now apply push1_spec.
  - apply convert_loop; try lia. intros i out Hi Hle. apply push2_spec; lia.
  - apply convert_loop; try lia. intros i out Hi Hle. apply push3_spec; lia.
  - rewrite <- Hlen, Nat2Z.id, copy_loop by lia.
    exists a. split; [reflexivity|]. split; [lia|].
    intros q Hq. destruct (slice_4 a (4 * q)) as (r & g & b & alpha & Hs); [lia | lia |].
    rewrite Hs. reflexivity.
Qed.

(** C8.  [draw_fixed] draws an image of depth 0 or without data as an
    empty image, no pixel converted.  Otherwise, when [start_image]
    lets the drawing go on, the canvas receives four bytes for every
    pixel of the source: a pixel of depth 4 unchanged; of depth 3 its
    three bytes and 255; of depth 2 its first byte three times and its
    second; of depth 1 its byte three times and 255. *)
Theorem draw_fixed_spec
  (draw_empty : Driver -> Fl_RGB_Image -> Z -> Z -> Driver)
  (start_image : Driver -> Fl_RGB_Image -> Z -> Z -> Z -> Z -> Z -> Z -> Z * Driver)
  (st : Driver) (rgb : Fl_RGB_Image) (XP YP WP HP cx cy : Z) :
  (d rgb = 0 \/ array rgb = None ->
     draw_fixed draw_empty start_image st rgb XP YP WP HP cx cy
       = Some (draw_empty st rgb XP YP)) /\
  (forall a st1,
     array rgb = Some a -> 1 <= d rgb <= 4 ->
     0 <= data_w rgb -> 0 <= data_h rgb -> 4 * (data_w rgb * data_h rgb) < 2 ^ 30 ->
     Z.of_nat (length a) = d rgb * (data_w rgb * data_h rgb) ->
     start_image st rgb XP YP WP HP cx cy = (0, st1) ->
     exists image_data,
       draw_fixed draw_empty start_image st rgb XP YP WP HP cx cy
         = Some (em_asm st1
                   [Save;
                    Rect (double_of_int XP) (double_of_int YP)
                         (double_of_int WP) (double_of_int HP);
                    Clip;
                    PutImageData image_data (data_w rgb) (data_h rgb) XP YP cx cy WP HP;
                    Restore]) /\
       Z.of_nat (length image_data) = 4 * (data_w rgb * data_h rgb) /\
       forall p, 0 <= p < data_w rgb * data_h rgb ->
         rgba_of (d rgb) (slice a (d rgb * p) (d rgb))
           = Some (slice image_data (4 * p) 4)).
Proof.
  split.
  - intros Hempty. unfold draw_fixed.
    destruct (array rgb) as [a|]; [|reflexivity].
    destruct Hempty as [H0|?]; [|discriminate]. rewrite H0. reflexivity.
  - intros a st1 Harr Hd Hw Hh Hsmall Hlen Hstart.
    destruct (image_data_of_spec rgb a Hd Hw Hh Hsmall Hlen)
      as (image_data & Hdata & Hlength & Hpix).
    exists image_data. split; [|split; assumption].
    unfold draw_fixed. rewrite Harr.
    destruct (Z.eqb_spec (d rgb) 0); [lia|].
    rewrite Hstart. cbn [Z.eqb negb]. rewrite Hdata. reflexivity.
Qed.

(** C8 on an image of one pixel of depth 2, and on an image without data. *)
Lemma draw_fixed_spec_witness :
  let st := mkDriver [] NONE 0 (mkMatrix 1 0 0 1 0 0)%float 0 0
                     "butt"%string "miter"%string [] [] in
  let draw_empty := fun (s : Driver) (_ : Fl_RGB_Image) (_ _ : Z) => s in
  let start_image :=
    fun (s : Driver) (_ : Fl_RGB_Image) (_ _ _ _ _ _ : Z) => (0, s) in
  (exists image_data,
     draw_fixed draw_empty start_image st (mkImage 2 1 1 (Some [7; 9])) 0 0 1 1 0 0
       = Some (em_asm st [Save; (Rect 0 0 1 1)%float; Clip;
                          PutImageData image_data 1 1 0 0 0 0 1 1; Restore]) /\
     slice image_data 0 4 = [7; 7; 7; 9]) /\
  draw_fixed draw_empty start_image st (mkImage 3 1 1 None) 0 0 1 1 0 0 = Some st.
Proof.
  intros st draw_empty start_image. split.
  - pose proof (draw_fixed_spec draw_empty start_image st
                  (mkImage 2 1 1 (Some [7; 9])) 0 0 1 1 0 0) as [_ Hconv].
    destruct (Hconv [7; 9] st) as (image_data & Hrun & _ & Hpix);
      try reflexivity; try (cbn; lia).
    exists image_data. split; [exact Hrun|].
    specialize (Hpix 0 ltac:(cbn; lia)).
    change (Some [7; 7; 7; 9] = Some (slice image_data 0 4)) in Hpix.
    injection Hpix as Hpix. symmetry. exact Hpix.
  - pose proof (draw_fixed_spec draw_empty start_image st
                  (mkImage 3 1 1 None) 0 0 1 1 0 0) as [Hempty _].
    apply Hempty. right. reflexivity.
Defined.

Lemma alpha_index_bounds iw ih D l i :
  fits iw ih D -> 0 <= l < ih -> 0 <= i < iw ->
  0 <= l * D <= l * D * iw /\ 0 <= i * D /\
  l * D * iw + i * D + D <= (l + 1) * D * iw /\
  (l + 1) * D * iw <= iw * D * ih /\ iw * D * ih < 2 ^ 30.
Proof.
  intros (Hiw & Hih & HD & Hfit) Hl Hi.
  assert (0 <= l * D) by nia.
  assert (l * D <= l * D * iw) by nia.
  assert (0 <= i * D) by nia.
  assert (i * D + D <= iw * D) by nia.
  assert ((l + 1) * D * iw <= iw * D * ih) by nia.
  assert (iw * D * ih <= (iw + 1) * D * (ih + 1)) by nia.
  repeat split; lia.
Qed.

Lemma set_alpha_spec iw ih D l i a :
  fits iw ih D -> 0 <= l < ih -> 0 <= i < iw ->
  Z.of_nat (length a) = iw * D * ih ->
  set_alpha l iw D i a = Some (<[Z.to_nat (alpha_index iw D l i) := 255]> a) /\
  0 <= alpha_index iw D l i < Z.of_nat (length a).
Proof.
  intros Hfit Hl Hi Hlen.
  destruct (alpha_index_bounds iw ih D l i Hfit Hl Hi) as (H1 & H2 & H3 & H4 & H5).
  pose proof Hfit as (_ & _ & HD & _).
  assert (Hidx : alpha_index iw D l i = l * D * iw + i * D + D - 1)
    by (unfold alpha_index; ring).
  unfold set_alpha.
  rewrite (mul_in_range l D) by in_range.
  rewrite (mul_in_range (l * D) iw) by in_range.
  rewrite (mul_in_range i D) by in_range.
  rewrite (add_in_range (l * D * iw) (i * D)) by in_range.
  rewrite (add_in_range (l * D * iw + i * D) D) by in_range.
  rewrite (sub_in_range (l * D * iw + i * D + D) 1) by in_range.
  rewrite <- Hidx. unfold write.
  destruct (Z.leb_spec 0 (alpha_index iw D l i)); [|lia].
  destruct (Z.ltb_spec (alpha_index iw D l i) (Z.of_nat (length a))); [|lia].
  split; [reflexivity | lia].
Qed.

Lemma insert_255 (a : list Z) (k j : nat) :
  a !! j = Some 255 -> <[k := 255]> a !! j = Some 255.
Proof.
  intros Hj. destruct (Nat.eq_dec k j) as [->|Hne].
  - apply list_lookup_insert_eq. now apply lookup_lt_Some in Hj.
  - now rewrite list_lookup_insert_ne.
Qed.


Lemma even_rem D : Z.even D = true -> Int.rem D 2 = 0.
Proof.
  intros He. apply Z.even_spec in He as [k ->]. unfold Int.rem.
  rewrite Z.mul_comm. now apply Z.rem_mul.
Qed.




End ImageFacts.

(** ** Matrices *)

Module MatrixFacts.

Import Matrix.

(** C9 fails on the code.  [invert_matrix] keeps the determinant in an
    [int] and divides 1 by it in integer arithmetic.  For the scaling by
    2, whose determinant is 4, the quotient is 0: the function returns
    0 and writes a matrix that sends every point to the origin, where
    the inverse would send the image of (1, 1) back to (1, 1).  For the
    scaling by 1/2 the determinant 1/4 is truncated to 0, and the
    function returns -1 and writes nothing, the determinant being
    nonzero. *)
Theorem invert_matrix_integer_division (newmatrix : matrix) :
  let double_m := (mkMatrix 2 0 0 2 0 0)%float in
  let half_m := (mkMatrix 0.5 0 0 0.5 0 0)%float in
  invert_matrix double_m newmatrix
    = Some (0, (mkMatrix 0 (-0) (-0) 0 0 0)%float) /\
  apply (mkMatrix 0 (-0) (-0) 0 0 0)%float (apply double_m (1, 1)%float)
    = (0, 0)%float /\
  PrimFloat.sub (PrimFloat.mul (ma half_m) (md half_m))
                (PrimFloat.mul (mb half_m) (mc half_m)) = 0.25%float /\
  invert_matrix half_m newmatrix = Some (-1, newmatrix).
Proof.
  cbv zeta. repeat split; vm_compute; reflexivity.
Qed.

End MatrixFacts.

(** ** Bits *)

Lemma land_pow2 (s n : Z) :
  0 <= n -> Z.land s (2 ^ n) = if Z.testbit s n then 2 ^ n else 0.
Proof.
  intros Hn. apply Z.bits_inj'. intros k Hk.
  rewrite Z.land_spec, Z.pow2_bits_eqb by assumption.
  destruct (Z.eqb_spec n k) as [->|Hne].
  - destruct (Z.testbit s k); cbn.
    + now rewrite Z.pow2_bits_true.
    + now rewrite Z.bits_0.
  - rewrite andb_false_r. destruct (Z.testbit s n).
    + now rewrite Z.pow2_bits_false.
    + now rewrite Z.bits_0.
Qed.

Lemma pow2_nonzero (n : Z) : 0 <= n -> 2 ^ n <> 0.
Proof. intros Hn. pose proof (Z.pow_pos_nonneg 2 n). lia. Qed.

Lemma wrap_testbit (z n : Z) :
  0 <= n < 32 -> Z.testbit (Int.wrap z) n = Z.testbit z n.
Proof.
  intros Hn.
  rewrite <- (Z.mod_pow2_bits_low (Int.wrap z) 32 n) by lia.
  rewrite <- (Z.mod_pow2_bits_low z 32 n) by lia.
  f_equal. unfold Int.wrap.
  replace ((z + 2 ^ 31) mod 2 ^ 32 - 2 ^ 31)
    with ((z + 2 ^ 31) mod 2 ^ 32 + (- 1) * 2 ^ 32 + 2 ^ 31) by lia.
  rewrite <- Zplus_mod_idemp_l, Z_mod_plus_full, Z.mod_mod by lia.
  rewrite Zplus_mod_idemp_l. replace (z + 2 ^ 31 + 2 ^ 31) with (z + 1 * 2 ^ 32) by lia.
  now rewrite Z_mod_plus_full.
Qed.

Lemma to_ulong_testbit (z n : Z) :
  0 <= n < 32 -> Z.testbit (Window.to_ulong z) n = Z.testbit z n.
Proof. intros Hn. unfold Window.to_ulong. apply Z.mod_pow2_bits_low. lia. Qed.

Lemma mask_testbit (n : Z) :
  0 <= n -> Z.testbit 0xff0000 n = (16 <=? n) && (n <? 24).
Proof.
  intros Hn. change 0xff0000 with (Z.shiftl (Z.ones 8) 16).
  rewrite Z.shiftl_spec by assumption.
  destruct (Z.leb_spec 16 n); destruct (Z.ltb_spec n 24); cbn.
  - apply Z.ones_spec_low. lia.
  - apply Z.ones_spec_high. lia.
  - apply Z.testbit_neg_r. lia.
  - apply Z.testbit_neg_r. lia.
Qed.

(** ** Browser events *)

Module WindowFacts.

Import Window.

Lemma is_set_testbit state n :
  0 <= n -> is_set state (2 ^ n) <-> Z.testbit state n = true.
Proof.
  intros Hn. unfold is_set. rewrite land_pow2 by assumption.
  pose proof (pow2_nonzero n Hn).
  destruct (Z.testbit state n); split; intros; congruence.
Qed.



Section WithEnumerations.

Context {E : Enumerations} {H5 : Html5}.

(** The state [set_keysym_and_state] stores, bit by bit. *)
Lemma key_state_testbit (ev : EmscriptenKeyboardEvent) (F : Fl) (nc na ns nm n : Z) :
  FL_CTRL = 2 ^ nc -> FL_ALT = 2 ^ na -> FL_SHIFT = 2 ^ ns -> FL_META = 2 ^ nm ->
  0 <= nc -> 0 <= na -> 0 <= ns -> 0 <= nm -> 16 <= n < 24 ->
  Z.testbit (e_state (set_keysym_and_state ev F)) n =
    Z.testbit (e_state F) n
    || (ctrlKey ev && (nc =? n)) || (altKey ev && (na =? n))
    || (shiftKey ev && (ns =? n)) || (metaKey ev && (nm =? n)).
Proof.
  intros Hc Ha Hs Hm Hnc Hna Hns Hnm Hn.
  unfold set_keysym_and_state.
  destruct (special_key (key ev) >=? 0); cbn [e_state].
  all: rewrite wrap_testbit by lia.
  all: rewrite Hc, Ha, Hs, Hm.
  all: destruct (ctrlKey ev), (altKey ev), (shiftKey ev), (metaKey ev); cbn [andb orb].
  all: rewrite ?Z.lor_spec, ?to_ulong_testbit, ?Z.land_spec, ?mask_testbit,
               ?Z.pow2_bits_eqb by lia.
  all: replace ((16 <=? n) && (n <? 24)) with true by lia.
  all: rewrite ?andb_true_r, ?orb_false_r; reflexivity.
Qed.

(** After [set_keysym_and_state] a modifier flag is set when the event
    carries the modifier, and when the flag was set before. *)
Lemma modifiers_after (ev : EmscriptenKeyboardEvent) (F : Fl) :
  modifier_flags ->
  let F' := set_keysym_and_state ev F in
  (is_set (e_state F') FL_CTRL <-> ctrlKey ev = true \/ is_set (e_state F) FL_CTRL) /\
  (is_set (e_state F') FL_ALT <-> altKey ev = true \/ is_set (e_state F) FL_ALT) /\
  (is_set (e_state F') FL_SHIFT <-> shiftKey ev = true \/ is_set (e_state F) FL_SHIFT) /\
  (is_set (e_state F') FL_META <-> metaKey ev = true \/ is_set (e_state F) FL_META).
Proof.
  intros ((ns & Hns & Hs) & (nc & Hnc & Hc) & (na & Hna & Ha) & (nm & Hnm & Hm)
          & Hsc & Hsa & Hsm & Hca & Hcm & Ham) F'.
  assert (ns <> nc) by (intros ->; congruence).
  assert (ns <> na) by (intros ->; congruence).
  assert (ns <> nm) by (intros ->; congruence).
  assert (nc <> na) by (intros ->; congruence).
  assert (nc <> nm) by (intros ->; congruence).
  assert (na <> nm) by (intros ->; congruence).
  assert (Hbit : forall n, 16 <= n < 24 ->
            Z.testbit (e_state F') n =
              Z.testbit (e_state F) n
              || (ctrlKey ev && (nc =? n)) || (altKey ev && (na =? n))
              || (shiftKey ev && (ns =? n)) || (metaKey ev && (nm =? n)))
    by (intros n Hn; apply key_state_testbit; (assumption || lia)).
  pose proof (Hbit nc Hnc) as Bc. pose proof (Hbit na Hna) as Ba.
  pose proof (Hbit ns Hns) as Bs. pose proof (Hbit nm Hnm) as Bm.
  rewrite Hc, Ha, Hs, Hm. rewrite !is_set_testbit by lia.
  rewrite Bc, Ba, Bs, Bm.
  repeat match goal with
         | |- context [?a =? ?b] =>
             first [ replace (a =? b) with true by lia
                   | replace (a =? b) with false by lia ]
         end.
  destruct (Z.testbit (e_state F) nc), (Z.testbit (e_state F) na),
           (Z.testbit (e_state F) ns), (Z.testbit (e_state F) nm),
           (ctrlKey ev), (altKey ev), (shiftKey ev), (metaKey ev);
    cbn; intuition congruence.
Qed.


Lemma distinct_at (l : list Z) (i j : nat) (x y : Z) :
  NoDup l -> l !! i = Some x -> l !! j = Some y -> i <> j -> x <> y.
Proof.
  intros Hnd Hi Hj Hne ->. apply Hne. eapply NoDup_lookup; eassumption.
Qed.

(** Two labels at different places of a list without repetition differ. *)
Ltac distinct_pair Hd i j := solve [apply (Hd i j); (reflexivity || lia)].
Ltac distinct_from Hd i :=
  first [ distinct_pair Hd i 0%nat | distinct_pair Hd i 1%nat
        | distinct_pair Hd i 2%nat | distinct_pair Hd i 3%nat
        | distinct_pair Hd i 4%nat | distinct_pair Hd i 5%nat
        | distinct_pair Hd i 6%nat ].
Ltac distinct_labels Hd :=
  first [ distinct_from Hd 0%nat | distinct_from Hd 1%nat | distinct_from Hd 2%nat
        | distinct_from Hd 3%nat | distinct_from Hd 4%nat | distinct_from Hd 5%nat
        | distinct_from Hd 6%nat ].

(** The [switch] of [match_mouse_event], label by label. *)
Lemma match_mouse_event_cases :
  NoDup mouse_event_types ->
  match_mouse_event EMSCRIPTEN_EVENT_MOUSEDOWN = FL_PUSH /\
  match_mouse_event EMSCRIPTEN_EVENT_DBLCLICK = FL_PUSH /\
  match_mouse_event EMSCRIPTEN_EVENT_CLICK = FL_PUSH /\
  match_mouse_event EMSCRIPTEN_EVENT_MOUSEUP = FL_RELEASE /\
  match_mouse_event EMSCRIPTEN_EVENT_MOUSEMOVE = FL_MOVE /\
  match_mouse_event EMSCRIPTEN_EVENT_MOUSEENTER = FL_ENTER /\
  match_mouse_event EMSCRIPTEN_EVENT_MOUSELEAVE = FL_LEAVE /\
  (forall eventType, ~ In eventType mouse_event_types -> match_mouse_event eventType = 0).
Proof.
  intros Hnd.
  assert (Hd : forall i j x y, mouse_event_types !! i = Some x ->
                 mouse_event_types !! j = Some y -> i <> j -> x <> y)
    by (intros i j x y; apply distinct_at; exact Hnd).
  unfold match_mouse_event. rewrite ?Z.eqb_refl.
  do 7 (split;
    [ repeat match goal with
             | |- context [?a =? ?b] =>
                 destruct (Z.eqb_spec a b) as [Heq|_];
                 [ try reflexivity; exfalso; revert Heq; distinct_labels Hd | ]
             end;
      rewrite ?Z.eqb_refl; reflexivity
    | ]).
  intros eventType Hnot. unfold mouse_event_types in Hnot. cbn [In] in Hnot.
  repeat match goal with
         | |- context [?a =? ?b] =>
             destruct (Z.eqb_spec a b) as [Heq|_]; [exfalso; intuition congruence|]
         end.
  reflexivity.
Qed.

Lemma is_set_wrap (s n : Z) :
  0 <= n < 31 -> is_set (Int.wrap s) (2 ^ n) <-> Z.testbit s n = true.
Proof.
  intros Hn. rewrite is_set_testbit by lia. now rewrite wrap_testbit by lia.
Qed.

Lemma abs_small (a b : Z) :
  Int.small a -> Int.small b -> Int.abs (Int.sub a b) = Z.abs (a - b).
Proof.
  intros Ha Hb. rewrite sub_in_range by in_range. unfold Int.abs.
  destruct (Z.ltb_spec (a - b) 0); [|lia].
  rewrite wrap_in_range by in_range. lia.
Qed.

Lemma set_button_testbit (btn k bit state n : Z) :
  0 <= n < 32 ->
  Z.testbit (set_button btn k bit state) n =
    Z.testbit state n || ((btn =? k) && Z.testbit bit n).
Proof.
  intros Hn. unfold set_button. destruct (btn =? k); cbn [andb].
  - now rewrite Z.lor_spec, to_ulong_testbit by lia.
  - now rewrite orb_false_r.
Qed.

Lemma clear_button_testbit (btn k bit state n : Z) :
  0 <= n < 32 ->
  Z.testbit (clear_button btn k bit state) n =
    Z.testbit state n && negb ((btn =? k) && Z.testbit bit n).
Proof.
  intros Hn. unfold clear_button. destruct (btn =? k); cbn [andb negb].
  - now rewrite Z.land_spec, to_ulong_testbit, Z.lnot_spec by lia.
  - now rewrite andb_true_r.
Qed.

(** C6.  [match_mouse_event] sends mousedown, dblclick and click to
    [FL_PUSH], mouseup to [FL_RELEASE], mousemove to [FL_MOVE],
    mouseenter to [FL_ENTER], mouseleave to [FL_LEAVE] and every other
    type to 0, and [handle_mouse_ev] hands that event to [Fl::handle].
    On [FL_PUSH], [Fl::e_clicks] is 1 for dblclick and 0 otherwise,
    [Fl::e_is_click] is 1 and the position of the pointer is kept; the
    button [n] among 0, 1, 2 sets the flag of button [n + 1] in
    [Fl::e_state], and [Fl::e_keysym] is [FL_Button + n + 1].  On
    [FL_RELEASE] that flag is clear, and [Fl::e_is_click] becomes 0 when
    the pointer is more than 5 pixels, in x or in y, from where the
    button went down, and keeps its value when it is not. *)
Theorem handle_mouse_ev_spec (Fl_handle : Z -> Fl -> Z * Fl)
        (eventType : Z) (event : EmscriptenMouseEvent) (F : Fl) :
  mouse_constants ->
  0 <= button event < 2 ^ 16 ->
  Int.small (clientX event) -> Int.small (clientY event) ->
  Int.small (px F) -> Int.small (py F) ->
  let flev := match_mouse_event eventType in
  let F' := fst (mouse_ev eventType event F) in
  handle_mouse_ev Fl_handle eventType event F
    = (negb (fst (Fl_handle flev F') =? 0), snd (Fl_handle flev F')) /\
  (match_mouse_event EMSCRIPTEN_EVENT_MOUSEDOWN = FL_PUSH /\
   match_mouse_event EMSCRIPTEN_EVENT_DBLCLICK = FL_PUSH /\
   match_mouse_event EMSCRIPTEN_EVENT_CLICK = FL_PUSH /\
   match_mouse_event EMSCRIPTEN_EVENT_MOUSEUP = FL_RELEASE /\
   match_mouse_event EMSCRIPTEN_EVENT_MOUSEMOVE = FL_MOVE /\
   match_mouse_event EMSCRIPTEN_EVENT_MOUSEENTER = FL_ENTER /\
   match_mouse_event EMSCRIPTEN_EVENT_MOUSELEAVE = FL_LEAVE /\
   (forall t, ~ In t mouse_event_types -> match_mouse_event t = 0)) /\
  (flev = FL_PUSH ->
     e_clicks F' = (if eventType =? EMSCRIPTEN_EVENT_DBLCLICK then 1 else 0) /\
     e_is_click F' = 1 /\ px F' = clientX event /\ py F' = clientY event /\
     e_keysym F' = FL_Button + button event + 1 /\
     (button event = 0 -> is_set (e_state F') FL_BUTTON1) /\
     (button event = 1 -> is_set (e_state F') FL_BUTTON2) /\
     (button event = 2 -> is_set (e_state F') FL_BUTTON3)) /\
  (flev = FL_RELEASE ->
     (button event = 0 -> ~ is_set (e_state F') FL_BUTTON1) /\
     (button event = 1 -> ~ is_set (e_state F') FL_BUTTON2) /\
     (button event = 2 -> ~ is_set (e_state F') FL_BUTTON3) /\
     (moved event F -> e_is_click F' = 0) /\
     (~ moved event F -> e_is_click F' = e_is_click F)).
Proof.
  intros (Hnd & Hpr & (n1 & Hn1 & Hb1) & (n2 & Hn2 & Hb2) & (n3 & Hn3 & Hb3) & Hbutton)
         Hbtn Hx Hy Hpx Hpy flev F'.
  split; [|split; [exact (match_mouse_event_cases Hnd)|split]].
  - unfold handle_mouse_ev. subst F' flev.
    destruct (mouse_ev eventType event F) as [F1 flev1] eqn:Hmouse.
    assert (flev1 = match_mouse_event eventType) as ->.
    { unfold mouse_ev in Hmouse.
      destruct (_ =? FL_PUSH); [|destruct (_ =? FL_RELEASE)];
        injection Hmouse as _ <-; reflexivity. }
    cbn [fst]. destruct (Fl_handle (match_mouse_event eventType) F1). reflexivity.
  - intros Hpush. subst F'. unfold mouse_ev. fold flev. rewrite Hpush, Z.eqb_refl.
    cbn [fst e_clicks e_keysym e_state e_is_click px py].
    do 4 (split; [reflexivity|]).
    split; [rewrite (add_in_range FL_Button (button event)) by in_range;
            rewrite add_in_range by in_range; reflexivity|].
    rewrite Hb1, Hb2, Hb3.
    repeat split; intros Hb; rewrite Hb; apply is_set_wrap; try lia;
      rewrite !set_button_testbit by lia; cbn [Z.eqb Pos.eqb andb];
      rewrite Z.pow2_bits_true by lia;
      rewrite ?orb_true_r, ?orb_false_r; reflexivity.
  - intros Hrel. subst F'. unfold mouse_ev. fold flev. rewrite Hrel.
    destruct (Z.eqb_spec FL_RELEASE FL_PUSH) as [Heq|_]; [congruence|].
    rewrite Z.eqb_refl. cbn [fst e_is_click e_state].
    rewrite !abs_small by assumption.
    rewrite Hb1, Hb2, Hb3.
    split; [|split; [|split]];
      try (intros Hb; rewrite Hb; rewrite is_set_wrap by lia;
           rewrite !clear_button_testbit by lia; cbn [Z.eqb Pos.eqb andb negb];
           rewrite Z.pow2_bits_true by lia;
           rewrite ?andb_true_r, ?andb_false_r; cbn; discriminate).
    unfold moved.
    destruct (Z.gtb_spec (Z.abs (clientX event - px F)) 5),
             (Z.gtb_spec (Z.abs (clientY event - py F)) 5); cbn [orb];
      split; intros; (reflexivity || lia || tauto).
Qed.

End WithEnumerations.

(** The toolkit's modifier flags are as the theorems assume them. *)
Lemma fltk_modifier_flags : modifier_flags (E := fltk_enumerations).
Proof.
  unfold modifier_flags, one_bit. cbn.
  split; [exists 16; split; [lia | reflexivity]|].
  split; [exists 18; split; [lia | reflexivity]|].
  split; [exists 19; split; [lia | reflexivity]|].
  split; [exists 22; split; [lia | reflexivity]|].
  repeat split; discriminate.
Defined.



(** The two headers' constants are as the theorem on mouse events
    assumes them. *)
Lemma fltk_mouse_constants :
  mouse_constants (E := fltk_enumerations) (H5 := emscripten_html5).
Proof.
  unfold mouse_constants, one_bit. cbn.
  split; [apply (bool_decide_unpack _); vm_compute; exact I|].
  split; [discriminate|].
  split; [exists 24; split; [lia | reflexivity]|].
  split; [exists 25; split; [lia | reflexivity]|].
  split; [exists 26; split; [lia | reflexivity]|].
  lia.
Qed.

(** C6 at the two headers' constants: the left button goes down and
    comes up ten pixels to the right. *)
Lemma handle_mouse_ev_spec_witness :
  let E := fltk_enumerations in
  let H5 := emscripten_html5 in
  let F0 := mkFl 0 0 0 0 0 0 0 EmptyString 0 0 0 0 in
  let down := mkMouseEvent 10 10 100 100 0 in
  let up := mkMouseEvent 20 10 110 100 0 in
  let F1 := fst (mouse_ev EMSCRIPTEN_EVENT_MOUSEDOWN down F0) in
  let F2 := fst (mouse_ev EMSCRIPTEN_EVENT_MOUSEUP up F1) in
  mouse_constants /\
  e_keysym F1 = FL_Button + 1 /\ is_set (e_state F1) FL_BUTTON1 /\
  e_clicks F1 = 0 /\
  e_is_click F2 = 0 /\ ~ is_set (e_state F2) FL_BUTTON1.
Proof.
  intros E H5 F0 down up F1 F2.
  split; [exact fltk_mouse_constants|].
  pose proof (handle_mouse_ev_spec (E := E) (H5 := H5) (fun _ F => (0, F))
                EMSCRIPTEN_EVENT_MOUSEDOWN down F0 fltk_mouse_constants)
    as (_ & _ & Hpush & _);
    try (unfold Int.small; cbn; lia).
  pose proof (handle_mouse_ev_spec (E := E) (H5 := H5) (fun _ F => (0, F))
                EMSCRIPTEN_EVENT_MOUSEUP up F1 fltk_mouse_constants)
    as (_ & _ & _ & Hrelease);
    try (unfold Int.small; cbn; lia).
  destruct (Hpush eq_refl) as (Hclicks & _ & _ & _ & Hkeysym & Hb1 & _).
  destruct (Hrelease eq_refl) as (Hc1 & _ & _ & Hmoved & _).
  split; [exact Hkeysym|]. split; [exact (Hb1 eq_refl)|]. split; [exact Hclicks|].
  split; [apply Hmoved; left; vm_compute; reflexivity | exact (Hc1 eq_refl)].
Defined.

End WindowFacts.

(** ** Clip regions as sets of pixels *)

Module RegionFacts.

Import Clip Region.

(** The rectangle [clip_box] writes, as two intervals. *)
Lemma clip_box_bounds (top : EmClip) (prev : list EmClip)
      (x y w h : Z) (out : box) :
  0 <= cw top -> small_rect x y w h -> small_clip top ->
  forall px py,
    in_box (snd (clip_box (top :: prev) x y w h out)) px py <->
    (Z.max x (cx top) <= px < Z.min (x + w) (cx top + cw top)) /\
    (Z.max y (cy top) <= py < Z.min (y + h) (cy top + ch top)).
Proof.
  intros Hcw Hr Hc px py.
  rewrite ClipFacts.clip_box_small by assumption. cbv zeta.
  unfold in_box, in_rect, overlap_w, overlap_h, overlap.
  destruct (Z.ltb_spec (Z.min (x + w) (cx top + cw top) - Z.max x (cx top)) 0);
    [| destruct (Z.ltb_spec (Z.min (y + h) (cy top + ch top) - Z.max y (cy top)) 0)];
    cbn [snd bX bY bW bH]; lia.
Qed.

(** X2.  Over a clip entry of non-negative width, the rectangle
    [clip_box] writes holds exactly the pixels that lie both in the
    entry and in the rectangle it was given, whatever its reference
    parameters held on entry. *)
Theorem clip_box_intersection (top : EmClip) (prev : list EmClip)
        (x y w h : Z) (out : box) :
  0 <= cw top -> small_rect x y w h -> small_clip top ->
  forall px py,
    in_box (snd (clip_box (top :: prev) x y w h out)) px py <->
    in_entry top px py /\ in_rect x y w h px py.
Proof.
  intros Hcw Hr Hc px py.
  rewrite clip_box_bounds by assumption.
  unfold in_entry, in_rect. lia.
Qed.

(** X2 at a rectangle that sticks out of the clip entry on the right. *)
Lemma clip_box_intersection_witness :
  in_box (snd (clip_box [mkEmClip 0 0 10 10] 5 5 10 2 (mkBox 0 0 0 0))) 9 6 /\
  ~ in_box (snd (clip_box [mkEmClip 0 0 10 10] 5 5 10 2 (mkBox 0 0 0 0))) 10 6.
Proof.
  assert (Hr : small_rect 5 5 10 2) by (unfold small_rect, Int.small; lia).
  assert (Hc : small_clip (mkEmClip 0 0 10 10))
    by (unfold small_clip, small_rect, Int.small; cbn; lia).
  pose proof (clip_box_intersection (mkEmClip 0 0 10 10) [] 5 5 10 2 (mkBox 0 0 0 0)
                ltac:(cbn; lia) Hr Hc) as Hiff.
  split.
  - apply Hiff. unfold in_entry, in_rect. cbn. lia.
  - intros Hin. apply Hiff in Hin. unfold in_entry, in_rect in Hin. cbn in Hin. lia.
Defined.


(** The entry [push_clip] puts on the stack is the rectangle [clip_box]
    writes over a rectangle of zeros. *)
Lemma push_clip_top (st : Driver) (x y w h : Z) :
  emclip_ (push_clip st x y w h) =
    (let b := snd (clip_box (emclip_ st) x y w h (mkBox 0 0 0 0)) in
     mkEmClip (bX b) (bY b) (bW b) (bH b)) :: emclip_ st.
Proof.
  unfold push_clip. cbn [cx cy cw ch].
  destruct (clip_box (emclip_ st) x y w h (mkBox 0 0 0 0)) as [ret b].
  destruct st; reflexivity.
Qed.

(** Without an entry of non-negative width on top, that rectangle is
    the one pushed. *)
Lemma push_clip_unclipped (st : Driver) (x y w h : Z) :
  (emclip_ st = [] \/ exists top prev, emclip_ st = top :: prev /\ cw top < 0) ->
  emclip_ (push_clip st x y w h) = mkEmClip x y w h :: emclip_ st.
Proof.
  intros Hst. rewrite push_clip_top.
  destruct Hst as [-> | (top & prev & -> & Hneg)]; [reflexivity|].
  unfold clip_box. destruct (Z.ltb_spec (cw top) 0); [reflexivity | lia].
Qed.

(** X3.  [push_clip] puts on the stack the intersection with the region
    in effect: over an entry of non-negative width the new entry has
    non-negative width and height and holds exactly the pixels of that
    entry that lie in the rectangle pushed; on an empty stack, or over
    an entry of negative width, the new entry is the rectangle pushed. *)
Theorem push_clip_region (st : Driver) (x y w h : Z) :
  exists c,
    emclip_ (push_clip st x y w h) = c :: emclip_ st /\
    (emclip_ st = [] -> c = mkEmClip x y w h) /\
    (forall top prev, emclip_ st = top :: prev -> cw top < 0 ->
       c = mkEmClip x y w h) /\
    (forall top prev, emclip_ st = top :: prev -> 0 <= cw top ->
       small_rect x y w h -> small_clip top ->
       0 <= cw c /\ 0 <= ch c /\
       forall px py, in_entry c px py <-> in_entry top px py /\ in_rect x y w h px py).
Proof.
  eexists. split; [apply push_clip_top|]. split; [|split].
  - intros Hempty.
    pose proof (push_clip_unclipped st x y w h (or_introl Hempty)) as Hpush.
    rewrite push_clip_top in Hpush. cbv zeta in *. congruence.
  - intros top prev Hst Hneg.
    pose proof (push_clip_unclipped st x y w h
                  (or_intror (ex_intro _ top (ex_intro _ prev (conj Hst Hneg)))))
      as Hpush.
    rewrite push_clip_top in Hpush. cbv zeta in *. congruence.
  - intros top prev Hst Hcw Hr Hc. rewrite Hst. cbv zeta.
    pose proof (clip_box_bounds top prev x y w h (mkBox 0 0 0 0) Hcw Hr Hc) as Hin.
    rewrite ClipFacts.clip_box_small in * by assumption. cbv zeta in *.
    unfold overlap_w, overlap_h, overlap, in_entry, in_rect, in_box, in_rect in *.
    destruct (Z.ltb_spec (Z.min (x + w) (cx top + cw top) - Z.max x (cx top)) 0);
      [| destruct (Z.ltb_spec (Z.min (y + h) (cy top + ch top) - Z.max y (cy top)) 0)];
      cbn [snd bX bY bW bH cx cy cw ch] in *;
      (split; [lia|]); (split; [lia|]); intros px py; specialize (Hin px py); lia.
Qed.

(** X3 on a stack of one entry: the pixel (9, 6) stays in the region,
    the pixel (10, 6) of the rectangle pushed does not enter it. *)
Lemma push_clip_region_witness :
  let st := mkDriver [mkEmClip 0 0 10 10] NONE 0
                     (mkMatrix 1 0 0 1 0 0)%float 0 0 "butt"%string "miter"%string [] [] in
  exists c,
    emclip_ (push_clip st 5 5 10 2) = [c; mkEmClip 0 0 10 10] /\
    in_entry c 9 6 /\ ~ in_entry c 10 6.
Proof.
  intros st.
  assert (Hr : small_rect 5 5 10 2) by (unfold small_rect, Int.small; lia).
  assert (Hc : small_clip (mkEmClip 0 0 10 10))
    by (unfold small_clip, small_rect, Int.small; cbn; lia).
  destruct (push_clip_region st 5 5 10 2) as (c & Hpush & _ & _ & Hreg).
  destruct (Hreg (mkEmClip 0 0 10 10) [] eq_refl ltac:(cbn; lia) Hr Hc) as (_ & _ & Hin).
  exists c. split; [exact Hpush|]. split.
  - apply Hin. unfold in_entry, in_rect. cbn. lia.
  - intros Hc'. apply Hin in Hc'. unfold in_entry, in_rect in Hc'. cbn in Hc'. lia.
Defined.

(** X4.  [not_clipped] is safe to act on: when it returns 0 there is a
    clip entry of non-negative width on top of the stack, and no pixel
    of the rectangle lies in it. *)
Theorem not_clipped_sound (emclip : list EmClip) (x y w h : Z) :
  not_clipped emclip x y w h = 0 ->
  exists top prev,
    emclip = top :: prev /\ 0 <= cw top /\
    (small_rect x y w h -> small_clip top ->
     forall px py, in_rect x y w h px py -> ~ in_entry top px py).
Proof.
  intros Hzero. destruct emclip as [|top prev]; [discriminate Hzero|].
  exists top, prev. split; [reflexivity|].
  assert (Hcw : 0 <= cw top).
  { unfold not_clipped in Hzero. destruct (Z.ltb_spec (cw top) 0); [discriminate | lia]. }
  split; [exact Hcw|].
  intros Hr Hc px py Hrect Hentry.
  rewrite ClipFacts.not_clipped_small in Hzero by assumption.
  unfold in_rect, in_entry, in_rect, overlap_w, overlap_h, overlap in *.
  destruct (Z.ltb_spec 0 (Z.min (x + w) (cx top + cw top) - Z.max x (cx top)));
    destruct (Z.leb_spec 0 (Z.min (y + h) (cy top + ch top) - Z.max y (cy top)));
    cbn in Hzero; try discriminate; lia.
Qed.

(** X4 at a rectangle below the clip entry. *)
Lemma not_clipped_sound_witness :
  not_clipped [mkEmClip 0 0 10 10] 0 11 5 5 = 0 /\
  ~ in_entry (mkEmClip 0 0 10 10) 2 12.
Proof.
  assert (Hzero : not_clipped [mkEmClip 0 0 10 10] 0 11 5 5 = 0) by reflexivity.
  split; [exact Hzero|].
  destruct (not_clipped_sound _ 0 11 5 5 Hzero) as (top & prev & Heq & _ & Hout).
  injection Heq as <- _.
  apply (Hout ltac:(unfold small_rect, Int.small; lia)
              ltac:(unfold small_clip, small_rect, Int.small; cbn; lia) 2 12).
  unfold in_rect. lia.
Defined.

(** X5.  A rectangle of negative width pushed on an empty clip stack,
    or over an entry of negative width, leaves an entry that reads as
    one of [push_no_clip]: after it [clip_box] returns 1 with its input
    unchanged and [not_clipped] returns 1, for every rectangle. *)
Theorem push_clip_negative_width (st : Driver) (x y w h : Z) :
  w < 0 ->
  (emclip_ st = [] \/ exists top prev, emclip_ st = top :: prev /\ cw top < 0) ->
  forall x' y' w' h' out,
    clip_box (emclip_ (push_clip st x y w h)) x' y' w' h' out = (1, mkBox x' y' w' h') /\
    not_clipped (emclip_ (push_clip st x y w h)) x' y' w' h' = 1.
Proof.
  intros Hw Hst x' y' w' h' out.
  rewrite push_clip_unclipped by exact Hst.
  unfold clip_box, not_clipped. cbn [cw].
  destruct (Z.ltb_spec w 0); [split; reflexivity | lia].
Qed.

(** X5 on an empty stack. *)
Lemma push_clip_negative_width_witness :
  let st := mkDriver [] NONE 0
                     (mkMatrix 1 0 0 1 0 0)%float 0 0 "butt"%string "miter"%string [] [] in
  not_clipped (emclip_ (push_clip st 0 0 (-5) 10)) 1000 1000 1 1 = 1.
Proof.
  intros st.
  apply (push_clip_negative_width st 0 0 (-5) 10 ltac:(lia) (or_introl eq_refl)
           1000 1000 1 1 (mkBox 0 0 0 0)).
Defined.

End RegionFacts.

(** ** Vertices of a path *)

Module VerticesFacts.

Import Path Vertices.

Lemma set_gap_em_asm (st : Driver) (l1 l2 : list canvas_call) (g1 g2 : Z) :
  set_gap (em_asm (set_gap (em_asm st l1) g1) l2) g2 = set_gap (em_asm st (l1 ++ l2)) g2.
Proof. destruct st. unfold set_gap, em_asm. cbn. now rewrite <- app_assoc. Qed.

Lemma set_gap_id (st : Driver) : set_gap (em_asm st []) (gap_ st) = st.
Proof. destruct st. unfold set_gap, em_asm. cbn. now rewrite app_nil_r. Qed.

(** One call between [begin_...] and [end_...], on a joined shape,
    touches the gap flag and the current path and nothing else. *)
Lemma run_call_joined base (st : Driver) (c : path_call) :
  joined (what st) ->
  exists new g,
    run_call base st c = set_gap (em_asm st new) g /\ Forall path_only new.
Proof.
  intros Hj. destruct st as [e0 w0 g0 m0 ls0 wd0 lc0 lj0 ld0 cs0].
  cbn [what] in Hj.
  destruct c as [x y|x y r s e|x y x1 y1 x2 y2 x3 y3|x y r]; cbn [run_call].
  - exists [if g0 =? 0 then LineTo x y else MoveTo x y], 0.
    split.
    + unfold vertex, set_gap, em_asm. cbn.
      destruct Hj as [-> | [-> | ->]]; destruct (Z.eqb_spec g0 0) as [->|?]; reflexivity.
    + constructor; [|constructor]. left. now destruct (g0 =? 0).
  - exists ((if g0 =? 1 then [BeginPath] else []) ++
            [Arc x y r (radians s) (radians e) (negb (PrimFloat.ltb e s))]), 0.
    split.
    + unfold arc, set_gap, em_asm. cbn.
      destruct Hj as [-> | [-> | ->]]; destruct (g0 =? 1); destruct (PrimFloat.ltb e s);
        cbn; rewrite <- ?app_assoc; reflexivity.
    + destruct (g0 =? 1); cbn; repeat constructor; now right.
  - exists [if g0 =? 0 then LineTo x y else MoveTo x y; BezierCurveTo x1 y1 x2 y2 x3 y3], 0.
    split.
    + unfold curve, set_gap, em_asm. cbn.
      destruct Hj as [-> | [-> | ->]]; reflexivity.
    + constructor; [left; now destruct (g0 =? 0) | constructor; [left; exact I | constructor]].
  - exists [Arc x y r 0%float (PrimFloat.mul 2%float Math_PI) false], g0.
    split.
    + unfold circle, set_gap, em_asm. cbn.
      destruct Hj as [-> | [-> | ->]]; reflexivity.
    + constructor; [left; exact I | constructor].
Qed.

Lemma run_calls_joined base (cs : list path_call) :
  forall st, joined (what st) ->
  exists body g,
    run_calls base st cs = set_gap (em_asm st body) g /\ Forall path_only body.
Proof.
  induction cs as [|c cs IH]; intros st Hj.
  - exists [], (gap_ st). split; [symmetry; apply set_gap_id | constructor].
  - destruct (run_call_joined base st c Hj) as (new & g & Hrun & Hnew).
    unfold run_calls. cbn [fold_left]. rewrite Hrun.
    destruct (IH (set_gap (em_asm st new) g)) as (body & g' & Hrest & Hbody).
    { destruct st. exact Hj. }
    unfold run_calls in Hrest. rewrite Hrest, set_gap_em_asm.
    exists (new ++ body), g'. split; [reflexivity|]. now apply Forall_app.
Qed.


(** What [end_line], [end_loop] and [end_polygon] make of a driver that
    [begin_...] opened and whose path then received [body]. *)
Ltac path_calls st :=
  destruct st; cbv - [app polyline dot map flat_map];
  rewrite <- ?app_assoc; reflexivity.
Ltac close_path st Hrun := rewrite Hrun; path_calls st.

(** X6.  Whatever calls of [vertex], [arc], [curve] and [circle] a
    program makes between [begin_line], [begin_loop] or [begin_polygon]
    and the matching [end_...], the canvas receives the save, transform
    and beginPath of the opening, then calls that only touch the current
    path, then the reset of the transform, the stroke or fill and one
    restore; the shape is back at [NONE] with the gap flag set, and the
    rest of the driver is as before. *)
Theorem path_bracket
  (base_curve : Driver -> double -> double -> double -> double ->
                double -> double -> double -> double -> Driver)
  (st : Driver) (cs : list path_call) :
  (exists body, Forall path_only body /\
     end_line (run_calls base_curve (begin_line st) cs) =
       set_what (set_gap (em_asm st (opening st ++ body ++
                                     [ResetTransform; Stroke; Restore])) 1) NONE) /\
  (exists body, Forall path_only body /\
     end_loop (run_calls base_curve (begin_loop st) cs) =
       set_what (set_gap (em_asm st (opening st ++ body ++
                                     [ResetTransform; ClosePath; Stroke; Restore])) 1) NONE) /\
  (exists body, Forall path_only body /\
     end_polygon (run_calls base_curve (begin_polygon st) cs) =
       set_what (set_gap (em_asm st (opening st ++ body ++
                                     [ResetTransform; ClosePath; Fill; Restore])) 1) NONE).
Proof.
  split; [|split].
  - destruct (run_calls_joined base_curve cs (begin_line st)) as (body & g & Hrun & Hbody).
    { destruct st. left. reflexivity. }
    exists body. split; [exact Hbody|]. close_path st Hrun.
  - destruct (run_calls_joined base_curve cs (begin_loop st)) as (body & g & Hrun & Hbody).
    { destruct st. right. left. reflexivity. }
    exists body. split; [exact Hbody|]. close_path st Hrun.
  - destruct (run_calls_joined base_curve cs (begin_polygon st)) as (body & g & Hrun & Hbody).
    { destruct st. right. right. reflexivity. }
    exists body. split; [exact Hbody|]. close_path st Hrun.
Qed.

(** Vertices after the first, on a shape other than [POINTS]. *)
Lemma vertices_lines (vs : list (double * double)) :
  forall st, what st <> POINTS -> gap_ st = 0 ->
  vertices st vs = set_gap (em_asm st (map (fun p => LineTo (fst p) (snd p)) vs)) 0.
Proof.
  induction vs as [|v vs IH]; intros st Hw Hg.
  - rewrite <- Hg. symmetry. apply set_gap_id.
  - unfold vertices. cbn [fold_left map].
    assert (Hv : vertex st (fst v) (snd v) = set_gap (em_asm st [LineTo (fst v) (snd v)]) 0).
    { destruct st as [e0 w0 g0 m0 ls0 wd0 lc0 lj0 ld0 cs0]. cbn in Hw, Hg. subst g0.
      unfold vertex, set_gap, em_asm. cbn. destruct w0; try reflexivity. contradiction. }
    rewrite Hv. fold (vertices (set_gap (em_asm st [LineTo (fst v) (snd v)]) 0) vs).
    rewrite IH; [| destruct st; exact Hw | destruct st; reflexivity].
    now rewrite set_gap_em_asm.
Qed.

(** Vertices from the first on, on a shape other than [POINTS] with the
    gap flag set. *)
Lemma vertices_polyline (vs : list (double * double)) (st : Driver) :
  what st <> POINTS -> gap_ st <> 0 ->
  vertices st vs = set_gap (em_asm st (polyline vs)) (match vs with [] => gap_ st | _ => 0 end).
Proof.
  intros Hw Hg. destruct vs as [|v vs].
  - symmetry. apply set_gap_id.
  - unfold vertices. cbn [fold_left polyline].
    assert (Hv : vertex st (fst v) (snd v) = set_gap (em_asm st [MoveTo (fst v) (snd v)]) 0).
    { destruct st as [e0 w0 g0 m0 ls0 wd0 lc0 lj0 ld0 cs0]. cbn in Hw, Hg.
      unfold vertex, set_gap, em_asm. cbn.
      destruct (Z.eqb_spec g0 0); [contradiction|].
      destruct w0; try reflexivity. contradiction. }
    rewrite Hv. fold (vertices (set_gap (em_asm st [MoveTo (fst v) (snd v)]) 0) vs).
    rewrite vertices_lines; [| destruct st; exact Hw | destruct st; reflexivity].
    now rewrite set_gap_em_asm.
Qed.

(** Vertices while the shape is [POINTS]. *)
Lemma vertices_dots (vs : list (double * double)) :
  forall st, what st = POINTS ->
  vertices st vs = set_gap (em_asm st (flat_map dot vs)) (match vs with [] => gap_ st | _ => 1 end).
Proof.
  induction vs as [|v vs IH]; intros st Hw.
  - symmetry. apply set_gap_id.
  - unfold vertices. cbn [fold_left flat_map].
    assert (Hv : vertex st (fst v) (snd v) = set_gap (em_asm st (dot v)) 1).
    { destruct st as [e0 w0 g0 m0 ls0 wd0 lc0 lj0 ld0 cs0]. cbn in Hw. subst w0.
      reflexivity. }
    rewrite Hv. fold (vertices (set_gap (em_asm st (dot v)) 1) vs).
    rewrite IH by (destruct st; exact Hw).
    rewrite set_gap_em_asm. destruct vs; destruct st; reflexivity.
Qed.

(** X7.  The canvas calls of a shape given by its vertices.  After
    [begin_line], [begin_loop] or [begin_polygon] the first vertex is a
    move and every other a line; after [begin_complex_polygon] every
    vertex is a line, the first as well; after [begin_points] every
    vertex is a move, a unit square around the point and a fill.  The
    matching [end_...] resets the transform, strokes or fills, and
    restores. *)
Theorem vertices_calls (st : Driver) (vs : list (double * double)) :
  end_line (vertices (begin_line st) vs) =
    set_what (set_gap (em_asm st (opening st ++ polyline vs ++
                                  [ResetTransform; Stroke; Restore])) 1) NONE /\
  end_loop (vertices (begin_loop st) vs) =
    set_what (set_gap (em_asm st (opening st ++ polyline vs ++
                                  [ResetTransform; ClosePath; Stroke; Restore])) 1) NONE /\
  end_polygon (vertices (begin_polygon st) vs) =
    set_what (set_gap (em_asm st (opening st ++ polyline vs ++
                                  [ResetTransform; ClosePath; Fill; Restore])) 1) NONE /\
  end_complex_polygon (vertices (begin_complex_polygon st) vs) =
    set_what (set_gap (em_asm st (opening st ++
                                  map (fun p => LineTo (fst p) (snd p)) vs ++
                                  [ResetTransform; ClosePath; Fill; Restore])) 1) NONE /\
  end_points (vertices (begin_points st) vs) =
    set_what (set_gap (em_asm st (opening st ++ flat_map dot vs ++
                                  [ResetTransform; Stroke; Restore])) 1) NONE.
Proof.
  split; [|split; [|split; [|split]]].
  - rewrite vertices_polyline by (destruct st; cbn; (discriminate || lia)).
    path_calls st.
  - rewrite vertices_polyline by (destruct st; cbn; (discriminate || lia)).
    path_calls st.
  - rewrite vertices_polyline by (destruct st; cbn; (discriminate || lia)).
    path_calls st.
  - rewrite vertices_lines by (destruct st; cbn; (discriminate || reflexivity)).
    path_calls st.
  - rewrite vertices_dots by (destruct st; reflexivity).
    path_calls st.
Qed.

(** Circles on a joined shape leave the gap flag as it is. *)
Lemma circles_joined (cs : list (double * double * double)) :
  forall st, joined (what st) ->
  circles st cs = set_gap (em_asm st (map circle_arc cs)) (gap_ st).
Proof.
  induction cs as [|c cs IH]; intros st Hj.
  - symmetry. apply set_gap_id.
  - unfold circles. cbn [fold_left map].
    assert (Hc : circle st (fst (fst c)) (snd (fst c)) (snd c)
                 = set_gap (em_asm st [circle_arc c]) (gap_ st)).
    { destruct st as [e0 w0 g0 m0 ls0 wd0 lc0 lj0 ld0 cs0]. cbn in Hj.
      unfold circle, circle_arc, set_gap, em_asm. cbn.
      destruct Hj as [-> | [-> | ->]]; reflexivity. }
    rewrite Hc. fold (circles (set_gap (em_asm st [circle_arc c]) (gap_ st)) cs).
    rewrite IH by (destruct st; exact Hj).
    rewrite set_gap_em_asm. destruct st; reflexivity.
Qed.

(** X8.  Inside [begin_line], [begin_loop] or [begin_polygon], circles
    added before any vertex, arc or curve leave the gap flag set: the
    [arc] that follows them begins a new canvas path after the circles,
    and only then adds its own arc. *)
Theorem arc_after_circles (st : Driver) (cs : list (double * double * double))
        (x y r start end_ : double) :
  joined (what st) -> gap_ st = 1 ->
  arc (circles st cs) x y r start end_ =
    set_gap (em_asm st (map circle_arc cs ++
                        [BeginPath;
                         Arc x y r (radians start) (radians end_)
                             (negb (PrimFloat.ltb end_ start))])) 0.
Proof.
  intros Hj Hg. rewrite circles_joined by exact Hj.
  destruct st as [e0 w0 g0 m0 ls0 wd0 lc0 lj0 ld0 cs0]. cbn in Hj, Hg. subst g0.
  unfold arc, set_gap, em_asm. cbn.
  destruct Hj as [-> | [-> | ->]]; destruct (PrimFloat.ltb end_ start);
    cbn; rewrite <- ?app_assoc; reflexivity.
Qed.

(** X8 right after [begin_polygon]. *)
Lemma arc_after_circles_witness :
  let st0 := mkDriver [] NONE 0 (mkMatrix 1 0 0 1 0 0)%float 0 0
                      "butt"%string "miter"%string [] [] in
  joined (what (begin_polygon st0)) /\ gap_ (begin_polygon st0) = 1 /\
  ctxt (arc (circles (begin_polygon st0) [(5, 5, 2)%float]) 0 0 1 0 90)%float =
    (opening st0 ++
     [circle_arc (5, 5, 2); BeginPath; Arc 0 0 1 (radians 0) (radians 90) true])%float.
Proof.
  intros st0.
  assert (Hj : joined (what (begin_polygon st0))) by (right; right; reflexivity).
  split; [exact Hj|]. split; [reflexivity|].
  rewrite (arc_after_circles (begin_polygon st0) [(5, 5, 2)%float]
             0%float 0%float 1%float 0%float 90%float Hj eq_refl).
  reflexivity.
Defined.

End VerticesFacts.

(** ** Sequences of browser events *)

Module EventsFacts.

Import Window Events.

Section WithEnumerations.

Context {E : Enumerations} {H5 : Html5} {K : KeyEvents}.

Lemma pow2_testbit_apart (k n : Z) :
  0 <= k -> 0 <= n -> k <> n -> Z.testbit (2 ^ k) n = false.
Proof. intros Hk Hn Hne. rewrite Z.pow2_bits_eqb by lia. now apply Z.eqb_neq. Qed.

(** The state [mouse_ev] stores, bit by bit, inside the mask. *)
Lemma mouse_state_low (eventType : Z) (event : EmscriptenMouseEvent) (F : Fl) (n : Z) :
  button_flags -> 16 <= n < 24 ->
  Z.testbit (e_state (fst (mouse_ev eventType event F))) n = Z.testbit (e_state F) n.
Proof.
  intros ((n1 & Hn1 & Hb1) & (n2 & Hn2 & Hb2) & (n3 & Hn3 & Hb3) & _) Hn.
  unfold mouse_ev.
  destruct (_ =? FL_PUSH); [|destruct (_ =? FL_RELEASE)]; cbn [fst e_state];
    rewrite wrap_testbit by lia;
    rewrite ?WindowFacts.set_button_testbit, ?WindowFacts.clear_button_testbit by lia;
    rewrite to_ulong_testbit, Z.land_spec, mask_testbit by lia;
    rewrite ?Hb1, ?Hb2, ?Hb3, ?pow2_testbit_apart by lia;
    (destruct (Z.leb_spec 16 n); [|lia]); (destruct (Z.ltb_spec n 24); [|lia]);
    cbn [andb negb]; rewrite ?andb_false_r, ?andb_true_r, ?orb_false_r; reflexivity.
Qed.

(** The state [mouse_ev] stores, bit by bit, above the mask. *)
Lemma mouse_state_high (eventType : Z) (event : EmscriptenMouseEvent) (F : Fl)
      (n1 n2 n3 n : Z) :
  FL_BUTTON1 = 2 ^ n1 -> FL_BUTTON2 = 2 ^ n2 -> FL_BUTTON3 = 2 ^ n3 ->
  0 <= n1 -> 0 <= n2 -> 0 <= n3 -> 24 <= n < 31 ->
  Z.testbit (e_state (fst (mouse_ev eventType event F))) n =
    (match_mouse_event eventType =? FL_PUSH)
    && (((button event =? 0) && (n1 =? n)) || ((button event =? 1) && (n2 =? n))
        || ((button event =? 2) && (n3 =? n))).
Proof.
  intros Hb1 Hb2 Hb3 Hn1 Hn2 Hn3 Hn.
  unfold mouse_ev.
  destruct (_ =? FL_PUSH); [|destruct (_ =? FL_RELEASE)]; cbn [fst e_state andb];
    rewrite wrap_testbit by lia;
    rewrite ?WindowFacts.set_button_testbit, ?WindowFacts.clear_button_testbit by lia;
    rewrite to_ulong_testbit, Z.land_spec, mask_testbit by lia;
    rewrite ?Hb1, ?Hb2, ?Hb3, ?Z.pow2_bits_eqb by lia;
    (destruct (Z.leb_spec 16 n); [|lia]); (destruct (Z.ltb_spec n 24); [lia|]);
    cbn [andb]; rewrite ?andb_false_r; cbn [orb andb].
  - reflexivity.
  - destruct (button event =? 0), (button event =? 1), (button event =? 2),
      (n1 =? n), (n2 =? n), (n3 =? n); reflexivity.
  - reflexivity.
Qed.

(** X9.  After a mouse event the flag of a button is set in
    [Fl::e_state] exactly when the event is a press of that button: the
    handler starts from [Fl::e_state & 0xff0000], which holds no button
    flag, so a button held down is not reported by the events that
    follow its press, and no two buttons are reported at once. *)
Theorem button_flag_only_on_press (eventType : Z) (event : EmscriptenMouseEvent) (F : Fl) :
  button_flags ->
  let F' := fst (mouse_ev eventType event F) in
  (is_set (e_state F') FL_BUTTON1 <->
     match_mouse_event eventType = FL_PUSH /\ button event = 0) /\
  (is_set (e_state F') FL_BUTTON2 <->
     match_mouse_event eventType = FL_PUSH /\ button event = 1) /\
  (is_set (e_state F') FL_BUTTON3 <->
     match_mouse_event eventType = FL_PUSH /\ button event = 2).
Proof.
  intros ((n1 & Hn1 & Hb1) & (n2 & Hn2 & Hb2) & (n3 & Hn3 & Hb3) & H12 & H13 & H23) F'.
  assert (n1 <> n2) by (intros ->; congruence).
  assert (n1 <> n3) by (intros ->; congruence).
  assert (n2 <> n3) by (intros ->; congruence).
  assert (Hbit : forall n, 24 <= n < 31 ->
            Z.testbit (e_state F') n =
              (match_mouse_event eventType =? FL_PUSH)
              && (((button event =? 0) && (n1 =? n)) || ((button event =? 1) && (n2 =? n))
                  || ((button event =? 2) && (n3 =? n))))
    by (intros n Hn; apply mouse_state_high; (assumption || lia)).
  pose proof (Hbit n1 Hn1) as B1. pose proof (Hbit n2 Hn2) as B2.
  pose proof (Hbit n3 Hn3) as B3.
  rewrite Hb1, Hb2, Hb3. rewrite !WindowFacts.is_set_testbit by lia.
  rewrite B1, B2, B3.
  repeat match goal with
         | |- context [?a =? ?b] =>
             lazymatch a with
             | button event => fail
             | match_mouse_event _ => fail
             | _ => first [ replace (a =? b) with true by lia
                          | replace (a =? b) with false by lia ]
             end
         end.
  destruct (Z.eqb_spec (match_mouse_event eventType) FL_PUSH);
    destruct (Z.eqb_spec (button event) 0);
    destruct (Z.eqb_spec (button event) 1);
    destruct (Z.eqb_spec (button event) 2); cbn; intuition (congruence || lia).
Qed.

(** [Fl::handle], a function of the toolkit core. *)
Variable Fl_handle : Z -> Fl -> Z * Fl.

(** One event and one modifier flag. *)
Lemma deliver_flag (flag : Z) (modifier : EmscriptenKeyboardEvent -> bool) :
  keeps_state Fl_handle -> button_flags -> one_bit 16 24 flag ->
  (forall ev F, is_set (e_state (set_keysym_and_state ev F)) flag <->
                modifier ev = true \/ is_set (e_state F) flag) ->
  forall F e,
    is_set (e_state (deliver Fl_handle F e)) flag <->
    is_set (e_state F) flag \/ pressed modifier e.
Proof.
  intros Hkeep Hbuttons (n & Hn & ->) Hkey F e.
  destruct e as [t ev|t ev]; cbn [deliver pressed].
  - unfold handle_key_ev.
    destruct (Fl_handle (match_key_event t) (set_keysym_and_state ev F)) as [ret F2] eqn:Hh.
    cbn [snd].
    pose proof (Hkeep (match_key_event t) (set_keysym_and_state ev F)) as Hs.
    rewrite Hh in Hs. cbn [snd] in Hs. rewrite Hs, Hkey. tauto.
  - unfold handle_mouse_ev.
    pose proof (mouse_state_low t ev F n Hbuttons Hn) as Hlow.
    destruct (mouse_ev t ev F) as [F1 flev]. cbn [fst] in Hlow.
    destruct (Fl_handle flev F1) as [ret F2] eqn:Hh. cbn [snd].
    pose proof (Hkeep flev F1) as Hs. rewrite Hh in Hs. cbn [snd] in Hs.
    rewrite Hs, !WindowFacts.is_set_testbit, Hlow by lia. tauto.
Qed.

Lemma deliver_all_flag (flag : Z) (modifier : EmscriptenKeyboardEvent -> bool) :
  keeps_state Fl_handle -> button_flags -> one_bit 16 24 flag ->
  (forall ev F, is_set (e_state (set_keysym_and_state ev F)) flag <->
                modifier ev = true \/ is_set (e_state F) flag) ->
  forall es F,
    is_set (e_state (deliver_all Fl_handle F es)) flag <->
    is_set (e_state F) flag \/ Exists (pressed modifier) es.
Proof.
  intros Hkeep Hbuttons Hflag Hkey es.
  induction es as [|e es IH]; intros F.
  - cbn. rewrite Exists_nil. tauto.
  - unfold deliver_all. cbn [fold_left]. fold (deliver_all Fl_handle (deliver Fl_handle F e) es).
    rewrite IH, (deliver_flag flag modifier Hkeep Hbuttons Hflag Hkey), Exists_cons. tauto.
Qed.

(** X10.  The handlers never clear a modifier flag.  When [Fl::handle]
    leaves [Fl::e_state] alone, each of [FL_CTRL], [FL_ALT], [FL_SHIFT]
    and [FL_META] is set after a sequence of keyboard and mouse events
    exactly when it was set before the sequence or one of its keyboard
    events carried the modifier, however many events without the
    modifier came after. *)
Theorem modifiers_accumulate (F : Fl) (es : list browser_event) :
  keeps_state Fl_handle -> modifier_flags -> button_flags ->
  let F' := deliver_all Fl_handle F es in
  (is_set (e_state F') FL_CTRL <->
     is_set (e_state F) FL_CTRL \/ Exists (pressed ctrlKey) es) /\
  (is_set (e_state F') FL_ALT <->
     is_set (e_state F) FL_ALT \/ Exists (pressed altKey) es) /\
  (is_set (e_state F') FL_SHIFT <->
     is_set (e_state F) FL_SHIFT \/ Exists (pressed shiftKey) es) /\
  (is_set (e_state F') FL_META <->
     is_set (e_state F) FL_META \/ Exists (pressed metaKey) es).
Proof.
  intros Hkeep Hflags Hbuttons F'. subst F'.
  pose proof Hflags as (Hs & Hc & Ha & Hm & _).
  repeat split;
    (apply deliver_all_flag; [exact Hkeep | exact Hbuttons | assumption |]);
    intros ev F0; apply (WindowFacts.modifiers_after ev F0 Hflags).
Qed.

End WithEnumerations.

(** The toolkit's button flags are as the theorems assume them. *)
Lemma fltk_button_flags : button_flags (E := fltk_enumerations).
Proof.
  unfold button_flags, one_bit. cbn.
  split; [exists 24; split; [lia | reflexivity]|].
  split; [exists 25; split; [lia | reflexivity]|].
  split; [exists 26; split; [lia | reflexivity]|].
  repeat split; discriminate.
Qed.

(** X9 at the two headers' constants: the left button goes down, and the
    pointer moves with the button held; the move no longer reports it. *)
Lemma button_flag_only_on_press_witness :
  let E := fltk_enumerations in
  let H5 := emscripten_html5 in
  let F0 := mkFl 0 0 0 0 0 0 0 EmptyString 0 0 0 0 in
  let down := mkMouseEvent 10 10 100 100 0 in
  let drag := mkMouseEvent 20 10 110 100 0 in
  let F1 := fst (mouse_ev EMSCRIPTEN_EVENT_MOUSEDOWN down F0) in
  let F2 := fst (mouse_ev EMSCRIPTEN_EVENT_MOUSEMOVE drag F1) in
  button_flags /\
  is_set (e_state F1) FL_BUTTON1 /\ ~ is_set (e_state F2) FL_BUTTON1.
Proof.
  intros E H5 F0 down drag F1 F2.
  split; [exact fltk_button_flags|].
  pose proof (button_flag_only_on_press (E := E) (H5 := H5)
                EMSCRIPTEN_EVENT_MOUSEDOWN down F0 fltk_button_flags) as (Hdown & _).
  pose proof (button_flag_only_on_press (E := E) (H5 := H5)
                EMSCRIPTEN_EVENT_MOUSEMOVE drag F1 fltk_button_flags) as (Hdrag & _).
  split; [apply Hdown; split; reflexivity|].
  intros Hset. apply Hdrag in Hset as [Hpush _]. vm_compute in Hpush. discriminate Hpush.
Defined.

(** X10 at the two headers' constants, with an [Fl::handle] that
    accepts nothing: Control goes down, then a plain key and a mouse
    move arrive; the Control flag is still set. *)
Lemma modifiers_accumulate_witness :
  let E := fltk_enumerations in
  let H5 := emscripten_html5 in
  let K := fltk_key_events in
  let Fl_handle := fun (_ : Z) (F : Fl) => (0, F) in
  let F0 := mkFl 0 0 0 0 0 0 0 EmptyString 0 0 0 0 in
  let es := [KeyboardEvent EMSCRIPTEN_EVENT_KEYDOWN
               (mkKeyboardEvent "Control" true false false false);
             KeyboardEvent EMSCRIPTEN_EVENT_KEYDOWN
               (mkKeyboardEvent "a" false false false false);
             MouseEvent EMSCRIPTEN_EVENT_MOUSEMOVE (mkMouseEvent 20 10 110 100 0)] in
  keeps_state Fl_handle /\ modifier_flags /\ button_flags /\
  is_set (e_state (deliver_all Fl_handle F0 es)) FL_CTRL /\
  ~ is_set (e_state (deliver_all Fl_handle F0 es)) FL_SHIFT.
Proof.
  intros E H5 K Fl_handle F0 es.
  assert (Hkeep : keeps_state Fl_handle) by (intros flev F; reflexivity).
  pose proof (modifiers_accumulate (E := E) (H5 := H5) (K := K) Fl_handle F0 es
                Hkeep WindowFacts.fltk_modifier_flags fltk_button_flags)
    as (Hctrl & _ & Hshift & _).
  split; [exact Hkeep|]. split; [exact WindowFacts.fltk_modifier_flags|].
  split; [exact fltk_button_flags|].
  split.
  - apply Hctrl. right. apply Exists_cons_hd. reflexivity.
  - intros Hset. apply Hshift in Hset as [Hset|Hex].
    + apply Hset. vm_compute. reflexivity.
    + repeat (apply Exists_cons in Hex as [Hex|Hex]; [cbn in Hex; (discriminate Hex || contradiction)|]).
      apply Exists_nil in Hex. exact Hex.
Defined.

End EventsFacts.


(** ** Text input: [compose] *)

Module ScreenFacts.

Import Window Events Screen.

(** The two bit tests of [compose] on a byte. *)
Lemma byte_tests (c : ascii) :
  let a := Z.of_N (N_of_ascii c) in
  0 <= a < 256 /\
  (Z.land a 128 =? 0) = (a <? 128) /\
  (Z.land a (Z.lnot 31) =? 0) = (a <? 32).
Proof.
  destruct c as [[] [] [] [] [] [] [] []]; vm_compute; repeat split; discriminate.
Qed.

Lemma first_uchar_tests (text : string) :
  let a := first_uchar text in
  0 <= a < 256 /\
  (Z.land a 128 =? 0) = (a <? 128) /\
  (Z.land a (Z.lnot 31) =? 0) = (a <? 32).
Proof.
  destruct text as [|c text]; [vm_compute; repeat split; discriminate|].
  apply byte_tests.
Qed.

(** A test against flags joined with [|] is a test against one of them. *)
Lemma is_set_lor (state a b : Z) :
  is_set state (Z.lor a b) <-> is_set state a \/ is_set state b.
Proof.
  unfold is_set. rewrite Z.land_lor_distr_r, Z.lor_eq_0_iff.
  destruct (Z.eq_dec (Z.land state a) 0), (Z.eq_dec (Z.land state b) 0); tauto.
Qed.

Section WithEnumerations.

Context {E : Enumerations} {H5 : Html5} {K : KeyEvents}.

Lemma command_key_test (state : Z) :
  (Z.land state (Z.lor (Z.lor FL_ALT FL_META) FL_CTRL) =? 0) = false <->
  command_key state.
Proof.
  unfold command_key. rewrite Z.eqb_neq.
  change (is_set state (Z.lor (Z.lor FL_ALT FL_META) FL_CTRL) <->
          is_set state FL_ALT \/ is_set state FL_META \/ is_set state FL_CTRL).
  rewrite !is_set_lor. tauto.
Qed.

(** [compose] in its three cases. *)
Lemma compose_cases (F : Fl) (compose_state : Z) :
  let a := first_uchar (e_text F) in
  (command_key (e_state F) /\ a < 128 /\ compose F compose_state = (0, 0, compose_state)) \/
  (~ (command_key (e_state F) /\ a < 128) /\ ~ printable a /\
   compose F compose_state = (0, compose_state, 0)) \/
  (~ (command_key (e_state F) /\ a < 128) /\ printable a /\
   compose F compose_state = (1, compose_state, 0)).
Proof.
  intros a. unfold compose. fold a.
  destruct (first_uchar_tests (e_text F)) as (Ha & H128 & H32). fold a in Ha, H128, H32.
  rewrite H128, H32. pose proof (command_key_test (e_state F)) as Hkey.
  unfold printable.
  destruct (Z.land (e_state F) _ =? 0) eqn:Hland; cbn [negb andb].
  - assert (~ command_key (e_state F)) by (intros Hc; apply Hkey in Hc; discriminate).
    destruct (Z.ltb_spec a 32); destruct (Z.eqb_spec a 127); cbn [negb andb];
      [right; left | right; left | right; left | right; right];
      (split; [tauto|]); (split; [lia | reflexivity]).
  - assert (command_key (e_state F)) by (apply Hkey; reflexivity).
    destruct (Z.ltb_spec a 128); cbn [negb andb].
    + left. split; [assumption|]. split; [assumption | reflexivity].
    + destruct (Z.ltb_spec a 32); [lia|]. destruct (Z.eqb_spec a 127); [lia|].
      cbn [negb andb]. right; right. split; [lia|]. split; [lia | reflexivity].
Qed.

(** X11.  [compose] returns 1, for a character to insert, exactly when
    the first byte of [Fl::e_text] is neither a control character nor
    DEL and either is not ASCII or arrives with none of Alt, Meta and
    Control set in [Fl::e_state]; otherwise it returns 0.  With one of
    the three set and an ASCII byte it stores 0 in [del] and leaves
    [Fl::compose_state] alone; in every other case it stores the old
    [Fl::compose_state] in [del] and clears it. *)
Theorem compose_spec (F : Fl) (compose_state : Z) :
  let a := first_uchar (e_text F) in
  let function_key := command_key (e_state F) /\ a < 128 in
  let '(ret, del, compose_state') := compose F compose_state in
  (ret = 1 <-> printable a /\ ~ function_key) /\
  (ret <> 1 -> ret = 0) /\
  (function_key -> del = 0 /\ compose_state' = compose_state) /\
  (~ function_key -> del = compose_state /\ compose_state' = 0).
Proof.
  intros a function_key.
  destruct (compose_cases F compose_state) as [(Hk & Ha & ->)|[(Hn & Hp & ->)|(Hn & Hp & ->)]];
    fold a in Ha || fold a in Hn, Hp; subst function_key.
  - split; [split; [discriminate | tauto]|]. split; [reflexivity|]. tauto.
  - split; [split; [discriminate | tauto]|]. split; [reflexivity|]. tauto.
  - split; [tauto|]. split; [congruence|]. tauto.
Qed.

(** X12.  [compose] after a key event.  A key of the table of special
    keys is never inserted: [compose] returns 0.  A key that is not in
    the table and starts with a printable ASCII character is inserted,
    when the event carries none of Alt, Meta and Control and none of
    them was set before it: [compose] returns 1, passes the old
    [Fl::compose_state] in [del] and clears it. *)
Theorem compose_after_key (ev : EmscriptenKeyboardEvent) (F : Fl) (compose_state : Z) :
  modifier_flags ->
  let F' := set_keysym_and_state ev F in
  (special_key (key ev) >= 0 -> fst (fst (compose F' compose_state)) = 0) /\
  (special_key (key ev) < 0 ->
   printable (first_uchar (key ev)) -> first_uchar (key ev) < 128 ->
   ctrlKey ev = false -> altKey ev = false -> metaKey ev = false ->
   ~ command_key (e_state F) ->
   compose F' compose_state = (1, compose_state, 0)).
Proof.
  intros Hflags F'.
  assert (Htext : e_text F' =
                  if special_key (key ev) >=? 0 then EmptyString else key ev).
  { unfold F', set_keysym_and_state. destruct (special_key (key ev) >=? 0); reflexivity. }
  split.
  - intros Hs. destruct (Z.geb_spec (special_key (key ev)) 0) as [_|?]; [|lia].
    destruct (compose_cases F' compose_state) as [(_ & _ & ->)|[(_ & _ & ->)|(_ & Hp & _)]];
      [reflexivity | reflexivity |].
    rewrite Htext in Hp. unfold printable in Hp. cbn in Hp. lia.
  - intros Hs Hp Ha Hc Halt Hm Hno.
    destruct (Z.geb_spec (special_key (key ev)) 0) as [?|_]; [lia|].
    destruct (WindowFacts.modifiers_after ev F Hflags) as (Hctrl & Halt' & _ & Hmeta).
    fold F' in Hctrl, Halt', Hmeta.
    assert (Hno' : ~ command_key (e_state F')).
    { unfold command_key in *. rewrite Hctrl, Halt', Hmeta, Hc, Halt, Hm.
      intuition discriminate. }
    destruct (compose_cases F' compose_state) as [(Hk & _)|[(_ & Hnp & _)|(_ & _ & ->)]];
      [contradiction | | reflexivity].
    rewrite Htext in Hnp. contradiction.
Qed.

Variable Fl_handle : Z -> Fl -> Z * Fl.

(** X13.  Control, Alt and Meta stick.  Once a keyboard event has
    carried one of them, and [Fl::handle] leaves [Fl::e_state] alone,
    [compose] treats every later ASCII byte as a function key: it
    returns 0 with [del] at 0, whatever the events since, the release
    of the modifier among them. *)
Theorem compose_after_command_key (F : Fl) (es : list browser_event) (compose_state : Z) :
  keeps_state Fl_handle -> modifier_flags -> button_flags ->
  Exists command_event es ->
  let F' := deliver_all Fl_handle F es in
  first_uchar (e_text F') < 128 ->
  compose F' compose_state = (0, 0, compose_state).
Proof.
  intros Hkeep Hflags Hbuttons Hex F' Ha.
  pose proof Hflags as (_ & Hc & Halt & Hm & _).
  assert (Hkey : command_key (e_state F')).
  { unfold command_key, F'.
    apply Exists_exists in Hex as (e & Hin & [He|[He|He]]).
    - left. eapply (EventsFacts.deliver_all_flag Fl_handle FL_ALT altKey); try eassumption.
      + intros ev F0. apply (WindowFacts.modifiers_after ev F0 Hflags).
      + right. apply Exists_exists. eauto.
    - right; left.
      eapply (EventsFacts.deliver_all_flag Fl_handle FL_META metaKey); try eassumption.
      + intros ev F0. apply (WindowFacts.modifiers_after ev F0 Hflags).
      + right. apply Exists_exists. eauto.
    - right; right.
      eapply (EventsFacts.deliver_all_flag Fl_handle FL_CTRL ctrlKey); try eassumption.
      + intros ev F0. apply (WindowFacts.modifiers_after ev F0 Hflags).
      + right. apply Exists_exists. eauto. }
  destruct (compose_cases F' compose_state) as [(_ & _ & ->)|[(Hn & _)|(Hn & _)]];
    [reflexivity | tauto | tauto].
Qed.

End WithEnumerations.

(** X12 at the toolkit's constants: the key "a" is inserted, the key
    "Enter" is not. *)
Lemma compose_after_key_witness :
  let E := fltk_enumerations in
  let F := mkFl 0 0 0 0 0 0 0 EmptyString 0 0 0 0 in
  let a := mkKeyboardEvent "a" false false false false in
  let enter := mkKeyboardEvent "Enter" false false false false in
  modifier_flags /\
  compose (set_keysym_and_state a F) 7 = (1, 7, 0) /\
  fst (fst (compose (set_keysym_and_state enter F) 7)) = 0.
Proof.
  intros E F a enter.
  split; [exact WindowFacts.fltk_modifier_flags|].
  pose proof (compose_after_key (E := E) a F 7 WindowFacts.fltk_modifier_flags)
    as (_ & Hplain).
  pose proof (compose_after_key (E := E) enter F 7 WindowFacts.fltk_modifier_flags)
    as (Hspecial & _).
  split.
  - apply Hplain; try reflexivity.
    + unfold printable. cbn. lia.
    + unfold command_key, is_set. cbn. tauto.
  - apply Hspecial. vm_compute. discriminate.
Defined.

(** X13 at the two headers' constants, with an [Fl::handle] that
    accepts nothing: Control goes down and comes up, then "a" is typed
    and not inserted. *)
Lemma compose_after_command_key_witness :
  let E := fltk_enumerations in
  let H5 := emscripten_html5 in
  let K := fltk_key_events in
  let Fl_handle := fun (_ : Z) (F : Fl) => (0, F) in
  let F := mkFl 0 0 0 0 0 0 0 EmptyString 0 0 0 0 in
  let es := [KeyboardEvent EMSCRIPTEN_EVENT_KEYDOWN
               (mkKeyboardEvent "Control" true false false false);
             KeyboardEvent EMSCRIPTEN_EVENT_KEYUP
               (mkKeyboardEvent "Control" false false false false);
             KeyboardEvent EMSCRIPTEN_EVENT_KEYDOWN
               (mkKeyboardEvent "a" false false false false)] in
  keeps_state Fl_handle /\ modifier_flags /\ button_flags /\
  Exists command_event es /\
  e_text (deliver_all Fl_handle F es) = "a"%string /\
  compose (deliver_all Fl_handle F es) 7 = (0, 0, 7).
Proof.
  intros E H5 K Fl_handle F es.
  assert (Hkeep : keeps_state Fl_handle) by (intros flev F0; reflexivity).
  assert (Hex : Exists command_event es)
    by (apply Exists_cons_hd; right; right; reflexivity).
  split; [exact Hkeep|]. split; [exact WindowFacts.fltk_modifier_flags|].
  split; [exact EventsFacts.fltk_button_flags|]. split; [exact Hex|].
  split; [reflexivity|].
  apply (compose_after_command_key (E := E) (H5 := H5) (K := K) Fl_handle F es 7
           Hkeep WindowFacts.fltk_modifier_flags EventsFacts.fltk_button_flags Hex).
  vm_compute. reflexivity.
Defined.

End ScreenFacts.

(** ** The file chooser *)

Module FileChooserFacts.

Import FileChooser.

(** A property of each character of a given string. *)
Ltac each_char :=
  repeat first [ apply List.Forall_nil | apply List.Forall_cons; [repeat split; discriminate|] ].

(** After a star the outer loop runs the inner one. *)
Lemma parse_loop_star (p : list ascii) (parsed : buffer) :
  parse_loop (STAR :: p) parsed = copy p parsed.
Proof. destruct p; reflexivity. Qed.

Lemma parse_loop_plain (c : ascii) (p : list ascii) (parsed : buffer) :
  plain c -> parse_loop (c :: p) parsed = parse_loop p parsed.
Proof.
  intros [Hs Hn]. cbn [parse_loop].
  destruct (Ascii.eqb_spec c NUL); [contradiction|].
  destruct (Ascii.eqb_spec c STAR); [contradiction | reflexivity].
Qed.


(** The test of the inner loop. *)
Lemma in_pattern_test (d : ascii) :
  negb (Ascii.eqb d TAB) && negb (Ascii.eqb d NEWLINE) && negb (Ascii.eqb d NUL) = true
  <-> in_pattern d.
Proof.
  unfold in_pattern.
  destruct (Ascii.eqb_spec d TAB), (Ascii.eqb_spec d NEWLINE), (Ascii.eqb_spec d NUL);
    cbn; intuition congruence.
Qed.

Lemma strcat1_fits (parsed : buffer) (c : ascii) :
  Z.of_nat (length (content parsed)) + 2 <= capacity parsed ->
  strcat1 parsed c = Done (mkBuffer (content parsed ++ [c]) (capacity parsed)).
Proof.
  intros H. unfold strcat1.
  destruct (Z.leb_spec (Z.of_nat (length (content parsed)) + 2) (capacity parsed));
    [reflexivity | lia].
Qed.

Lemma copy_in_pattern (d : ascii) (q : list ascii) (parsed : buffer) :
  in_pattern d -> Z.of_nat (length (content parsed)) + 2 <= capacity parsed ->
  copy (d :: q) parsed = copy q (mkBuffer (content parsed ++ [d]) (capacity parsed)).
Proof.
  intros Hd Hfit. cbn [copy]. apply in_pattern_test in Hd. rewrite Hd.
  now rewrite strcat1_fits.
Qed.

Lemma copy_end (d : ascii) (q : list ascii) (parsed : buffer) :
  ~ in_pattern d -> Z.of_nat (length (content parsed)) + 2 <= capacity parsed ->
  copy (d :: q) parsed =
    parse_loop q (mkBuffer (content parsed ++ [SPACE]) (capacity parsed)).
Proof.
  intros Hd Hfit. cbn [copy].
  destruct (negb (Ascii.eqb d TAB) && negb (Ascii.eqb d NEWLINE) && negb (Ascii.eqb d NUL))
    eqn:Htest; [apply in_pattern_test in Htest; contradiction|].
  now rewrite strcat1_fits.
Qed.


(** The inner loop copies a pattern, adds a space and steps over the
    character that ends the pattern. *)
Lemma copy_pattern (pat : list ascii) (d : ascii) (rest : list ascii) :
  Forall in_pattern pat -> ~ in_pattern d ->
  forall parsed,
    Z.of_nat (length (content parsed)) + Z.of_nat (length pat) + 2 <= capacity parsed ->
    copy (pat ++ d :: rest) parsed =
      parse_loop rest (mkBuffer (content parsed ++ pat ++ [SPACE]) (capacity parsed)).
Proof.
  intros Hpat Hd. induction Hpat as [|c pat Hc _ IH]; intros parsed Hfit.
  - cbn [app]. apply copy_end; [exact Hd | cbn [length] in Hfit; lia].
  - cbn [app length] in *. rewrite copy_in_pattern by (assumption || lia).
    rewrite IH by (cbn [content capacity]; rewrite length_app; cbn [length]; lia).
    cbn [content capacity]. now rewrite <- app_assoc.
Qed.




Lemma c_strlen_string (f beyond : list ascii) :
  Forall (fun c => c <> NUL) f ->
  c_strlen (f ++ NUL :: beyond) = Done (Z.of_nat (length f)).
Proof.
  induction 1 as [|c f Hc _ IH]; [reflexivity|].
  cbn [app c_strlen length]. destruct (Ascii.eqb_spec c NUL); [contradiction|].
  rewrite IH. f_equal. lia.
Qed.

Lemma size_of_c_string (f : list ascii) :
  Z.of_nat (length f) < 2 ^ 31 ->
  to_size_t (Z.of_nat (length f) * 2) = Z.of_nat (length f) * 2.
Proof. intros H. unfold to_size_t. apply Z.mod_small. lia. Qed.





Lemma in_pattern_not_nul (l : list ascii) :
  Forall in_pattern l -> Forall (fun c => c <> NUL) l.
Proof. intros H. eapply Forall_impl; [exact H|]. intros c (_ & _ & Hc). exact Hc. Qed.




(** Both loops, from any point of a filter whose last star has no tab
    or newline after it, reach the byte after the terminator. *)
Lemma unterminated (pre pat : list ascii) :
  Forall (fun c => c <> NUL) pre -> Forall in_pattern pat ->
  forall parsed,
    let left := Z.of_nat (length pre) + 1 + Z.of_nat (length pat) in
    (Z.of_nat (length (content parsed)) + left + 1 <= capacity parsed ->
     parse_loop (pre ++ STAR :: pat ++ [NUL]) parsed = ReadPastEnd) /\
    (Z.of_nat (length (content parsed)) + left + 2 <= capacity parsed ->
     copy (pre ++ STAR :: pat ++ [NUL]) parsed = ReadPastEnd).
Proof.
  intros Hpre Hpat.
  assert (Hnul : ~ in_pattern NUL) by (intros (_ & _ & H); congruence).
  assert (Hstar : in_pattern STAR) by (repeat split; discriminate).
  induction Hpre as [|c pre Hc _ IH]; intros parsed left; subst left; cbn [app length].
  - split; intros Hfit.
    + rewrite parse_loop_star, copy_pattern by (assumption || lia). reflexivity.
    + change (STAR :: pat ++ [NUL]) with ((STAR :: pat) ++ NUL :: []).
      rewrite copy_pattern
        by first [ assumption | now constructor | cbn [length]; lia ].
      reflexivity.
  - split; intros Hfit.
    + destruct (Ascii.eqb_spec c STAR) as [->|Hs].
      * rewrite parse_loop_star. apply IH. lia.
      * rewrite parse_loop_plain by (split; assumption). apply IH. lia.
    + destruct (in_pattern_test c) as [Hto Hfrom].
      destruct (negb (Ascii.eqb c TAB) && negb (Ascii.eqb c NEWLINE)
                && negb (Ascii.eqb c NUL)) eqn:Htest.
      * rewrite copy_in_pattern by (auto || lia).
        apply IH. cbn [content capacity]. rewrite length_app. cbn [length]. lia.
      * rewrite copy_end by ((intros Hin; apply Hfrom in Hin; discriminate) || lia).
        apply IH. cbn [content capacity]. rewrite length_app. cbn [length]. lia.
Qed.

(** X15.  A filter whose last star is not followed by a tab or a
    newline, such as "*.txt" or "Text\t*.txt", makes [parse_filter]
    read the byte after the terminator of the filter: the inner loop
    stops at the terminator, and the [p++] of the outer loop steps over
    it. *)
Theorem parse_filter_unterminated (pre pat : list ascii) :
  let f := pre ++ STAR :: pat in
  Forall (fun c => c <> NUL) pre -> Forall in_pattern pat ->
  Z.of_nat (length f) < 2 ^ 31 ->
  parse_filter (f ++ [NUL]) = ReadPastEnd.
Proof.
  intros f Hpre Hpat Hlen. unfold parse_filter.
  assert (Hf : Forall (fun c => c <> NUL) f).
  { apply Forall_app. split; [exact Hpre|].
    constructor; [discriminate | now apply in_pattern_not_nul]. }
  rewrite c_strlen_string by exact Hf.
  rewrite size_of_c_string by lia. cbv zeta.
  assert (Hpos : 1 <= Z.of_nat (length f))
    by (unfold f; rewrite length_app; cbn [length]; lia).
  destruct (Z.ltb_spec (Z.of_nat (length f) * 2) 1); [lia|].
  unfold f in *. rewrite <- app_assoc. cbn [app].
  destruct (unterminated pre pat Hpre Hpat (mkBuffer [] (Z.of_nat (length (pre ++ STAR :: pat)) * 2)))
    as [Hloop _].
  rewrite Hloop; [reflexivity|].
  cbn [content capacity length]. rewrite length_app in *. cbn [length] in *. lia.
Qed.

(** X15 on the filter "Text\t*.txt". *)
Lemma parse_filter_unterminated_witness :
  let pre := list_ascii_of_string "Text" ++ [TAB] in
  let pat := list_ascii_of_string ".txt" in
  Forall in_pattern pat /\
  parse_filter (pre ++ STAR :: pat ++ [NUL]) = ReadPastEnd.
Proof.
  intros pre pat.
  assert (Hpat : Forall in_pattern pat) by (cbn; each_char).
  split; [exact Hpat|].
  pose proof (parse_filter_unterminated pre pat) as Hread. cbv zeta in Hread.
  rewrite <- app_assoc in Hread. apply Hread; [cbn; each_char | exact Hpat | cbn; lia].
Defined.





(** The conversion of [i] to [size_t] in [filename]. *)
Lemma filename_cases (files : list string) (i : Z) :
  Int.in_range i -> Z.of_nat (length files) <= Int.max_signed ->
  filename files i = if (0 <=? i) then files !! Z.to_nat i else None.
Proof.
  unfold Int.in_range, Int.min_signed, Int.max_signed, filename, to_size_t.
  intros Hi Hsize. destruct (Z.leb_spec 0 i).
  - rewrite Z.mod_small by lia.
    destruct (Z.gtb_spec (Z.of_nat (length files)) i); [reflexivity|].
    symmetry. apply lookup_ge_None. lia.
  - replace (i mod 2 ^ 32) with (i + 2 ^ 32)
      by (apply (Z.mod_unique_pos _ _ (-1)); lia).
    destruct (Z.gtb_spec (Z.of_nat (length files)) (i + 2 ^ 32)); [lia | reflexivity].
Qed.


(** X17.  [filename(i)] reads inside the vector or not at all: it
    returns the name at index [i] when [0 <= i < count()], and [NULL]
    for every other [int], a negative one included. *)
Theorem filename_spec (files : list string) (i : Z) :
  Int.in_range i -> Z.of_nat (length files) <= Int.max_signed ->
  count files = Z.of_nat (length files) /\
  (0 <= i < count files ->
   exists name, filename files i = Some name /\ files !! Z.to_nat i = Some name) /\
  (~ 0 <= i < count files -> filename files i = None).
Proof.
  intros Hi Hsize.
  assert (Hcount : count files = Z.of_nat (length files))
    by (unfold count; apply wrap_in_range;
        unfold Int.in_range, Int.min_signed, Int.max_signed in *; lia).
  rewrite Hcount, filename_cases by assumption. split; [reflexivity|]. split.
  - intros Hin. destruct (Z.leb_spec 0 i); [|lia].
    destruct (lookup_lt_is_Some_2 files (Z.to_nat i)) as [name Hname]; [lia|].
    exists name. split; exact Hname.
  - intros Hout. destruct (Z.leb_spec 0 i); [|reflexivity].
    apply lookup_ge_None. lia.
Qed.

(** X17 on two files, at the indices 1, 2 and -1. *)
Lemma filename_spec_witness :
  let files := ["a.txt"; "b.txt"]%string in
  filename files 1 = Some "b.txt"%string /\
  filename files 2 = None /\ filename files (-1) = None.
Proof.
  intros files.
  assert (Hsize : Z.of_nat (length files) <= Int.max_signed) by (vm_compute; discriminate).
  assert (Hrange : forall i, -1 <= i <= 2 -> Int.in_range i)
    by (unfold Int.in_range, Int.min_signed, Int.max_signed; lia).
  destruct (filename_spec files 1 (Hrange 1 ltac:(lia)) Hsize) as (Hcount & Hin & _).
  destruct (filename_spec files 2 (Hrange 2 ltac:(lia)) Hsize) as (_ & _ & Hout).
  destruct (filename_spec files (-1) (Hrange (-1) ltac:(lia)) Hsize) as (_ & _ & Hneg).
  rewrite Hcount in Hin, Hout, Hneg. cbn [length files] in Hin, Hout, Hneg.
  split; [|split; [apply Hout; lia | apply Hneg; lia]].
  destruct Hin as (name & Hname & Hlook); [lia|].
  rewrite Hname, <- Hlook. reflexivity.
Defined.



End FileChooserFacts.

(** ** The selection buffers *)

Module ClipboardFacts.

Import Clipboard.

(** [memcpy] of [len] bytes and the terminator after them, into an
    array with room for both. *)
Lemma memcpy_terminated (a stuff : list Z) (len : Z) :
  0 <= len -> len <= Z.of_nat (length stuff) -> len + 1 <= Z.of_nat (length a) ->
  exists copied b,
    memcpy (Some a) stuff len = Done copied /\ assign copied len 0 = Done b /\
    length b = length a /\
    take (Z.to_nat (len + 1)) b = take (Z.to_nat len) stuff ++ [0].
Proof.
  intros Hlen Hstuff Ha. unfold memcpy.
  destruct (Z.gtb_spec len (Z.of_nat (length stuff))); [lia|].
  destruct (Z.gtb_spec len (Z.of_nat (length a))); [lia|].
  assert (Hlength : length (take (Z.to_nat len) stuff ++ drop (Z.to_nat len) a) = length a)
    by (rewrite length_app, length_take, length_drop; lia).
  eexists. unfold assign. rewrite Hlength.
  destruct (Z.leb_spec 0 len); [|lia]. destruct (Z.ltb_spec len (Z.of_nat (length a))); [|lia].
  cbn [andb]. eexists. split; [reflexivity|]. split; [reflexivity|]. split.
  - now rewrite length_insert.
  - assert (Htake : length (take (Z.to_nat len) stuff) = Z.to_nat len)
      by (rewrite length_take; lia).
    rewrite insert_app_r_alt by lia. rewrite Htake, Nat.sub_diag.
    replace (Z.to_nat (len + 1)) with (length (take (Z.to_nat len) stuff) + 1)%nat by lia.
    rewrite take_app_add'  by reflexivity.
    destruct (drop (Z.to_nat len) a) as [|x rest] eqn:Hdrop.
    + apply (f_equal length) in Hdrop. rewrite length_drop in Hdrop. cbn in Hdrop. lia.
    + reflexivity.
Qed.

(** What [UTF8ToString] reads from an array that holds a terminator
    after its first bytes. *)
Lemma c_str_terminated (prefix rest : list Z) :
  c_str (prefix ++ 0 :: rest) = c_str prefix.
Proof.
  induction prefix as [|c prefix IH]; [reflexivity|].
  cbn [app c_str]. destruct (c =? 0); [reflexivity | now rewrite IH].
Qed.

Lemma c_str_take (b prefix : list Z) (n : nat) :
  take n b = prefix ++ [0] -> c_str b = c_str prefix.
Proof.
  intros Htake. rewrite <- (take_drop n b), Htake, <- app_assoc. cbn [app].
  apply c_str_terminated.
Qed.

(** Reads and writes of an array of two elements. *)
Lemma index_0 {A : Type} (x y : A) : index [x; y] 0 = Done x.
Proof. reflexivity. Qed.

Lemma index_1 {A : Type} (x y : A) : index [x; y] 1 = Done y.
Proof. reflexivity. Qed.

Lemma assign_0 {A : Type} (x y v : A) : assign [x; y] 0 v = Done [v; y].
Proof. reflexivity. Qed.

Lemma assign_1 {A : Type} (x y v : A) : assign [x; y] 1 v = Done [x; v].
Proof. reflexivity. Qed.

(** One step of a run over the two-element arrays. *)
Ltac step :=
  first [ rewrite index_0 | rewrite index_1 | rewrite assign_0 | rewrite assign_1
        | progress cbn [bind fl_selection_buffer fl_selection_length fl_selection_type
                        fl_selection_buffer_length fl_i_own_selection writeText] ].

Section WithConstants.

Variable clipboard_plain_text clipboard_image : string.

(** X19.  [copy] keeps the selection buffers consistent and never
    writes outside them.  For a clipboard number that is not negative
    and a length up to [INT_MAX - 100] it leaves, in the buffer of the
    clipboard (the second for every number from 2 on), the [len] bytes
    of [stuff] and a terminator, in a new array of [len + 100] bytes
    when the old one has fewer than [len + 1] and in the old one
    otherwise; it records the length and the type, leaves the other
    clipboard alone, and hands the browser, for the second clipboard
    only, the bytes of [stuff] up to its first zero byte. *)
Theorem copy_spec (s : Selection) (stuff fresh : list Z) (len clipboard : Z) :
  consistent s -> 0 <= clipboard -> 0 <= len <= Int.max_signed - 100 ->
  len <= Z.of_nat (length stuff) -> Z.of_nat (length fresh) = len + 100 ->
  let c := if clipboard >=? 2 then 1 else clipboard in
  exists s' old b,
    copy clipboard_plain_text s (Some stuff) len clipboard fresh = Done s' /\
    consistent s' /\
    index (fl_selection_buffer s) c = Done old /\
    index (fl_selection_buffer s') c = Done (Some b) /\
    take (Z.to_nat (len + 1)) b = take (Z.to_nat len) stuff ++ [0] /\
    Z.of_nat (length b) = (if len + 1 >? allocated old then len + 100 else allocated old) /\
    index (fl_selection_length s') c = Done len /\
    index (fl_i_own_selection s') c = Done 1 /\
    index (fl_selection_type s') c = Done (Some clipboard_plain_text) /\
    index (fl_selection_buffer s') (1 - c) = index (fl_selection_buffer s) (1 - c) /\
    index (fl_selection_length s') (1 - c) = index (fl_selection_length s) (1 - c) /\
    index (fl_i_own_selection s') (1 - c) = index (fl_i_own_selection s) (1 - c) /\
    index (fl_selection_type s') (1 - c) = index (fl_selection_type s) (1 - c) /\
    writeText s' =
      writeText s ++ (if c =? 1 then [c_str (take (Z.to_nat len) stuff)] else []).
Proof.
  intros (Hb & Hl & Ht & Hbl & Ho & Halloc & Hrange) Hclip Hlen Hstuff Hfresh c.
  destruct s as [bufs lens types blens owns log]. cbn [fl_selection_buffer
    fl_selection_length fl_selection_type fl_selection_buffer_length
    fl_i_own_selection writeText] in *.
  destruct bufs as [|b0 [|b1 [|]]]; try discriminate Hb.
  destruct lens as [|l0 [|l1 [|]]]; try discriminate Hl.
  destruct types as [|t0 [|t1 [|]]]; try discriminate Ht.
  destruct blens as [|n0 [|n1 [|]]]; try discriminate Hbl.
  destruct owns as [|o0 [|o1 [|]]]; try discriminate Ho.
  injection Halloc as Hn0 Hn1. subst n0 n1.
  apply Forall_cons in Hrange as [Hr0 Hr1]. apply Forall_cons in Hr1 as [Hr1 _].
  unfold Int.in_range, Int.min_signed, Int.max_signed in *.
  assert (Hadd1 : Int.add len 1 = len + 1)
    by (apply add_in_range; unfold Int.in_range, Int.min_signed, Int.max_signed; lia).
  assert (Hadd100 : Int.add len 100 = len + 100)
    by (apply add_in_range; unfold Int.in_range, Int.min_signed, Int.max_signed; lia).
  unfold copy. destruct (Z.ltb_spec len 0); [lia|]. fold c. rewrite Hadd1, Hadd100.
  assert (Hc : c = 0 \/ c = 1) by (unfold c; destruct (Z.geb_spec clipboard 2); lia).
  destruct Hc as [Hc | Hc]; rewrite Hc; clear c Hc;
    change (1 - 0) with 1; change (1 - 1) with 0; cbn [Z.eqb].
  - repeat step. destruct (Z.gtb_spec (len + 1) (allocated b0)) as [Hnew | Hold].
    + destruct (memcpy_terminated fresh stuff len) as (copied & b & Hm & Ha & Hlength & Htake);
        [lia | lia | lia |].
      repeat step. rewrite Hm. cbn [bind]. rewrite Ha. repeat step.
      eexists _, b0, b. split; [reflexivity|]. repeat step.
      destruct (Z.gtb_spec (len + 1) (allocated b0)); [|lia].
      rewrite app_nil_r. repeat split; try reflexivity; try assumption; try lia.
      * cbn. rewrite Hlength, ?Hfresh. reflexivity.
      * apply List.Forall_cons; [|apply List.Forall_cons; [|apply List.Forall_nil]];
          unfold Int.in_range, Int.min_signed, Int.max_signed; lia.
    + destruct b0 as [a0|]; [|cbn [allocated] in Hold; lia]. cbn [allocated] in *.
      destruct (memcpy_terminated a0 stuff len) as (copied & b & Hm & Ha & Hlength & Htake);
        [lia | lia | lia |].
      repeat step. rewrite Hm. cbn [bind]. rewrite Ha. repeat step.
      eexists _, (Some a0), b. split; [reflexivity|]. repeat step. cbn [allocated].
      destruct (Z.gtb_spec (len + 1) (Z.of_nat (length a0))); [lia|].
      rewrite app_nil_r. repeat split; try reflexivity; try assumption; try lia.
      * cbn. rewrite Hlength, ?Hfresh. reflexivity.
      * apply List.Forall_cons; [|apply List.Forall_cons; [|apply List.Forall_nil]];
          unfold Int.in_range, Int.min_signed, Int.max_signed; lia.
  - repeat step. destruct (Z.gtb_spec (len + 1) (allocated b1)) as [Hnew | Hold].
    + destruct (memcpy_terminated fresh stuff len) as (copied & b & Hm & Ha & Hlength & Htake);
        [lia | lia | lia |].
      repeat step. rewrite Hm. cbn [bind]. rewrite Ha. repeat step.
      eexists _, b1, b. split; [reflexivity|]. repeat step.
      destruct (Z.gtb_spec (len + 1) (allocated b1)); [|lia].
      change (default [] (Some b)) with b. rewrite (c_str_take b _ _ Htake).
      repeat split; try reflexivity; try assumption; try lia.
      * cbn. rewrite Hlength, ?Hfresh. reflexivity.
      * apply List.Forall_cons; [|apply List.Forall_cons; [|apply List.Forall_nil]];
          unfold Int.in_range, Int.min_signed, Int.max_signed; lia.
    + destruct b1 as [a1|]; [|cbn [allocated] in Hold; lia]. cbn [allocated] in *.
      destruct (memcpy_terminated a1 stuff len) as (copied & b & Hm & Ha & Hlength & Htake);
        [lia | lia | lia |].
      repeat step. rewrite Hm. cbn [bind]. rewrite Ha. repeat step.
      eexists _, (Some a1), b. split; [reflexivity|]. repeat step. cbn [allocated].
      destruct (Z.gtb_spec (len + 1) (Z.of_nat (length a1))); [lia|].
      change (default [] (Some b)) with b. rewrite (c_str_take b _ _ Htake).
      repeat split; try reflexivity; try assumption; try lia.
      * cbn. rewrite Hlength, ?Hfresh. reflexivity.
      * apply List.Forall_cons; [|apply List.Forall_cons; [|apply List.Forall_nil]];
          unfold Int.in_range, Int.min_signed, Int.max_signed; lia.
Qed.

(** The test on [type] at the head of [paste]. *)
Lemma plain_text_type (type : string) :
  Window.first_char type = 0 \/ type = clipboard_plain_text ->
  String.eqb (if Window.first_char type =? 0 then clipboard_plain_text else type)
             clipboard_plain_text = true.
Proof.
  intros [H | ->].
  - rewrite H. apply String.eqb_refl.
  - destruct (_ =? 0); apply String.eqb_refl.
Qed.

(** X20.  [paste] of plain text copies nothing into the selection
    buffer: it stores one zero byte, at index [len - 1] of the buffer
    of the second clipboard, with [len] the length of the text the
    browser hands over.  The byte lies in the buffer when
    [1 <= len] and the buffer was allocated with at least [len] bytes;
    then the receiver is called with the text and its length, and
    [fl_selection_length[1]] becomes [len].  In every other case, an
    empty text and a paste before the first [copy] among them, the
    byte is written outside the buffer.  With the clipboard number 0
    [paste] does nothing at all. *)
Theorem paste_spec (s : Selection) (type : string) (clipText : list Z)
        (width height : Z) (vec : list Z) :
  consistent s ->
  Window.first_char type = 0 \/ type = clipboard_plain_text ->
  Z.of_nat (length clipText) <= Int.max_signed ->
  let len := Z.of_nat (length clipText) in
  let paste_from n :=
    paste clipboard_plain_text clipboard_image s n type clipText width height vec in
  exists p,
    index (fl_selection_buffer s) 1 = Done p /\
    paste_from 0 = Done (s, None) /\
    (1 <= len <= allocated p ->
     exists b, p = Some b /\
       paste_from 1 =
         Done (mkSelection
                 (<[1%nat := Some (<[Z.to_nat (len - 1) := 0]> b)]> (fl_selection_buffer s))
                 (<[1%nat := len]> (fl_selection_length s))
                 (fl_selection_type s) (fl_selection_buffer_length s)
                 (fl_i_own_selection s) (writeText s),
               Some (PastedText clipText len))) /\
    (~ 1 <= len <= allocated p -> paste_from 1 = WritePastEnd).
Proof.
  intros (Hb & Hl & Ht & Hbl & Ho & Halloc & Hrange) Htype Hmax len paste_from.
  subst paste_from. unfold paste. rewrite (plain_text_type type Htype). fold len.
  destruct s as [bufs lens types blens owns log]. cbn [fl_selection_buffer
    fl_selection_length fl_selection_type fl_selection_buffer_length
    fl_i_own_selection writeText] in *.
  destruct bufs as [|b0 [|b1 [|]]]; try discriminate Hb.
  destruct lens as [|l0 [|l1 [|]]]; try discriminate Hl.
  destruct blens as [|n0 [|n1 [|]]]; try discriminate Hbl.
  injection Halloc as Hn0 Hn1. subst n0 n1.
  apply Forall_cons in Hrange as [_ Hr1]. apply Forall_cons in Hr1 as [Hr1 _].
  unfold Int.in_range, Int.min_signed, Int.max_signed in *.
  assert (Hwrap : Int.wrap len = len)
    by (apply wrap_in_range; unfold Int.in_range, Int.min_signed, Int.max_signed; lia).
  exists b1. split; [reflexivity|]. split; [reflexivity|].
  cbn [Z.eqb negb]. repeat step. unfold store, FileChooser.to_size_t.
  destruct b1 as [b|]; cbn [allocated] in *.
  - split.
    + intros Hin. exists b. split; [reflexivity|].
      rewrite Z.mod_small by lia. unfold assign.
      destruct (Z.leb_spec 0 (len - 1)); [|lia].
      destruct (Z.ltb_spec (len - 1) (Z.of_nat (length b))); [|lia].
      cbn [andb]. repeat step. rewrite Hwrap. reflexivity.
    + intros Hout. unfold assign.
      destruct (Z.eq_dec len 0) as [Hzero|Hpos].
      * rewrite Hzero. change ((0 - 1) mod 2 ^ 32) with (2 ^ 32 - 1).
        destruct (Z.ltb_spec (2 ^ 32 - 1) (Z.of_nat (length b))); [lia|].
        rewrite andb_false_r. reflexivity.
      * rewrite Z.mod_small by lia.
        destruct (Z.ltb_spec (len - 1) (Z.of_nat (length b))); [lia|].
        rewrite andb_false_r. reflexivity.
  - split; [lia | reflexivity].
Qed.

End WithConstants.

Lemma consistent_initial : consistent initial.
Proof.
  unfold consistent, initial. cbn.
  repeat split; try reflexivity.
  apply List.Forall_cons; [|apply List.Forall_cons; [|apply List.Forall_nil]];
    unfold Int.in_range, Int.min_signed, Int.max_signed; lia.
Qed.

(** X19 on the first copy of a program, of the two bytes "hi" to the
    second clipboard. *)
Lemma copy_spec_witness :
  let stuff := [104; 105; 0] in
  consistent initial /\
  exists s',
    copy "text/plain" initial (Some stuff) 2 1 (repeat 0 102) = Done s' /\
    consistent s' /\ writeText s' = [[104; 105]].
Proof.
  intros stuff. split; [exact consistent_initial|].
  destruct (copy_spec "text/plain" initial stuff (repeat 0 102) 2 1 consistent_initial)
    as (s' & old & b & Hcopy & Hs' & _ & _ & _ & _ & _ & _ & _ & _ & _ & _ & _ & Hlog);
    [lia | unfold Int.max_signed; lia | cbn; lia | reflexivity |].
  exists s'. split; [exact Hcopy|]. split; [exact Hs'|]. exact Hlog.
Defined.

(** X20 on a paste before the first copy. *)
Lemma paste_spec_witness :
  consistent initial /\
  paste "text/plain" "image" initial 1 "" [104; 105] 0 0 [] = WritePastEnd.
Proof.
  split; [exact consistent_initial|].
  destruct (paste_spec "text/plain" "image" initial "" [104; 105] 0 0 [] consistent_initial)
    as (p & Hp & _ & _ & Hout); [left; reflexivity | vm_compute; discriminate |].
  injection Hp as <-. apply Hout. cbn. lia.
Defined.

End ClipboardFacts.


(** ** Images given by their bytes *)

Module PixelsFacts.

Import Image Pixels.

(** A run of bytes written over part of an array. *)
Lemma splice_length (b bytes : list Z) (pos : nat) :
  (pos + length bytes <= length b)%nat ->
  length (take pos b ++ bytes ++ drop (pos + length bytes) b) = length b.
Proof. intros H. rewrite !length_app, length_take, length_drop. lia. Qed.

Lemma splice_before (b bytes : list Z) (pos m : nat) :
  (pos + length bytes <= length b)%nat -> (m < pos)%nat ->
  (take pos b ++ bytes ++ drop (pos + length bytes) b) !! m = b !! m.
Proof.
  intros H Hm. rewrite lookup_app_l by (rewrite length_take; lia).
  now rewrite lookup_take_lt.
Qed.

Lemma splice_inside (b bytes : list Z) (pos k : nat) :
  (pos + length bytes <= length b)%nat -> (k < length bytes)%nat ->
  (take pos b ++ bytes ++ drop (pos + length bytes) b) !! (pos + k)%nat = bytes !! k.
Proof.
  intros H Hk. rewrite lookup_app_r by (rewrite length_take; lia).
  rewrite length_take. replace (pos + k - pos `min` length b)%nat with k by lia.
  now rewrite lookup_app_l.
Qed.

Lemma splice_after (b bytes : list Z) (pos m : nat) :
  (pos + length bytes <= length b)%nat -> (pos + length bytes <= m)%nat ->
  (take pos b ++ bytes ++ drop (pos + length bytes) b) !! m = b !! m.
Proof.
  intros H Hm. rewrite lookup_app_r by (rewrite length_take; lia).
  rewrite length_take. rewrite lookup_app_r by lia.
  rewrite lookup_drop. f_equal. lia.
Qed.

Lemma slice_length (a : list Z) (off len : Z) :
  0 <= off -> 0 <= len -> off + len <= Z.of_nat (length a) ->
  length (slice a off len) = Z.to_nat len.
Proof. intros Ho Hl H. unfold slice. rewrite length_take, length_drop. lia. Qed.

Lemma slice_lookup (a : list Z) (off len : Z) (k : nat) :
  0 <= off -> (k < Z.to_nat len)%nat ->
  slice a off len !! k = a !! (Z.to_nat off + k)%nat.
Proof.
  intros Ho Hk. unfold slice. rewrite lookup_take_lt by lia. now rewrite lookup_drop.
Qed.

(** [abs] and the conversion to [size_t] on a step that is small. *)
Lemma abs_step (D : Z) :
  Z.abs D < 2 ^ 30 ->
  Int.abs D = Z.abs D /\ FileChooser.to_size_t (Z.abs D) = Z.abs D.
Proof.
  intros HD. split.
  - unfold Int.abs. destruct (Z.ltb_spec D 0); [|lia].
    rewrite wrap_in_range by in_range. lia.
  - unfold FileChooser.to_size_t. apply Z.mod_small. lia.
Qed.

(** One [memcpy] of the loop of [draw_image_cb]. *)
Lemma copy_pixel_spec (cb : callback_data) (aD x buf curdata : Z) (buffer : list Z) :
  0 < aD -> 0 <= buf -> 0 <= curdata ->
  curdata + aD <= Z.of_nat (length (cb_array cb)) ->
  buf + aD <= Z.of_nat (length buffer) ->
  exists buffer',
    copy_pixel cb aD x (buf, curdata, buffer) = Some (buf + aD, curdata + cb_D cb, buffer') /\
    length buffer' = length buffer /\
    (forall m, (m < Z.to_nat buf)%nat -> buffer' !! m = buffer !! m) /\
    (forall k, 0 <= k < aD ->
       buffer' !! Z.to_nat (buf + k) = cb_array cb !! Z.to_nat (curdata + k)) /\
    (forall m, (Z.to_nat (buf + aD) <= m)%nat -> buffer' !! m = buffer !! m).
Proof.
  intros HaD Hbuf Hcur Hread Hwrite. unfold copy_pixel.
  destruct (Z.leb_spec 0 curdata); [|lia].
  destruct (Z.leb_spec (curdata + aD) (Z.of_nat (length (cb_array cb)))); [|lia].
  destruct (Z.leb_spec (buf + aD) (Z.of_nat (length buffer))); [|lia].
  cbn [andb]. eexists. split; [reflexivity|].
  assert (Hlen : length (slice (cb_array cb) curdata aD) = Z.to_nat aD)
    by (apply slice_length; lia).
  replace (Z.to_nat (buf + aD))
    with (Z.to_nat buf + length (slice (cb_array cb) curdata aD))%nat by lia.
  split; [apply splice_length; lia|]. split; [|split].
  - intros m Hm. apply splice_before; lia.
  - intros k Hk. replace (Z.to_nat (buf + k)) with (Z.to_nat buf + Z.to_nat k)%nat by lia.
    rewrite splice_inside by lia. rewrite slice_lookup by lia. f_equal. lia.
  - intros m Hm. apply splice_after; lia.
Qed.

(** [draw_image_cb] on one line: each pixel is copied from its place in
    the array, and the bytes after the line stay. *)
Lemma draw_image_cb_line (cb : callback_data) (y w : Z) (buffer : list Z) :
  let aD := Z.abs (cb_D cb) in
  let start := cb_data cb + y * cb_LD cb in
  0 < aD < 2 ^ 30 -> 0 <= w < 2 ^ 30 -> Int.in_range (y * cb_LD cb) ->
  w * aD <= Z.of_nat (length buffer) ->
  (forall i, 0 <= i < w ->
     0 <= start + i * cb_D cb /\
     start + i * cb_D cb + aD <= Z.of_nat (length (cb_array cb))) ->
  exists buffer',
    draw_image_cb cb 0 y w buffer = Some buffer' /\
    length buffer' = length buffer /\
    (forall i k, 0 <= i < w -> 0 <= k < aD ->
       buffer' !! Z.to_nat (i * aD + k) = cb_array cb !! Z.to_nat (start + i * cb_D cb + k)) /\
    (forall m, (Z.to_nat (w * aD) <= m)%nat -> buffer' !! m = buffer !! m).
Proof.
  intros aD start HaD Hw Hy Hroom Hreads.
  destruct (abs_step (cb_D cb)) as [Habs Hsize]; [lia|]. fold aD in Habs, Hsize.
  unfold draw_image_cb. rewrite Habs, Hsize.
  rewrite (add_in_range 0 w) by in_range.
  rewrite (mul_in_range 0 (cb_D cb)) by in_range.
  rewrite (mul_in_range y (cb_LD cb)) by exact Hy.
  rewrite (add_in_range (0 * cb_D cb) (y * cb_LD cb)) by (rewrite Z.mul_0_l, Z.add_0_l; exact Hy).
  rewrite Z.mul_0_l, !Z.add_0_l. fold start.
  set (P := fun (x : Z) (s : Z * Z * list Z) =>
              let '(buf, curdata, b) := s in
              buf = x * aD /\ curdata = start + x * cb_D cb /\
              length b = length buffer /\
              (forall i k, 0 <= i < x -> 0 <= k < aD ->
                 b !! Z.to_nat (i * aD + k)
                 = cb_array cb !! Z.to_nat (start + i * cb_D cb + k)) /\
              (forall m, (Z.to_nat (x * aD) <= m)%nat -> b !! m = buffer !! m)).
  destruct (for_loop_inv P (copy_pixel cb aD) w 1) with
    (fuel := Z.to_nat w) (i := 0) (s := (0, start, buffer))
    as (j & [[buf curdata] b] & Hrun & Hj & Hj' & (Hbuf & Hcur & Hlen & Hpix & Hrest)).
  - lia.
  - unfold Int.max_signed. lia.
  - intros x [[buf curdata] b] Hx (Hbuf & Hcur & Hlen & Hpix & Hrest).
    destruct (Hreads x Hx) as [Hlo Hhi].
    assert (Hfit : x * aD + aD <= w * aD) by nia.
    assert (Hpos : 0 <= x * aD) by nia.
    destruct (copy_pixel_spec cb aD x buf curdata b)
      as (b' & Hcopy & Hlen' & Hbefore & Hinside & Hafter); try lia.
    exists (buf + aD, curdata + cb_D cb, b'). split; [exact Hcopy|].
    split; [lia|]. split; [lia|]. split; [congruence|]. split.
    + intros i k Hi Hk. destruct (Z.eq_dec i x) as [->|Hne].
      * rewrite <- Hbuf, Hinside by lia. f_equal. lia.
      * assert (i * aD + aD <= x * aD) by nia.
        assert (0 <= i * aD) by nia.
        rewrite Hbefore by lia. apply Hpix; lia.
    + intros m Hm. rewrite Hafter by lia. apply Hrest. lia.
  - lia.
  - lia.
  - repeat split; intros; lia.
  - rewrite Hrun. assert (j = w) by lia. subst j.
    exists b. split; [reflexivity|]. split; [exact Hlen|]. split; assumption.
Qed.

(** The inner loop of [draw_image] on line [l]: the last byte of each
    pixel of the line becomes [0xff], and every other byte stays. *)
Lemma alpha_loop_frame (iw ih D l : Z) (a : list Z) :
  fits iw ih D -> 0 <= l < ih -> Z.of_nat (length a) = iw * D * ih ->
  exists a',
    for_loop (Z.to_nat iw) 0 iw 1 (set_alpha l iw D) a = Some a' /\
    length a' = length a /\
    (forall i, 0 <= i < iw -> a' !! Z.to_nat (alpha_index iw D l i) = Some 255) /\
    (forall m, (forall i, 0 <= i < iw -> m <> Z.to_nat (alpha_index iw D l i)) ->
       a' !! m = a !! m).
Proof.
  intros Hfit Hl Hlen. pose proof Hfit as (Hiw & Hih & HD & Hsmall).
  set (Q := fun (x : Z) (b : list Z) =>
              length b = length a /\
              (forall i, 0 <= i < x -> b !! Z.to_nat (alpha_index iw D l i) = Some 255) /\
              (forall m, (forall i, 0 <= i < x -> m <> Z.to_nat (alpha_index iw D l i)) ->
                 b !! m = a !! m)).
  destruct (for_loop_inv Q (set_alpha l iw D) iw 1) with
    (fuel := Z.to_nat iw) (i := 0) (s := a)
    as (j & a' & Hrun & Hj & Hj' & (Hlen' & Hset & Hkept)).
  - lia.
  - unfold Int.max_signed. nia.
  - intros x b Hx (Hlenb & Hset & Hkept).
    destruct (ImageFacts.set_alpha_spec iw ih D l x b Hfit Hl Hx) as [Hs Hidx]; [lia|].
    eexists. split; [exact Hs|]. split; [now rewrite length_insert|]. split.
    + intros i Hi. destruct (Z.eq_dec i x) as [->|Hne].
      * apply list_lookup_insert_eq. lia.
      * apply ImageFacts.insert_255. apply Hset. lia.
    + intros m Hm. rewrite list_lookup_insert_ne by (apply not_eq_sym, Hm; lia).
      apply Hkept. intros i Hi. apply Hm. lia.
  - lia.
  - lia.
  - split; [reflexivity|]. split; [intros; lia | reflexivity].
  - assert (j = iw) by lia. subst j. exists a'. auto.
Qed.

(** The remainder that [draw_image] tests. *)
Lemma odd_rem (D : Z) : Z.even D = false -> (Int.rem D 2 =? 0) = false.
Proof.
  intros Ho. unfold Int.rem. apply Z.eqb_neq. intros Hrem.
  pose proof (Z.quot_rem' D 2) as Hq. rewrite Hrem in Hq.
  rewrite Hq, Z.add_0_r, Z.even_mul in Ho. discriminate Ho.
Qed.

(** One iteration of the outer loop of [draw_image] with
    [draw_image_cb] for its callback. *)
Lemma draw_line_pixels (cb : callback_data) (iw ih l : Z) (a : list Z) :
  let aD := Z.abs (cb_D cb) in
  fits iw ih aD -> 0 <= l < ih -> Z.of_nat (length a) = iw * aD * ih ->
  line_readable cb iw l ->
  exists a',
    draw_line (callback cb) iw aD l a = Some a' /\
    length a' = length a /\
    (forall m, (m < Z.to_nat (l * aD * iw))%nat -> a' !! m = a !! m) /\
    line_done cb iw l a'.
Proof.
  intros aD Hfit Hl Hlen [Hy Hreads]. pose proof Hfit as (Hiw & Hih & HD & Hsmall).
  set (off := l * aD * iw).
  assert (Hoff : 0 <= off /\ off + iw * aD <= iw * aD * ih /\ iw * aD * ih < 2 ^ 30 /\
                 0 <= l * aD < 2 ^ 30 /\ 0 <= iw * aD) by (unfold off; repeat split; nia).
  destruct Hoff as (Hoff0 & Hoff1 & HN & HlD & HiwD).
  unfold draw_line.
  rewrite (mul_in_range l aD) by in_range.
  rewrite (mul_in_range (l * aD) iw) by (fold off; in_range). fold off.
  destruct (Z.leb_spec 0 off); [|lia].
  destruct (Z.leb_spec off (Z.of_nat (length a))); [|lia]. cbn [andb].
  destruct (draw_image_cb_line cb l iw (drop (Z.to_nat off) a))
    as (b' & Hcb & Hlenb & Hpix & Hrest);
    [fold aD; lia | nia | exact Hy | fold aD; rewrite length_drop; lia | exact Hreads |].
  fold aD in Hpix, Hrest. rewrite length_drop in Hlenb.
  unfold callback. rewrite Hcb. change (default (drop (Z.to_nat off) a) (Some b')) with b'.
  set (a1 := take (Z.to_nat off) a ++ b').
  assert (Hlen1 : length a1 = length a)
    by (unfold a1; rewrite length_app, length_take; lia).
  assert (Hbefore1 : forall m, (m < Z.to_nat off)%nat -> a1 !! m = a !! m).
  { intros m Hm. unfold a1. rewrite lookup_app_l by (rewrite length_take; lia).
    now rewrite lookup_take_lt. }
  assert (Hline1 : forall i k, 0 <= i < iw -> 0 <= k < aD ->
            a1 !! Z.to_nat ((l * iw + i) * aD + k)
            = cb_array cb !! Z.to_nat (cb_data cb + l * cb_LD cb + i * cb_D cb + k)).
  { intros i k Hi Hk. rewrite <- Hpix by assumption.
    assert (0 <= i * aD + k) by nia.
    replace (Z.to_nat ((l * iw + i) * aD + k))
      with (Z.to_nat off + Z.to_nat (i * aD + k))%nat by (unfold off; nia).
    unfold a1. rewrite lookup_app_r by (rewrite length_take; lia).
    rewrite length_take. f_equal. lia. }
  destruct (Z.even aD) eqn:Heven.
  - rewrite (ImageFacts.even_rem aD Heven), Z.eqb_refl.
    destruct (alpha_loop_frame iw ih aD l a1 Hfit Hl) as (a' & Hrun & Hlen' & Hset & Hkept);
      [lia|].
    exists a'. split; [exact Hrun|]. split; [congruence|]. split.
    + intros m Hm. rewrite Hkept; [now apply Hbefore1|].
      intros i Hi. assert (0 <= i * aD) by nia. unfold alpha_index. fold off in Hm.
      assert (off <= (l * iw + i) * aD + (aD - 1)) by (unfold off; nia). lia.
    + intros i k Hi Hk. fold aD. rewrite Heven. cbn [andb].
      destruct (Z.eqb_spec k (aD - 1)) as [->|Hne].
      * apply (Hset i Hi).
      * rewrite Hkept; [now apply Hline1|].
        intros i' Hi'. unfold alpha_index.
        assert (0 <= (l * iw + i) * aD) by nia.
        assert (0 <= (l * iw + i') * aD) by nia.
        assert ((l * iw + i) * aD + k <> (l * iw + i') * aD + (aD - 1)); [|lia].
        destruct (Z.lt_trichotomy i i') as [Hlt | [-> | Hgt]]; [nia | lia | nia].
  - rewrite (odd_rem aD Heven).
    exists a1. split; [reflexivity|]. split; [exact Hlen1|]. split.
    + intros m Hm. now apply Hbefore1.
    + intros i k Hi Hk. fold aD. rewrite Heven. cbn [andb]. now apply Hline1.
Qed.

(** [draw_image] with [draw_image_cb] for its callback. *)
Lemma draw_image_pixels
      (draw_rgb : Driver -> Fl_RGB_Image -> Z -> Z -> Z -> Z -> Z -> Z -> Driver)
      (st : Driver) (cb : callback_data) (ix iy iw ih : Z) (fresh : list Z) :
  let aD := Z.abs (cb_D cb) in
  fits iw ih aD -> Z.of_nat (length fresh) = iw * aD * ih ->
  (forall l, 0 <= l < ih -> line_readable cb iw l) ->
  exists a,
    draw_image draw_rgb st (callback cb) ix iy iw ih aD fresh
      = Some (draw_rgb st (mkImage aD iw ih (Some a)) ix iy iw ih 0 0) /\
    length a = length fresh /\
    forall l, 0 <= l < ih -> line_done cb iw l a.
Proof.
  intros aD Hfit Hlen Hreads. pose proof Hfit as (Hiw & Hih & HD & Hsmall).
  set (P := fun (l : Z) (a : list Z) =>
              length a = length fresh /\
              forall l', 0 <= l' < l -> line_done cb iw l' a).
  destruct (for_loop_inv P (draw_line (callback cb) iw aD) ih 1) with
    (fuel := Z.to_nat ih) (i := 0) (s := fresh)
    as (j & a & Hrun & Hj & Hj' & (Hlena & Hdone)).
  - lia.
  - unfold Int.max_signed. nia.
  - intros l a Hl (Hlena & Hdone).
    destruct (draw_line_pixels cb iw ih l a Hfit Hl) as (a' & Hline & Hlen' & Hbefore & Hnew);
      [fold aD; lia | now apply Hreads |].
    exists a'. split; [exact Hline|]. split; [congruence|].
    intros l' Hl'. destruct (Z.eq_dec l' l) as [->|Hne]; [exact Hnew|].
    intros i k Hi Hk. fold aD in Hk |- *. rewrite Hbefore.
    + apply (Hdone l'); [lia | exact Hi | exact Hk].
    + fold aD. assert (0 <= (l' * iw + i) * aD) by nia.
      assert ((l' * iw + i) * aD + k < l * aD * iw) by nia. lia.
  - lia.
  - lia.
  - split; [reflexivity | intros; lia].
  - assert (j = ih) by lia. subst j.
    exists a. unfold draw_image, draw_image_array. rewrite Hrun.
    split; [reflexivity|]. split; assumption.
Qed.

(** While the sizes fit, the two functions build the same callback data. *)
Lemma same_callback_data
      (draw_rgb : Driver -> Fl_RGB_Image -> Z -> Z -> Z -> Z -> Z -> Z -> Driver)
      (st : Driver) (array : list Z) (data ix iy iw ih D LD : Z) (fresh : list Z) :
  fits iw ih (Z.abs D) ->
  let result :=
    draw_image draw_rgb st (callback (callback_data_of array data iw D LD))
               ix iy iw ih (Z.abs D) fresh in
  draw_image_mono draw_rgb st array data ix iy iw ih D LD fresh = result /\
  draw_image_data draw_rgb st array data ix iy iw ih D LD fresh = result.
Proof.
  intros Hfit result.
  pose proof Hfit as (Hiw & Hih & HaD & Hsmall).
  assert (HaD30 : Z.abs D < 2 ^ 30) by nia.
  assert (Hline : 0 <= iw * Z.abs D < 2 ^ 30) by nia.
  destruct (abs_step D HaD30) as [Habs Hsize].
  assert (Hmono : draw_image_mono draw_rgb st array data ix iy iw ih D LD fresh = result).
  { unfold draw_image_mono, result, callback_data_of. rewrite Habs, Hsize.
    unfold FileChooser.to_size_t. rewrite (Z.mod_small iw) by lia.
    rewrite (Z.mod_small (iw * Z.abs D)) by lia.
    rewrite wrap_in_range by in_range. reflexivity. }
  split; [exact Hmono|].
  unfold draw_image_data. rewrite Habs.
  destruct (Z.abs D <? 3); [exact Hmono|].
  unfold result, callback_data_of. rewrite mul_in_range by in_range. reflexivity.
Qed.

(** X21.  [draw_image] and [draw_image_mono] on bytes hand [draw_rgb]
    an image of [iw] by [ih] pixels of [|D|] bytes that holds, for
    pixel [i] of line [l], the [|D|] bytes of the array from index
    [data + l * LD + i * D] on ([LD] taken as [iw * |D|] when it is 0,
    and [data] moved by [iw * |D|] when [D] is negative), except that
    for an even [|D|] the last byte of every pixel is [0xff].  Every
    call of [draw_image_cb] stays inside both arrays.  The sizes are
    such that the index computations do not overflow, and the array
    holds every byte read. *)
Theorem draw_image_data_pixels
        (draw_rgb : Driver -> Fl_RGB_Image -> Z -> Z -> Z -> Z -> Z -> Z -> Driver)
        (st : Driver) (array : list Z) (data ix iy iw ih D LD : Z) (fresh : list Z) :
  readable array data iw ih D LD ->
  Z.of_nat (length fresh) = iw * Z.abs D * ih ->
  exists a,
    draw_image_data draw_rgb st array data ix iy iw ih D LD fresh
      = Some (draw_rgb st (mkImage (Z.abs D) iw ih (Some a)) ix iy iw ih 0 0) /\
    draw_image_mono draw_rgb st array data ix iy iw ih D LD fresh
      = Some (draw_rgb st (mkImage (Z.abs D) iw ih (Some a)) ix iy iw ih 0 0) /\
    Z.of_nat (length a) = iw * Z.abs D * ih /\
    (forall l i k, 0 <= l < ih -> 0 <= i < iw -> 0 <= k < Z.abs D ->
       pixel_byte a iw (Z.abs D) l i k =
         if Z.even (Z.abs D) && (k =? Z.abs D - 1) then Some 255
         else read array (source data iw D LD l i + k)) /\
    (forall l buffer, 0 <= l < ih -> iw * Z.abs D <= Z.of_nat (length buffer) ->
       draw_image_cb (callback_data_of array data iw D LD) 0 l iw buffer <> None).
Proof.
  intros Hreadable Hlen.
  destruct Hreadable as (HD & Hfit & HLD & Hreads).
  destruct (same_callback_data draw_rgb st array data ix iy iw ih D LD fresh Hfit)
    as [Hmono Hdata].
  pose proof Hfit as (Hiw & Hih & HaD & Hsmall).
  set (cb := callback_data_of array data iw D LD) in *.
  assert (Hsource : forall l i,
            cb_data cb + l * cb_LD cb + i * cb_D cb = source data iw D LD l i)
    by (intros l i; reflexivity).
  assert (Hlines : forall l, 0 <= l < ih -> line_readable cb iw l).
  { intros l Hl. split.
    - unfold cb, callback_data_of. cbn [cb_LD].
      destruct (Z.eqb_spec LD 0);
        [unfold Int.in_range, Int.min_signed, Int.max_signed; nia|].
      assert (Z.abs (l * LD) <= Z.abs LD * ih) by (rewrite Z.abs_mul; nia).
      unfold Int.in_range, Int.min_signed, Int.max_signed. lia.
    - intros i Hi. rewrite Hsource. apply Hreads; assumption. }
  destruct (draw_image_pixels draw_rgb st cb ix iy iw ih fresh) as (a & Hdraw & Hlena & Hdone);
    [exact Hfit | exact Hlen | exact Hlines |].
  change (cb_D cb) with D in Hdraw.
  exists a. rewrite Hdata, Hmono. split; [exact Hdraw|]. split; [exact Hdraw|].
  split; [lia|]. split.
  - intros l i k Hl Hi Hk. specialize (Hdone l Hl i k Hi Hk).
    change (cb_D cb) with D in Hdone. change (cb_array cb) with array in Hdone.
    rewrite Hsource in Hdone. destruct (Hreads l i Hl Hi) as [Hlo _].
    unfold pixel_byte, read.
    assert (0 <= (l * iw + i) * Z.abs D) by nia.
    destruct (Z.ltb_spec ((l * iw + i) * Z.abs D + k) 0); [lia|].
    destruct (Z.ltb_spec (source data iw D LD l i + k) 0); [lia|]. exact Hdone.
  - intros l buffer Hl Hroom.
    destruct (Hlines l Hl) as [Hy Hr].
    destruct (draw_image_cb_line cb l iw buffer) as (b' & -> & _);
      [change (cb_D cb) with D; nia | nia | exact Hy | change (cb_D cb) with D; lia
       | exact Hr | discriminate].
Qed.

(** X21 on a line of two pixels of three bytes. *)
Lemma draw_image_data_pixels_witness :
  let st := mkDriver [] NONE 0 (mkMatrix 1 0 0 1 0 0)%float 0 0
                     "butt"%string "miter"%string [] [] in
  let draw_rgb := fun (st : Driver) (_ : Fl_RGB_Image) (_ _ _ _ _ _ : Z) => st in
  let array := [1; 2; 3; 4; 5; 6] in
  readable array 0 2 1 3 0 /\
  exists a,
    draw_image_data draw_rgb st array 0 0 0 2 1 3 0 (repeat 0 6%nat)
      = Some (draw_rgb st (mkImage 3 2 1 (Some a)) 0 0 2 1 0 0) /\
    pixel_byte a 2 3 0 1 2 = Some 6.
Proof.
  intros st draw_rgb array.
  assert (Hreadable : readable array 0 2 1 3 0).
  { split; [discriminate|]. split; [unfold fits; lia|]. split; [cbn; lia|].
    intros l i Hl Hi. unfold source. cbn. lia. }
  split; [exact Hreadable|].
  destruct (draw_image_data_pixels draw_rgb st array 0 0 0 2 1 3 0 (repeat 0 6%nat)
              Hreadable eq_refl) as (a & Hdata & _ & _ & Hpixels & _).
  exists a. split; [exact Hdata|].
  apply (Hpixels 0 1 2); lia.
Defined.

(** X22.  With a negative [D] and [LD] at 0 the callback data that
    [draw_image] builds starts one line after [data], and the first
    [memcpy] for the last line reads the [|D|] bytes that begin
    [iw * |D| * ih] bytes after [data]: past the end of every array
    that ends with the [ih] lines after [data], or before. *)
Theorem flipped_image_reads_past_end
        (draw_rgb : Driver -> Fl_RGB_Image -> Z -> Z -> Z -> Z -> Z -> Z -> Driver)
        (st : Driver) (array : list Z) (data ix iy iw ih D : Z) (fresh buffer : list Z) :
  D < 0 -> 0 < iw -> 0 < ih -> fits iw ih (Z.abs D) -> 0 <= data ->
  Z.of_nat (length array) <= data + iw * Z.abs D * ih ->
  let cb := callback_data_of array data iw D 0 in
  draw_image_data draw_rgb st array data ix iy iw ih D 0 fresh
    = draw_image draw_rgb st (callback cb) ix iy iw ih (Z.abs D) fresh /\
  draw_image_cb cb 0 (ih - 1) iw buffer = None.
Proof.
  intros HD Hiw Hih Hfit Hdata Hend cb.
  split; [apply (same_callback_data draw_rgb st array data ix iy iw ih D 0 fresh Hfit)|].
  pose proof Hfit as (_ & _ & HaD & Hsmall).
  assert (HaD30 : Z.abs D < 2 ^ 30) by nia.
  destruct (abs_step D HaD30) as [Habs Hsize].
  unfold draw_image_cb, cb, callback_data_of. cbn [cb_D cb_LD cb_data cb_array].
  destruct (Z.ltb_spec D 0); [|lia]. cbn [Z.eqb].
  rewrite Habs, Hsize.
  rewrite (add_in_range 0 iw) by in_range.
  rewrite (mul_in_range 0 D) by in_range.
  assert (Hline : 0 <= (ih - 1) * (iw * Z.abs D) < 2 ^ 30) by nia.
  rewrite (mul_in_range (ih - 1) (iw * Z.abs D)) by in_range.
  rewrite (add_in_range (0 * D)) by in_range.
  rewrite Z.mul_0_l, !Z.add_0_l.
  destruct (Z.to_nat iw) as [|fuel] eqn:Hfuel; [lia|].
  cbn [for_loop]. destruct (Z.ltb_spec 0 iw); [|lia].
  unfold copy_pixel. cbn [cb_array].
  destruct (Z.leb_spec (data + iw * Z.abs D + (ih - 1) * (iw * Z.abs D) + Z.abs D)
                       (Z.of_nat (length array))) as [Hle|_]; [nia|].
  rewrite andb_false_r. reflexivity.
Qed.

(** X22 on two lines of two pixels, flipped. *)
Lemma flipped_image_reads_past_end_witness :
  let array := [1; 2; 3; 4; 5; 6; 7; 8; 9; 10; 11; 12] in
  fits 2 2 3 /\
  draw_image_cb (callback_data_of array 0 2 (-3) 0) 0 1 2 (repeat 0 6%nat) = None.
Proof.
  intros array.
  assert (Hfit : fits 2 2 3) by (unfold fits; lia).
  split; [exact Hfit|].
  apply (flipped_image_reads_past_end (fun st _ _ _ _ _ _ _ => st)
           (mkDriver [] NONE 0 (mkMatrix 1 0 0 1 0 0)%float 0 0
                     "butt"%string "miter"%string [] [])
           array 0 0 0 2 2 (-3) [] (repeat 0 6%nat)); try lia; try exact Hfit.
  cbn. lia.
Defined.

End PixelsFacts.

(** ** Bitmaps *)

Module BitmapFacts.

Import Bitmap.

(** A byte of the image belongs to one pixel, and one place in it. *)
Lemma pixel_index_inj (w row col c row' col' c' : Z) :
  0 <= row -> 0 <= row' -> 0 <= col < w -> 0 <= col' < w -> 0 <= c < 4 -> 0 <= c' < 4 ->
  (row * w + col) * 4 + c = (row' * w + col') * 4 + c' ->
  row = row' /\ col = col' /\ c = c'.
Proof.
  intros Hr Hr' Hc Hc' Hb Hb' Heq.
  assert (Hpix : row * w + col = row' * w + col') by lia.
  assert (Hrow : row = row')
    by (destruct (Z.lt_trichotomy row row') as [?|[?|?]]; [nia | assumption | nia]).
  subst row'. repeat split; lia.
Qed.

(** The four stores of a pixel. *)
Lemma store_pixel_spec (R G B r : Z) (data : list Z) :
  0 <= r -> r + 4 <= Z.of_nat (length data) ->
  exists data',
    store_pixel R G B r data = Some data' /\
    length data' = length data /\
    (forall c, 0 <= c < 4 -> data' !! Z.to_nat (r + c) = [R; G; B; 255] !! Z.to_nat c) /\
    (forall m, (m < Z.to_nat r \/ Z.to_nat (r + 4) <= m)%nat -> data' !! m = data !! m).
Proof.
  intros Hr Hfit. unfold store_pixel, Image.write.
  repeat (rewrite ?length_insert;
          match goal with
          | |- context [(0 <=? ?a) && (?a <? ?b)] =>
              destruct (Z.leb_spec 0 a); [|lia]; destruct (Z.ltb_spec a b); [|lia];
              cbn [andb]
          end).
  eexists. split; [reflexivity|]. split; [now rewrite !length_insert|]. split.
  - intros c Hc.
    assert (Hcases : c = 0 \/ c = 1 \/ c = 2 \/ c = 3) by lia.
    destruct Hcases as [-> | [-> | [-> | ->]]].
    + rewrite Z.add_0_r. rewrite !list_lookup_insert_ne by lia.
      rewrite list_lookup_insert_eq by lia. reflexivity.
    + rewrite !list_lookup_insert_ne by lia.
      rewrite list_lookup_insert_eq by (rewrite ?length_insert; lia). reflexivity.
    + rewrite list_lookup_insert_ne by lia.
      rewrite list_lookup_insert_eq by (rewrite ?length_insert; lia). reflexivity.
    + rewrite list_lookup_insert_eq by (rewrite ?length_insert; lia). reflexivity.
  - intros m Hm. rewrite !list_lookup_insert_ne by lia. reflexivity.
Qed.

(** The test [q & 1] after [k] shifts. *)
Lemma low_bit (q0 k : Z) :
  0 <= k -> (Z.land (Z.shiftr q0 k) 1 =? 0) = negb (Z.testbit q0 k).
Proof.
  intros Hk. change 1 with (2 ^ 0) at 1. rewrite land_pow2 by lia.
  rewrite Z.shiftr_spec by lia. rewrite Z.add_0_l.
  destruct (Z.testbit q0 k); reflexivity.
Qed.

Lemma shift_byte (q0 k : Z) :
  0 <= q0 < 256 -> 0 <= k ->
  Z.shiftr (Z.shiftr q0 k) 1 mod 256 = Z.shiftr q0 (k + 1).
Proof.
  intros Hq Hk. rewrite Z.shiftr_shiftr by lia.
  apply Z.mod_small. split; [apply Z.shiftr_nonneg; lia|].
  rewrite Z.shiftr_div_pow2 by lia.
  assert (q0 / 2 ^ (k + 1) <= q0); [|lia].
  apply Z.div_le_upper_bound; [lia|]. 
  assert (1 <= 2 ^ (k + 1)) by lia. nia.
Qed.

(** The bit that the loops find for a pixel. *)
Lemma bit_at (bm : Fl_Bitmap) (j i k q0 : Z) :
  0 <= k < 8 ->
  array bm !! Z.to_nat (j * ((data_w bm + 7) / 8) + i) = Some q0 ->
  bit bm j (8 * i + k) = Z.testbit q0 k.
Proof.
  intros Hk Hq. unfold bit.
  replace ((8 * i + k) / 8) with i by (apply (Z.div_unique _ _ _ k); lia).
  replace ((8 * i + k) mod 8) with k by (apply (Z.mod_unique _ _ i); lia).
  now rewrite Hq.
Qed.

(** The test of the invariant, one column further. *)
Lemma done_next (row col j c0 : Z) :
  (row <? j) || ((row =? j) && (col <? c0 + 1)) =
    (row <? j) || ((row =? j) && (col <? c0)) || ((row =? j) && (col =? c0)).
Proof.
  destruct (Z.ltb_spec row j), (Z.eqb_spec row j), (Z.ltb_spec col (c0 + 1)),
    (Z.ltb_spec col c0), (Z.eqb_spec col c0); cbn; (reflexivity || lia).
Qed.

(** One iteration of the loop on [k]. *)
Lemma set_pixel_step (R G B : Z) (bm : Fl_Bitmap) (j i k q0 : Z) (data : list Z) :
  well_sized bm -> 0 <= j < data_h bm -> 0 <= i -> 0 <= k < 8 ->
  8 * i + k < data_w bm -> 0 <= q0 < 256 ->
  array bm !! Z.to_nat (j * ((data_w bm + 7) / 8) + i) = Some q0 ->
  converted R G B bm j (8 * i + k) data ->
  exists data',
    set_pixel R G B bm j i k (Z.shiftr q0 k, data) = Some (Z.shiftr q0 (k + 1), data') /\
    converted R G B bm j (8 * i + (k + 1)) data'.
Proof.
  intros (Hw & Hh & Hsmall & Hrows & Hbytes) Hj Hi Hk Hcol Hq Hq0 (Hlen & Hconv).
  set (w := data_w bm) in *. set (h := data_h bm) in *. set (col := 8 * i + k) in *.
  assert (Hidx : 0 <= (j * w + col) * 4 /\ (j * w + col) * 4 + 4 <= w * h * 4 /\
                 w * h * 4 < 2 ^ 30 /\ 0 <= j * w < 2 ^ 30 /\ 0 <= i * 8 < 2 ^ 30)
    by (unfold col; repeat split; nia).
  destruct Hidx as (Hidx0 & Hidx1 & Hsize & Hjw & Hi8).
  unfold set_pixel, converted. fold w h.
  rewrite low_bit, negb_involutive, shift_byte by lia.
  rewrite (mul_in_range j w) by in_range.
  rewrite (mul_in_range (j * w) 4) by in_range.
  rewrite (mul_in_range i 8) by in_range.
  rewrite (mul_in_range (i * 8) 4) by in_range.
  rewrite (mul_in_range k 4) by in_range.
  replace (j * w * 4 + i * 8 * 4 + k * 4) with ((j * w + col) * 4) by (unfold col; ring).
  pose proof (bit_at bm j i k q0 Hk Hq0) as Hbit. fold col in Hbit.
  replace (8 * i + (k + 1)) with (col + 1) by (unfold col; ring).
  destruct (Z.testbit q0 k) eqn:Htest.
  - destruct (store_pixel_spec R G B ((j * w + col) * 4) data)
      as (data' & Hstore & Hlen' & Hnew & Hkept); [lia | lia |].
    rewrite Hstore. exists data'. split; [reflexivity|].
    split; [lia|]. intros row col' c Hrow Hcol' Hc. rewrite done_next.
    pose proof (Hconv row col' c Hrow Hcol' Hc) as Hold.
    destruct (Z.eqb_spec row j) as [->|Hrow'];
      [destruct (Z.eqb_spec col' col) as [->|Hcol'']|].
    + rewrite Hnew by exact Hc. rewrite Hbit.
      rewrite andb_true_l, orb_true_r. reflexivity.
    + rewrite andb_false_r, orb_false_r.
      rewrite Hkept; [exact Hold|].
      assert ((j * w + col') * 4 + c < (j * w + col) * 4
              \/ (j * w + col) * 4 + 4 <= (j * w + col') * 4 + c) by lia.
      assert (0 <= (j * w + col') * 4 + c) by nia. lia.
    + rewrite andb_false_l, orb_false_r.
      rewrite Hkept; [exact Hold|].
      assert (0 <= (row * w + col') * 4 + c) by nia.
      assert ((row * w + col') * 4 + c < (j * w + col) * 4
              \/ (j * w + col) * 4 + 4 <= (row * w + col') * 4 + c); [|lia].
      destruct (Z.lt_trichotomy row j) as [?|[?|?]]; [left; nia | lia | right; nia].
  - exists data. split; [reflexivity|].
    split; [exact Hlen|]. intros row col' c Hrow Hcol' Hc. rewrite done_next.
    specialize (Hconv row col' c Hrow Hcol' Hc).
    destruct (Z.eqb_spec row j) as [->|Hrow'];
      [destruct (Z.eqb_spec col' col) as [->|Hcol'']|].
    + rewrite andb_true_l, orb_true_r. rewrite Hbit.
      destruct (Z.ltb_spec j j); [lia|]. destruct (Z.ltb_spec col col); [lia|].
      rewrite andb_false_r in Hconv. cbn [orb] in Hconv. rewrite Hconv. cbn [rgba].
      assert (Hcases : c = 0 \/ c = 1 \/ c = 2 \/ c = 3) by lia.
      destruct Hcases as [-> | [-> | [-> | ->]]]; reflexivity.
    + rewrite andb_false_r, orb_false_r. exact Hconv.
    + rewrite andb_false_l, orb_false_r. exact Hconv.
Qed.

(** The loop on [k]: the [last] pixels of byte [i] of line [j]. *)
Lemma set_pixel_loop (R G B : Z) (bm : Fl_Bitmap) (j i last q0 : Z) (data : list Z) :
  well_sized bm -> 0 <= j < data_h bm -> 0 <= i -> 0 <= last <= 8 ->
  8 * i + last <= data_w bm -> 0 <= q0 < 256 ->
  array bm !! Z.to_nat (j * ((data_w bm + 7) / 8) + i) = Some q0 ->
  converted R G B bm j (8 * i) data ->
  exists q data',
    for_loop (Z.to_nat last) 0 last 1 (set_pixel R G B bm j i) (q0, data) = Some (q, data') /\
    converted R G B bm j (8 * i + last) data'.
Proof.
  intros Hsized Hj Hi Hlast Hcols Hq Hq0 Hconv.
  set (Q := fun (k : Z) (s : Z * list Z) =>
              fst s = Z.shiftr q0 k /\ converted R G B bm j (8 * i + k) (snd s)).
  destruct (for_loop_inv Q (set_pixel R G B bm j i) last 1) with
    (fuel := Z.to_nat last) (i := 0) (s := (q0, data))
    as (k & [q data'] & Hrun & Hk & Hk' & (_ & Hdone)).
  - lia.
  - unfold Int.max_signed. lia.
  - intros k [q d] Hk [Hq' Hd]. cbn [fst snd] in Hq', Hd. subst q.
    destruct (set_pixel_step R G B bm j i k q0 d) as (d' & Hstep & Hd'); try assumption; try lia.
    exists (Z.shiftr q0 (k + 1), d'). split; [exact Hstep|]. split; [reflexivity | exact Hd'].
  - lia.
  - lia.
  - split; [reflexivity|]. cbn [snd]. now rewrite Z.add_0_r.
  - assert (k = last) by lia. subst k. exists q, data'. split; [exact Hrun | exact Hdone].
Qed.

(** The number of bytes of a line. *)
Lemma row_bytes (w : Z) :
  0 <= w < 2 ^ 30 ->
  Z.shiftr (Int.add w 7) 3 = (w + 7) / 8 /\
  0 <= (w + 7) / 8 /\ w <= 8 * ((w + 7) / 8) <= w + 7.
Proof.
  intros Hw. rewrite add_in_range by in_range. rewrite Z.shiftr_div_pow2 by lia.
  change (2 ^ 3) with 8.
  pose proof (Z.mul_div_le (w + 7) 8 ltac:(lia)).
  pose proof (Z.mul_succ_div_gt (w + 7) 8 ltac:(lia)).
  repeat split; lia.
Qed.

(** The loop on [i]: line [j]. *)
Lemma convert_byte_loop (R G B : Z) (bm : Fl_Bitmap) (j : Z) (data : list Z) :
  well_sized bm -> 0 <= j < data_h bm ->
  converted R G B bm j 0 data ->
  exists data',
    convert_row R G B bm ((data_w bm + 7) / 8) j data = Some data' /\
    converted R G B bm (j + 1) 0 data'.
Proof.
  intros Hsized Hj Hconv. pose proof Hsized as (Hw & Hh & Hsmall & Hrows & Hbytes).
  set (w := data_w bm) in *. set (h := data_h bm) in *.
  assert (Hw30 : 0 <= w < 2 ^ 30) by nia.
  destruct (row_bytes w Hw30) as (_ & Hrb0 & Hrb1 & Hrb2).
  set (rowBytes := (w + 7) / 8) in *.
  assert (Hjrow : 0 <= j * rowBytes /\ j * rowBytes + rowBytes <= h * rowBytes /\
                  h * rowBytes < 2 ^ 30) by (repeat split; nia).
  destruct Hjrow as (Hjr0 & Hjr1 & Hjr2).
  set (M := fun (i : Z) (s : Z * list Z) =>
              fst s = j * rowBytes + i /\ converted R G B bm j (Z.min (8 * i) w) (snd s)).
  destruct (for_loop_inv M (convert_byte R G B bm j) rowBytes 1) with
    (fuel := Z.to_nat rowBytes) (i := 0) (s := (j * rowBytes, data))
    as (i & [p data'] & Hrun & Hi & Hi' & (_ & Hdone)).
  - lia.
  - unfold Int.max_signed. lia.
  - intros i [p d] Hi [Hp Hd]. cbn [fst snd] in Hp, Hd. subst p.
    assert (Hcol : 8 * i < w) by lia.
    rewrite Z.min_l in Hd by lia.
    destruct (lookup_lt_is_Some_2 (array bm) (Z.to_nat (j * rowBytes + i))) as [q0 Hq0];
      [lia|].
    assert (Hq : 0 <= q0 < 256)
      by (apply (proj1 (Forall_lookup _ _) Hbytes _ _ Hq0)).
    unfold convert_byte, Image.read. fold w.
    destruct (Z.ltb_spec (j * rowBytes + i) 0); [lia|]. rewrite Hq0.
    rewrite (mul_in_range 8 i) by in_range.
    rewrite (sub_in_range w (8 * i)) by in_range.
    set (last := if w - 8 * i >? 8 then 8 else w - 8 * i).
    assert (Hlast : 0 <= last <= 8 /\ 8 * i + last = Z.min (8 * (i + 1)) w)
      by (unfold last; destruct (Z.gtb_spec (w - 8 * i) 8); lia).
    destruct Hlast as [Hlast Hsum].
    destruct (set_pixel_loop R G B bm j i last q0 d) as (q & d' & Hloop & Hd');
      try assumption; try (fold w; lia).
    rewrite Hloop. exists (j * rowBytes + i + 1, d').
    split; [reflexivity|]. split; [cbn [fst]; lia|]. cbn [snd]. now rewrite <- Hsum.
  - lia.
  - lia.
  - split; [cbn [fst]; lia|]. cbn [snd]. rewrite Z.min_l by lia. exact Hconv.
  - assert (i = rowBytes) by lia. subst i. cbn [snd] in Hdone.
    rewrite Z.min_r in Hdone by lia.
    unfold convert_row. rewrite (mul_in_range j rowBytes) by in_range.
    rewrite Hrun. exists data'. split; [reflexivity|].
    destruct Hdone as [Hlen Hpix]. split; [exact Hlen|].
    intros row col c Hrow Hcol Hc. rewrite (Hpix row col c Hrow Hcol Hc). fold w in Hcol.
    destruct (Z.ltb_spec row j), (Z.eqb_spec row j), (Z.ltb_spec col w),
      (Z.ltb_spec row (j + 1)), (Z.eqb_spec row (j + 1)), (Z.ltb_spec col 0);
      cbn; (reflexivity || lia).
Qed.

(** The array after [memset]. *)
Lemma lookup_zeros (n m : nat) : (m < n)%nat -> repeat 0 n !! m = Some 0.
Proof.
  revert m. induction n as [|n IH]; intros m Hm; [lia|].
  destruct m as [|m]; [reflexivity|]. cbn. apply IH. lia.
Qed.

(** X23.  [draw_fixed] on a bitmap hands [draw_rgb] an image of depth 4
    and of the size of the bitmap in which the pixel in column [col]
    of line [row] holds the current colour and the alpha value 255
    when bit [col mod 8] of byte [col / 8] of line [row] of the bitmap
    is set, and four zero bytes when it is not; the bits of a last
    byte beyond the width are not used.  The bitmap has a size for
    which no index computation overflows, and its array holds the
    lines. *)
Theorem draw_fixed_bitmap
        (draw_rgb : Driver -> Image.Fl_RGB_Image -> Z -> Z -> Z -> Z -> Z -> Z -> Driver)
        (st : Driver) (bm : Fl_Bitmap) (R G B XP YP WP HP cx cy : Z) :
  well_sized bm ->
  exists data,
    bitmap_data R G B bm = Some data /\
    draw_fixed draw_rgb st bm R G B XP YP WP HP cx cy
      = Some (draw_rgb st (Image.mkImage 4 (data_w bm) (data_h bm) (Some data))
                       XP YP WP HP cx cy) /\
    Z.of_nat (length data) = data_w bm * data_h bm * 4 /\
    forall row col c, 0 <= row < data_h bm -> 0 <= col < data_w bm -> 0 <= c < 4 ->
      Image.read data ((row * data_w bm + col) * 4 + c)
      = rgba R G B (bit bm row col) !! Z.to_nat c.
Proof.
  intros Hsized. pose proof Hsized as (Hw & Hh & Hsmall & Hrows & Hbytes).
  set (w := data_w bm) in *. set (h := data_h bm) in *.
  assert (Hw30 : 0 <= w < 2 ^ 30) by nia.
  destruct (row_bytes w Hw30) as (Hshift & _).
  assert (Hsize : 0 <= w * h < 2 ^ 30 /\ 0 <= w * h * 4 < 2 ^ 30) by (split; nia).
  destruct Hsize as [Hwh Hwh4].
  destruct (for_loop_inv (fun j data => converted R G B bm j 0 data)
                         (convert_row R G B bm ((w + 7) / 8)) h 1) with
    (fuel := Z.to_nat h) (i := 0) (s := repeat 0 (Z.to_nat (w * h * 4)))
    as (j & data & Hrun & Hj & Hj' & (Hlen & Hpix)).
  - lia.
  - unfold Int.max_signed. nia.
  - intros j data Hj Hconv. apply convert_byte_loop; assumption.
  - lia.
  - lia.
  - split; [rewrite repeat_length; fold w h; lia|].
    intros row col c Hrow Hcol Hc. fold w h in Hrow, Hcol |- *.
    destruct (Z.ltb_spec row 0); [lia|]. destruct (Z.ltb_spec col 0); [lia|].
    rewrite andb_false_r. cbn [orb].
    apply lookup_zeros. nia.
  - assert (j = h) by lia. subst j.
    exists data. unfold draw_fixed, bitmap_data. fold w h.
    rewrite (mul_in_range w h) by in_range.
    rewrite (mul_in_range (w * h) 4) by in_range.
    rewrite Hshift, Hrun. split; [reflexivity|]. split; [reflexivity|].
    split; [exact Hlen|].
    intros row col c Hrow Hcol Hc. unfold Image.read.
    assert (0 <= (row * w + col) * 4 + c) by nia.
    destruct (Z.ltb_spec ((row * w + col) * 4 + c) 0); [lia|].
    specialize (Hpix row col c Hrow Hcol Hc). fold w h in Hpix. rewrite Hpix.
    destruct (Z.ltb_spec row h); [reflexivity | lia].
Qed.

(** X23 on a bitmap of ten columns and one line, its bits 0 and 9 set,
    drawn in red. *)
Lemma draw_fixed_bitmap_witness :
  let bm := mkBitmap 10 1 [1; 2] in
  well_sized bm /\
  exists data,
    bitmap_data 255 0 0 bm = Some data /\
    Image.read data 0 = Some 255 /\ Image.read data 4 = Some 0 /\
    Image.read data 36 = Some 255 /\ Image.read data 39 = Some 255.
Proof.
  intros bm.
  assert (Hsized : well_sized bm).
  { unfold well_sized, bm. cbn [data_w data_h array].
    split; [lia|]. split; [lia|]. split; [reflexivity|]. split; [vm_compute; discriminate|].
    repeat (apply List.Forall_cons; [lia|]). apply List.Forall_nil. }
  split; [exact Hsized|].
  destruct (draw_fixed_bitmap (fun st _ _ _ _ _ _ _ => st)
              (mkDriver [] NONE 0 (mkMatrix 1 0 0 1 0 0)%float 0 0
                        "butt"%string "miter"%string [] [])
              bm 255 0 0 0 0 10 1 0 0 Hsized) as (data & Hdata & _ & _ & Hpixels).
  exists data. split; [exact Hdata|].
  assert (Hrange : forall col c, 0 <= col < 10 -> 0 <= c < 4 ->
            Image.read data (col * 4 + c) = rgba 255 0 0 (bit bm 0 col) !! Z.to_nat c).
  { intros col c Hcol Hc. rewrite <- (Hpixels 0 col c); [reflexivity | cbn; lia ..]. }
  split; [apply (Hrange 0 0); lia|]. split; [apply (Hrange 1 0); lia|].
  split; [apply (Hrange 9 0); lia | apply (Hrange 9 3); lia].
Defined.

End BitmapFacts.


(** ** The inverse of a matrix, for every determinant *)

Module InverseFacts.

Import Matrix.

(** A [double] that converts to [int] gives an [int]. *)
Lemma int_of_double_in_range (f : double) (z : Z) :
  int_of_double f = Some z -> Int.in_range z.
Proof.
  unfold int_of_double, Int.in_range.
  destruct (Prim2SF f) as [s|s| |s m e]; try discriminate.
  - intros [= <-]. unfold Int.min_signed, Int.max_signed. lia.
  - cbv zeta.
    destruct (Z.leb_spec Int.min_signed
                (if s then - (if 0 <=? e then Z.shiftl (Z.pos m) e else Z.shiftr (Z.pos m) (- e))
                 else (if 0 <=? e then Z.shiftl (Z.pos m) e else Z.shiftr (Z.pos m) (- e))));
      [|discriminate].
    destruct (Z.leb_spec
                (if s then - (if 0 <=? e then Z.shiftl (Z.pos m) e else Z.shiftr (Z.pos m) (- e))
                 else (if 0 <=? e then Z.shiftl (Z.pos m) e else Z.shiftr (Z.pos m) (- e)))
                Int.max_signed); [|discriminate].
    cbn [andb]. intros [= <-]. split; assumption.
Qed.

(** The quotient [1 / det] on [int]. *)
Lemma one_over (det : Z) :
  Int.in_range det -> det <> 0 ->
  Int.div 1 det = if det =? 1 then 1 else if det =? -1 then -1 else 0.
Proof.
  intros Hrange Hdet. unfold Int.div.
  destruct (Z.eqb_spec det 1) as [->|H1]; [reflexivity|].
  destruct (Z.eqb_spec det (-1)) as [->|Hm1]; [reflexivity|].
  replace (Z.quot 1 det) with 0; [reflexivity|].
  destruct (Z.lt_ge_cases det 0).
  - rewrite <- (Z.opp_involutive det), Z.quot_opp_r by lia.
    rewrite Z.quot_small by lia. reflexivity.
  - rewrite Z.quot_small by lia. reflexivity.
Qed.

(** X24.  [invert_matrix] for every matrix whose determinant converts
    to an [int].  It returns -1 and writes nothing when the converted
    determinant is 0; it writes the adjugate when the converted
    determinant is 1, and its opposite when it is -1; and for every
    other determinant [1 / det] is 0 in integer arithmetic, so that it
    returns 0 with every entry multiplied by zero. *)
Theorem invert_matrix_cases (m newmatrix : matrix) (det : Z) :
  int_of_double (PrimFloat.sub (PrimFloat.mul (ma m) (md m))
                               (PrimFloat.mul (mb m) (mc m))) = Some det ->
  let scaled (invDet : double) :=
    mkMatrix (PrimFloat.mul (md m) invDet)
             (PrimFloat.mul (PrimFloat.opp (mb m)) invDet)
             (PrimFloat.mul (PrimFloat.opp (mc m)) invDet)
             (PrimFloat.mul (ma m) invDet)
             (PrimFloat.mul (PrimFloat.sub (PrimFloat.mul (mc m) (my m))
                                           (PrimFloat.mul (md m) (mx m))) invDet)
             (PrimFloat.mul (PrimFloat.sub (PrimFloat.mul (mb m) (mx m))
                                           (PrimFloat.mul (ma m) (my m))) invDet) in
  invert_matrix m newmatrix =
    if det =? 0 then Some (-1, newmatrix)
    else if det =? 1 then Some (0, scaled 1%float)
    else if det =? -1 then Some (0, scaled (-1)%float)
    else Some (0, scaled 0%float).
Proof.
  intros Hdet scaled. unfold invert_matrix. rewrite Hdet.
  destruct (Z.eqb_spec det 0) as [->|Hne]; [reflexivity|].
  rewrite one_over by (eauto using int_of_double_in_range).
  destruct (Z.eqb_spec det 1); [reflexivity|].
  destruct (Z.eqb_spec det (-1)); reflexivity.
Qed.

(** X24 on the scaling by 3, of determinant 9: every entry written is a
    zero, and the image of a point is not sent back to the point. *)
Lemma invert_matrix_cases_witness :
  let m := (mkMatrix 3 0 0 3 0 0)%float in
  let zero := (mkMatrix 0 (-0) (-0) 0 0 0)%float in
  int_of_double (PrimFloat.sub (PrimFloat.mul (ma m) (md m))
                               (PrimFloat.mul (mb m) (mc m))) = Some 9 /\
  invert_matrix m zero = Some (0, zero) /\
  apply zero (apply m (1, 1)%float) = (0, 0)%float.
Proof.
  intros m zero.
  assert (Hdet : int_of_double (PrimFloat.sub (PrimFloat.mul (ma m) (md m))
                                              (PrimFloat.mul (mb m) (mc m))) = Some 9)
    by (vm_compute; reflexivity).
  split; [exact Hdet|]. split; [|vm_compute; reflexivity].
  rewrite (invert_matrix_cases m zero 9 Hdet). vm_compute. reflexivity.
Defined.

End InverseFacts.
